(** * Plottable bar plots: mark geometry, bar-width solving, draw steps,
      spatial queries and configuration errors

    A shallow embedding of

    - [src/components/plots/barPlot.ts] ([Plots.Bar], and the
      [Plot.StackedArea] class that shares the file),
    - [src/renderers/barRenderer.ts] ([BarRenderer]),
    - [src/components/dragBoxLayer.ts] ([DragBoxLayer]).

    JavaScript numbers are idealised: a finite number is an exact rational
    (no rounding, no signed zero), and the three non-finite values are kept
    as constructors of their own, so that [Infinity], [NaN] and the
    finiteness filter of the plot can be stated. *)

From Stdlib Require Import QArith Qabs Qminmax Qround Lqa Lia Ascii String Sorted SetoidList.
From stdpp Require Import gmap strings list.

(** ** JavaScript numbers *)

Module JS.

Inductive number : Type :=
| Fin (q : Q)
| PosInf
| NegInf
| NaN.

Definition isFinite (n : number) : bool :=
  match n with Fin _ => true | _ => false end.

(** The relational comparison of two numbers; [None] when one is [NaN]
    (every comparison with [NaN] is false). *)
Definition compare (a b : number) : option comparison :=
  match a, b with
  | NaN, _ => None
  | _, NaN => None
  | Fin x, Fin y => Some (x ?= y)%Q
  | PosInf, PosInf => Some Eq
  | NegInf, NegInf => Some Eq
  | NegInf, _ => Some Lt
  | _, PosInf => Some Lt
  | PosInf, _ => Some Gt
  | _, NegInf => Some Gt
  end.

(** [a < b], [a <= b], [a > b], [a >= b], [a === b] *)
Definition lt (a b : number) : bool :=
  match compare a b with Some Lt => true | _ => false end.
Definition le (a b : number) : bool :=
  match compare a b with Some Lt | Some Eq => true | _ => false end.
Definition gt (a b : number) : bool :=
  match compare a b with Some Gt => true | _ => false end.
Definition ge (a b : number) : bool :=
  match compare a b with Some Gt | Some Eq => true | _ => false end.
Definition seq (a b : number) : bool :=
  match compare a b with Some Eq => true | _ => false end.

Definition neg (a : number) : number :=
  match a with
  | Fin x => Fin (- x)
  | PosInf => NegInf
  | NegInf => PosInf
  | NaN => NaN
  end.

(** [a + b] *)
Definition add (a b : number) : number :=
  match a, b with
  | NaN, _ => NaN
  | _, NaN => NaN
  | Fin x, Fin y => Fin (x + y)
  | PosInf, NegInf => NaN
  | NegInf, PosInf => NaN
  | PosInf, _ => PosInf
  | _, PosInf => PosInf
  | NegInf, _ => NegInf
  | _, NegInf => NegInf
  end.

(** [a - b] *)
Definition sub (a b : number) : number := add a (neg b).

(** [a / b]; a zero divisor is taken as [+0]. *)
Definition div (a b : number) : number :=
  match a, b with
  | NaN, _ => NaN
  | _, NaN => NaN
  | Fin x, Fin y =>
      match (y ?= 0)%Q with
      | Eq => match (x ?= 0)%Q with Eq => NaN | Gt => PosInf | Lt => NegInf end
      | _ => Fin (x / y)
      end
  | Fin _, _ => Fin 0
  | PosInf, Fin y => match (y ?= 0)%Q with Lt => NegInf | _ => PosInf end
  | NegInf, Fin y => match (y ?= 0)%Q with Lt => PosInf | _ => NegInf end
  | _, _ => NaN
  end.

(** [Math.abs] *)
Definition abs (a : number) : number :=
  match a with
  | Fin x => Fin (Qabs x)
  | PosInf => PosInf
  | NegInf => PosInf
  | NaN => NaN
  end.

(** [Math.floor] *)
Definition floor (a : number) : number :=
  match a with
  | Fin x => Fin (inject_Z (Qfloor x))
  | other => other
  end.

(** [a * b] *)
Definition mul (a b : number) : number :=
  match a, b with
  | NaN, _ => NaN
  | _, NaN => NaN
  | Fin x, Fin y => Fin (x * y)
  | Fin x, PosInf => match (x ?= 0)%Q with Eq => NaN | Gt => PosInf | Lt => NegInf end
  | Fin x, NegInf => match (x ?= 0)%Q with Eq => NaN | Gt => NegInf | Lt => PosInf end
  | PosInf, Fin y => match (y ?= 0)%Q with Eq => NaN | Gt => PosInf | Lt => NegInf end
  | NegInf, Fin y => match (y ?= 0)%Q with Eq => NaN | Gt => NegInf | Lt => PosInf end
  | PosInf, PosInf => PosInf
  | NegInf, NegInf => PosInf
  | PosInf, NegInf => NegInf
  | NegInf, PosInf => NegInf
  end.

(** [Math.min(a, b)] *)
Definition Math_min (a b : number) : number :=
  match compare a b with
  | None => NaN
  | Some Gt => b
  | Some _ => a
  end.

(** [String.prototype.toLowerCase], on the ASCII letters. *)
Definition lowerAscii (c : ascii) : ascii :=
  let n := nat_of_ascii c in
  if ((65 <=? n)%nat && (n <=? 90)%nat)%bool then ascii_of_nat (n + 32) else c.

Fixpoint toLowerCase (s : string) : string :=
  match s with
  | EmptyString => EmptyString
  | String c rest => String (lowerAscii c) (toLowerCase rest)
  end.

(** A call either returns or throws an [Error] with a message. *)
Inductive completion (A : Type) : Type :=
| Return (a : A)
| Throw (message : string).
Arguments Return {A} a.
Arguments Throw {A} message.

End JS.

Import JS.

(** ** Geometry records of the library *)

Module Point.
Record t : Type := mk { x : number; y : number }.
End Point.

Module Range.
Record t : Type := mk { min : number; max : number }.
End Range.

Module Bounds.
Record t : Type := mk { topLeft : Point.t; bottomRight : Point.t }.
End Bounds.

Module SVGRect.
Record t : Type := mk { x : number; y : number; width : number; height : number }.
End SVGRect.

(** ** d3 and the array methods the width solve uses *)

Module D3.

(** [d3.set(values).values()]: the distinct values; equal numbers have the
    same string key, so one of them is kept. *)
Fixpoint set_values (l : list Q) : list Q :=
  match l with
  | [] => []
  | v :: rest =>
      v :: filter (λ w, negb (Qeq_bool v w)) (set_values rest)
  end.

(** [d3.pairs(array)]: the adjacent pairs [[a0,a1], [a1,a2], ...]. *)
Fixpoint pairs (l : list Q) : list (Q * Q) :=
  match l with
  | a :: (b :: _) as rest => (a, b) :: pairs rest
  | _ => []
  end.

(** [array.sort(comparator)], as a stable insertion sort: an element goes
    before the first one the comparator does not place it after. *)
Fixpoint insert (cmp : Q → Q → Q) (v : Q) (l : list Q) : list Q :=
  match l with
  | [] => [v]
  | w :: rest =>
      if Qle_bool (cmp v w) 0 then v :: w :: rest else w :: insert cmp v rest
  end.

Fixpoint sort (cmp : Q → Q → Q) (l : list Q) : list Q :=
  match l with
  | [] => []
  | v :: rest => insert cmp v (sort cmp rest)
  end.

End D3.

(** ** [Plottable.Utils.Methods] *)

Module Utils.

(** [a < b] on finite numbers *)
Definition Qltb (a b : Q) : bool := negb (Qle_bool b a).

(** Modelled from the spec: [Utils.Methods.isValidNumber] is not in the
    sources; a projected attribute is valid when it is "a finite number". *)
Definition isValidNumber (n : number) : bool := isFinite n.

(** Modelled from the spec: [Utils.Methods.min(array, defaultValue)] and
    [Utils.Methods.min(array, accessor, defaultValue)] are not in the
    sources; the minimum of the (mapped) values, and the default value
    when there is none ("default to ... if fewer than two distinct values
    exist"). *)
Definition min (array : list Q) (defaultValue : Q) : Q :=
  match array with
  | [] => defaultValue
  | v :: rest => foldl Qmin v rest
  end.

(** Modelled from the spec: the form of [Utils.Methods.min] with an accessor,
    "the candidate width is the minimum such gap". *)
Definition min_by {T} (array : list T) (accessor : T → Q) (defaultValue : Q) : Q :=
  min (accessor <$> array) defaultValue.

(** Modelled from the spec: [Utils.Methods.max(array, defaultValue)], the
    mirror image of [min]. *)
Definition max (array : list Q) (defaultValue : Q) : Q :=
  match array with
  | [] => defaultValue
  | v :: rest => foldl Qmax v rest
  end.

(** Modelled from the spec: the argument of a query is a point coordinate
    ("entitiesAt(point)") or a range ("entitiesIntersecting(xRange, yRange)");
    a number stands for the one-point range. *)
Definition parseRange (v : number + Range.t) : Range.t :=
  match v with
  | inl n => Range.mk n n
  | inr r => r
  end.

(** Modelled from the spec: the tolerance of [Utils.Methods.intersectsBBox]
    when the caller passes none, "a fixed half-pixel tolerance is applied to
    all inside tests". *)
Definition defaultTolerance : number := Fin (1 # 2).

(** Modelled from the spec: [Utils.Methods.intersectsBBox(xValOrRange,
    yValOrRange, bbox, tolerance)] is not in the sources; "all entities
    whose bounding box overlaps the rectangle (inclusive bounds)", the box
    being widened by the tolerance. *)
Definition intersectsBBox (xValOrRange yValOrRange : number + Range.t)
    (bbox : SVGRect.t) (tolerance : option number) : bool :=
  let tolerance := default defaultTolerance tolerance in
  let xRange := parseRange xValOrRange in
  let yRange := parseRange yValOrRange in
  ge (add (SVGRect.x bbox) (SVGRect.width bbox)) (sub (Range.min xRange) tolerance)
  && le (SVGRect.x bbox) (add (Range.max xRange) tolerance)
  && ge (add (SVGRect.y bbox) (SVGRect.height bbox)) (sub (Range.min yRange) tolerance)
  && le (SVGRect.y bbox) (add (Range.max yRange) tolerance).

End Utils.

(** The extent of a text, as the measurer reports it. *)
Module Measurement.
Record t : Type := mk { width : number; height : number }.
End Measurement.

(** ** [Plots.Bar] *)

Module Bar.

Definition ORIENTATION_VERTICAL : string := "vertical".
Definition ORIENTATION_HORIZONTAL : string := "horizontal".
Definition _BAR_WIDTH_RATIO : Q := 95 # 100.
Definition _SINGLE_BAR_DIMENSION_RATIO : Q := 4 # 10.

Section Plot.
Variable Datum : Type.

(** A dataset is its [data()]. *)
Definition Dataset : Type := list Datum.

(** A projector maps [(datum, index, dataset)] to an attribute value. *)
Definition Projector : Type := Datum → nat → Dataset → number.

(** A scale of a plot axis: a [Scales.Category] with its [rangeBand()],
    or a [QuantitativeScale].  Domain values are finite numbers. *)
Inductive Scale : Type :=
| Category (scale : Q → Q) (rangeBand : Q)
| Quantitative (scale : Q → Q).

Definition scale_of (s : Scale) : Q → Q :=
  match s with
  | Category f _ => f
  | Quantitative f => f
  end.

(** [Plots.AccessorScaleBinding]; the accessor gives [None] for a
    [null] or [undefined] value. *)
Record AccessorScaleBinding : Type := {
  accessor : Datum → nat → Dataset → option Q;
  scale : Scale
}.

(** What [attr(name, ...)] bound to an attribute: the closure
    [() => this._getBarPixelWidth()] the constructor installs for
    ["width"], or an accessor of the caller. *)
Inductive AttrBinding : Type :=
| BarPixelWidth
| Accessor (f : Projector).

Record Plot : Type := {
  _isVertical : bool;
  _baselineValue : Q;
  x : AccessorScaleBinding;
  y : AccessorScaleBinding;
  _projectorsReady : bool;
  datasets : list Dataset;
  width : Q;
  height : Q;
  _widthBinding : AttrBinding;
  _attrBindings : gmap string AttrBinding;
  _animate : bool;
  _dataChanged : bool;
  (** how many times [render()] was requested *)
  renderRequests : nat
}.

(** *** [_getBarPixelWidth] *)

Definition barAccessorData (barAccessor : Datum → nat → Dataset → option Q)
    (dataset : Dataset) : list Q :=
  omap id (imap (λ i d, barAccessor d i dataset) dataset).

(** [Utils.Methods.flatten(this.datasets().map(...))] *)
Definition barAccessorValues (p : Plot) : list Q :=
  let barAccessor := if _isVertical p then accessor (x p) else accessor (y p) in
  concat (barAccessorData barAccessor <$> datasets p).

(** The comparator [(a, b) => a - b]. *)
Definition ascending : Q → Q → Q := λ a b, (a - b)%Q.

Definition numberBarAccessorData (p : Plot) : list Q :=
  D3.sort ascending (D3.set_values (barAccessorValues p)).

Definition _getBarPixelWidth (p : Plot) : Q :=
  if negb (_projectorsReady p) then 0%Q else
  let barScale := if _isVertical p then scale (x p) else scale (y p) in
  match barScale with
  | Category _ rangeBand => rangeBand
  | Quantitative barScale_scale =>
      let numberBarAccessorData := numberBarAccessorData p in
      let barAccessorDataPairs := D3.pairs numberBarAccessorData in
      let barWidthDimension := if _isVertical p then width p else height p in
      let barPixelWidth :=
        Utils.min_by barAccessorDataPairs
          (λ pair, Qabs (barScale_scale (snd pair) - barScale_scale (fst pair)))
          (barWidthDimension * _SINGLE_BAR_DIMENSION_RATIO)%Q in
      let scaledData := barScale_scale <$> numberBarAccessorData in
      let minScaledDatum := Utils.min scaledData 0%Q in
      let barPixelWidth :=
        if Utils.Qltb 0 minScaledDatum
        then Qmin barPixelWidth (minScaledDatum * 2) else barPixelWidth in
      let maxScaledDatum := Utils.max scaledData 0%Q in
      let barPixelWidth :=
        if Utils.Qltb maxScaledDatum barWidthDimension
        then let margin := (barWidthDimension - maxScaledDatum)%Q in
             Qmin barPixelWidth (margin * 2)
        else barPixelWidth in
      (barPixelWidth * _BAR_WIDTH_RATIO)%Q
  end.

(** *** [_generateAttrToProjector] *)

(** Modelled from the spec: [Plot._scaledAccessor] is not in the sources;
    "rawPrimary = primaryScale.scale(primaryAccessor(datum))", and the
    scale of a missing value is not a number. *)
Definition _scaledAccessor (b : AccessorScaleBinding) : Projector :=
  λ d i dataset,
    match accessor b d i dataset with
    | Some v => Fin (scale_of (scale b) v)
    | None => NaN
    end.

Definition evalBinding (p : Plot) (b : AttrBinding) : Projector :=
  match b with
  | BarPixelWidth => λ _ _ _, Fin (_getBarPixelWidth p)
  | Accessor f => f
  end.

(** Modelled from the spec: [super._generateAttrToProjector()] is not in the
    sources; the base class gives one projector per bound attribute
    ("thickness comes from BarWidthSolver or an explicit per-datum accessor if
    supplied"). *)
Definition super_generateAttrToProjector (p : Plot) : gmap string Projector :=
  <["width" := evalBinding p (_widthBinding p)]> (evalBinding p <$> _attrBindings p).

(** [attrToProjector[attr]], for an attribute that is bound. *)
Definition projectorOf (attrToProjector : gmap string Projector) (attr : string)
    : Projector :=
  default (λ _ _ _, NaN) (attrToProjector !! attr).

Definition primaryScale (p : Plot) : Scale :=
  if _isVertical p then scale (y p) else scale (x p).

Definition scaledBaseline (p : Plot) : Q :=
  scale_of (primaryScale p) (_baselineValue p).

Definition originalPositionFn (p : Plot) : Projector :=
  if _isVertical p then _scaledAccessor (y p) else _scaledAccessor (x p).

Definition positionF (p : Plot) : Projector :=
  if _isVertical p then _scaledAccessor (x p) else _scaledAccessor (y p).

Definition _generateAttrToProjector (p : Plot) : gmap string Projector :=
  let attrToProjector := super_generateAttrToProjector p in
  let primaryAttr := if _isVertical p then "y" else "x" in
  let secondaryAttr := if _isVertical p then "x" else "y" in
  let scaledBaseline := scaledBaseline p in
  let positionF := positionF p in
  let widthF := projectorOf attrToProjector "width" in
  let originalPositionFn := originalPositionFn p in
  let heightF : Projector := λ d i dataset,
    abs (sub (Fin scaledBaseline) (originalPositionFn d i dataset)) in
  let attrToProjector :=
    <["width" := if _isVertical p then widthF else heightF]> attrToProjector in
  let attrToProjector :=
    <["height" := if _isVertical p then heightF else widthF]> attrToProjector in
  let attrToProjector :=
    <[secondaryAttr := (λ d i dataset,
        sub (positionF d i dataset) (div (widthF d i dataset) (Fin 2))) : Projector]>
      attrToProjector in
  <[primaryAttr := (λ d i dataset,
      let originalPos := originalPositionFn d i dataset in
      if gt originalPos (Fin scaledBaseline) then Fin scaledBaseline
      else originalPos) : Projector]>
    attrToProjector.

(** *** [_generateDrawSteps] *)

(** The keys [Plots.Animator.RESET] and [Plots.Animator.MAIN]. *)
Inductive Animator : Type := RESET | MAIN.

Record DrawStep : Type := {
  attrToProjector : gmap string Projector;
  animator : Animator
}.

Definition positionAttr (p : Plot) : string := if _isVertical p then "y" else "x".
Definition dimensionAttr (p : Plot) : string :=
  if _isVertical p then "height" else "width".

Definition _generateDrawSteps (p : Plot) : list DrawStep :=
  let drawSteps : list DrawStep := [] in
  let drawSteps :=
    if _dataChanged p && _animate p then
      let resetAttrToProjector := _generateAttrToProjector p in
      let scaledBaseline := scaledBaseline p in
      let resetAttrToProjector :=
        <[positionAttr p := (λ _ _ _, Fin scaledBaseline) : Projector]>
          resetAttrToProjector in
      let resetAttrToProjector :=
        <[dimensionAttr p := (λ _ _ _, Fin 0) : Projector]> resetAttrToProjector in
      drawSteps ++ [{| attrToProjector := resetAttrToProjector; animator := RESET |}]
    else drawSteps in
  drawSteps ++ [{| attrToProjector := _generateAttrToProjector p; animator := MAIN |}].

(** *** [_getDataToDraw] *)

(** [array.filter((d, i) => keep(d, i))], the indices counted from [i]. *)
Fixpoint filter_from (keep : Datum → nat → bool) (i : nat) (data : list Datum)
    : list Datum :=
  match data with
  | [] => []
  | d :: rest =>
      if keep d i then d :: filter_from keep (S i) rest
      else filter_from keep (S i) rest
  end.

Definition drawable (attrToProjector : gmap string Projector) (dataset : Dataset)
    (d : Datum) (i : nat) : bool :=
  Utils.isValidNumber (projectorOf attrToProjector "x" d i dataset)
  && Utils.isValidNumber (projectorOf attrToProjector "y" d i dataset)
  && Utils.isValidNumber (projectorOf attrToProjector "width" d i dataset)
  && Utils.isValidNumber (projectorOf attrToProjector "height" d i dataset).

(** The [Utils.Map<Dataset, any[]>] is the list of its entries, in the
    order they were set. *)
Definition _getDataToDraw (p : Plot) : list (Dataset * list Datum) :=
  let attrToProjector := _generateAttrToProjector p in
  (λ dataset,
     (dataset, filter_from (drawable attrToProjector dataset) 0 dataset))
  <$> datasets p.

(** *** [_pixelPoint] and [entities] *)

Definition _pixelPoint (p : Plot) (datum : Datum) (index : nat) (dataset : Dataset)
    : Point.t :=
  let attrToProjector := _generateAttrToProjector p in
  let rectX := projectorOf attrToProjector "x" datum index dataset in
  let rectY := projectorOf attrToProjector "y" datum index dataset in
  let rectWidth := projectorOf attrToProjector "width" datum index dataset in
  let rectHeight := projectorOf attrToProjector "height" datum index dataset in
  let x := if _isVertical p then add rectX (div rectWidth (Fin 2))
           else add rectX rectWidth in
  let y := if _isVertical p then rectY
           else add rectY (div rectHeight (Fin 2)) in
  Point.mk x y.

(** [Plots.Entity]; [selection] is the bar's [rect]: its [x], [y],
    [width] and [height] attributes, which are its bounding box too. *)
Record Entity : Type := {
  datum : Datum;
  index : nat;
  dataset : Dataset;
  position : Point.t;
  selection : SVGRect.t
}.

(** Modelled from the spec: [Utils.DOM.getBBox] is not in the sources; the
    "boundingBox" of an entity is the rectangle of its bar. *)
Definition getBBox (selection : SVGRect.t) : SVGRect.t := selection.

(** An entity as the base class reports it for a drawn datum: its position
    is the pixel point of the datum and its [rect] carries the projected
    attributes. *)
Definition isRendered (p : Plot) (entity : Entity) : Prop :=
  let attrToProjector := _generateAttrToProjector p in
  position entity = _pixelPoint p (datum entity) (index entity) (dataset entity)
  ∧ selection entity
    = SVGRect.mk
        (projectorOf attrToProjector "x" (datum entity) (index entity) (dataset entity))
        (projectorOf attrToProjector "y" (datum entity) (index entity) (dataset entity))
        (projectorOf attrToProjector "width" (datum entity) (index entity) (dataset entity))
        (projectorOf attrToProjector "height" (datum entity) (index entity) (dataset entity)).

Definition rendered (p : Plot) (d : Datum) (i : nat) (ds : Dataset) : Entity :=
  let attrToProjector := _generateAttrToProjector p in
  {| datum := d; index := i; dataset := ds;
     position := _pixelPoint p d i ds;
     selection :=
       SVGRect.mk (projectorOf attrToProjector "x" d i ds)
         (projectorOf attrToProjector "y" d i ds)
         (projectorOf attrToProjector "width" d i ds)
         (projectorOf attrToProjector "height" d i ds) |}.

Definition set_position (entity : Entity) (position : Point.t) : Entity :=
  {| datum := datum entity; index := index entity; dataset := dataset entity;
     position := position; selection := selection entity |}.

(** The body of the [forEach] of [entities]. *)
Definition movePosition (p : Plot) (entity : Entity) : Entity :=
  let scaledBaseline := Fin (scaledBaseline p) in
  let bar := selection entity in
  let position := position entity in
  let position :=
    if _isVertical p && ge (floor (SVGRect.y bar)) (floor scaledBaseline) then
      Point.mk (Point.x position) (add (Point.y position) (SVGRect.height bar))
    else if negb (_isVertical p) && lt (floor (SVGRect.x bar)) (floor scaledBaseline) then
      Point.mk (sub (Point.x position) (SVGRect.width bar)) (Point.y position)
    else position in
  let position :=
    if _isVertical p then
      Point.mk (add (SVGRect.x bar) (div (SVGRect.width bar) (Fin 2))) (Point.y position)
    else
      Point.mk (Point.x position) (add (SVGRect.y bar) (div (SVGRect.height bar) (Fin 2))) in
  set_position entity position.

(** [entities(datasets)]; [super_entities] is what [super.entities(datasets)]
    returns (the base class is not in the sources). *)
Definition entities (p : Plot) (super_entities : list Entity) : list Entity :=
  if negb (_projectorsReady p) then []
  else movePosition p <$> super_entities.

(** *** Spatial queries *)

Definition _isVisibleOnPlot (p : Plot) (datum : Datum) (pixelPoint : Point.t)
    (selection : SVGRect.t) : bool :=
  let xRange := Range.mk (Fin 0) (Fin (width p)) in
  let yRange := Range.mk (Fin 0) (Fin (height p)) in
  let barBBox := selection in
  Utils.intersectsBBox (inr xRange) (inr yRange) barBBox None.

(** The state of the loop of [entityNearest]. *)
Record Nearest : Type := {
  closest : option Entity;
  minPrimaryDist : number;
  minSecondaryDist : number
}.

Definition tolerance : number := Fin (1 # 2).

(** [primaryDist] and [secondaryDist] of one entity. *)
Definition distances (p : Plot) (queryPoint : Point.t) (entity : Entity)
    : number * number :=
  let queryPtPrimary := if _isVertical p then Point.x queryPoint else Point.y queryPoint in
  let queryPtSecondary := if _isVertical p then Point.y queryPoint else Point.x queryPoint in
  let primaryDist := Fin 0 in
  let secondaryDist := Fin 0 in
  let plotPt := position entity in
  let barBBox := getBBox (selection entity) in
  if negb (Utils.intersectsBBox (inl (Point.x queryPoint)) (inl (Point.y queryPoint))
             barBBox (Some tolerance)) then
    let plotPtPrimary := if _isVertical p then Point.x plotPt else Point.y plotPt in
    let primaryDist := abs (sub queryPtPrimary plotPtPrimary) in
    let barMinSecondary := if _isVertical p then SVGRect.y barBBox else SVGRect.x barBBox in
    let barMaxSecondary :=
      add barMinSecondary
        (if _isVertical p then SVGRect.height barBBox else SVGRect.width barBBox) in
    if ge queryPtSecondary (sub barMinSecondary tolerance)
       && le queryPtSecondary (add barMaxSecondary tolerance) then
      (primaryDist, Fin 0)
    else
      let plotPtSecondary := if _isVertical p then Point.y plotPt else Point.x plotPt in
      (primaryDist, abs (sub queryPtSecondary plotPtSecondary))
  else (primaryDist, secondaryDist).

(** The body of the [forEach] of [entityNearest]. *)
Definition nearestStep (p : Plot) (queryPoint : Point.t) (st : Nearest)
    (entity : Entity) : Nearest :=
  if negb (_isVisibleOnPlot p (datum entity) (position entity) (selection entity)) then st
  else
    let '(primaryDist, secondaryDist) := distances p queryPoint entity in
    if lt primaryDist (minPrimaryDist st)
       || seq primaryDist (minPrimaryDist st) && lt secondaryDist (minSecondaryDist st)
    then {| closest := Some entity; minPrimaryDist := primaryDist;
            minSecondaryDist := secondaryDist |}
    else st.

Definition entityNearest (p : Plot) (super_entities : list Entity)
    (queryPoint : Point.t) : option Entity :=
  closest
    (foldl (nearestStep p queryPoint)
       {| closest := None; minPrimaryDist := PosInf; minSecondaryDist := PosInf |}
       (entities p super_entities)).

Definition _entitiesIntersecting (p : Plot) (super_entities : list Entity)
    (xValOrRange yValOrRange : number + Range.t) : list Entity :=
  filter (λ entity,
            Utils.intersectsBBox xValOrRange yValOrRange (getBBox (selection entity)) None
            = true)
    (entities p super_entities).

Definition entitiesAt (p : Plot) (super_entities : list Entity) (pt : Point.t)
    : list Entity :=
  _entitiesIntersecting p super_entities (inl (Point.x pt)) (inl (Point.y pt)).

(** [entitiesIn(bounds)] and [entitiesIn(xRange, yRange)] *)
Definition entitiesIn (p : Plot) (super_entities : list Entity)
    (args : Bounds.t + Range.t * Range.t) : list Entity :=
  let '(dataXRange, dataYRange) :=
    match args with
    | inl bounds =>
        (Range.mk (Point.x (Bounds.topLeft bounds)) (Point.x (Bounds.bottomRight bounds)),
         Range.mk (Point.y (Bounds.topLeft bounds)) (Point.y (Bounds.bottomRight bounds)))
    | inr (xRange, yRange) => (xRange, yRange)
    end in
  _entitiesIntersecting p super_entities (inr dataXRange) (inr dataYRange).

(** *** [_additionalPaint] *)

(** The attributes of the baseline [line]. *)
Record LineAttr : Type := { x1 : number; y1 : number; x2 : number; y2 : number }.

Definition baselineAttr (p : Plot) : LineAttr :=
  let scaledBaseline := Fin (scaledBaseline p) in
  {| x1 := if _isVertical p then Fin 0 else scaledBaseline;
     y1 := if _isVertical p then scaledBaseline else Fin 0;
     x2 := if _isVertical p then Fin (width p) else scaledBaseline;
     y2 := if _isVertical p then scaledBaseline else Fin (height p) |}.

(** *** [_drawLabel] and [_drawLabels] *)

Definition _LABEL_VERTICAL_PADDING : Q := 5.
Definition _LABEL_HORIZONTAL_PADDING : Q := 5.
Definition _hideBarsIfAnyAreTooWide : bool := true.

(** What the labels take from outside the plot: the formatted text of a
    datum ([this._labelFormatter(primaryAccessor(d, i, dataset)).toString()]),
    the measurer, and the contrast test on the fill colour of the bar. *)
Record LabelEnvironment : Type := {
  labelText : Datum → nat → Dataset → string;
  measure : string → Measurement.t;
  isDark : Datum → nat → Dataset → bool
}.

(** A label: the [g] appended to the label area, with its [translate(x, y)],
    its class, and the options and the box of [writer.write]. *)
Record Label : Type := {
  text : string;
  translateX : number;
  translateY : number;
  className : string;
  xAlign : string;
  yAlign : string;
  writeWidth : number;
  writeHeight : number
}.

(** The body of the [data.map] of [_drawLabel]: the label, when one is
    written, and [tooWide]. *)
Definition labelOf (p : Plot) (env : LabelEnvironment) (dataset : Dataset)
    (i : nat) (d : Datum) : option Label * bool :=
  let attrToProjector := _generateAttrToProjector p in
  let originalPositionFn := originalPositionFn p in
  let scaledBaseline := Fin (scaledBaseline p) in
  let text := labelText env d i dataset in
  let w := projectorOf attrToProjector "width" d i dataset in
  let h := projectorOf attrToProjector "height" d i dataset in
  let x := projectorOf attrToProjector "x" d i dataset in
  let y := projectorOf attrToProjector "y" d i dataset in
  let positive := le (originalPositionFn d i dataset) scaledBaseline in
  let measurement := measure env text in
  let dark := isDark env d i dataset in
  let primary := if _isVertical p then h else w in
  let primarySpace :=
    if _isVertical p then Measurement.height measurement
    else Measurement.width measurement in
  let secondaryAttrTextSpace :=
    if _isVertical p then Measurement.width measurement
    else Measurement.height measurement in
  let secondaryAttrAvailableSpace := if _isVertical p then w else h in
  let tooWide :=
    gt (add secondaryAttrTextSpace (Fin (2 * _LABEL_HORIZONTAL_PADDING)))
      secondaryAttrAvailableSpace in
  if le (Measurement.height measurement) h && le (Measurement.width measurement) w then
    let offset :=
      Math_min (div (sub primary primarySpace) (Fin 2)) (Fin _LABEL_VERTICAL_PADDING) in
    let offset := if negb positive then mul offset (Fin (-1)) else offset in
    let y := if _isVertical p then add y offset else y in
    let x := if _isVertical p then x else add x offset in
    let className := if dark then "dark-label" else "light-label" in
    let xAlign :=
      if _isVertical p then "center" else if positive then "left" else "right" in
    let yAlign :=
      if _isVertical p then (if positive then "top" else "bottom") else "center" in
    (Some {| text := text; translateX := x; translateY := y; className := className;
             xAlign := xAlign; yAlign := yAlign; writeWidth := w; writeHeight := h |},
     tooWide)
  else (None, tooWide).

(** [_drawLabel(data, dataset)]: the labels appended to the label area of
    the dataset and whether some label is too wide. *)
Definition _drawLabel (p : Plot) (env : LabelEnvironment) (data : list Datum)
    (dataset : Dataset) : list Label * bool :=
  let labelTooWide := imap (labelOf p env dataset) data in
  (omap fst labelTooWide, existsb snd labelTooWide).

(** The body of the [forEach] of [_drawLabels]; [||] does not draw the
    labels of a dataset once a label was too wide. *)
Definition drawLabelsStep (p : Plot) (env : LabelEnvironment)
    (st : list (list Label) * bool) (entry : Dataset * list Datum)
    : list (list Label) * bool :=
  let '(labelAreas, labelsTooWide) := st in
  if labelsTooWide then (labelAreas ++ [[]], true)
  else
    let '(labels, tooWide) := _drawLabel p env entry.2 entry.1 in
    (labelAreas ++ [labels], tooWide).

(** [_drawLabels()]: the content of the label areas, one per dataset, which
    are empty when the labels are drawn. *)
Definition _drawLabels (p : Plot) (env : LabelEnvironment) : list (list Label) :=
  let dataToDraw := _getDataToDraw p in
  let '(labelAreas, labelsTooWide) :=
    foldl (drawLabelsStep p env) ([], false) dataToDraw in
  if _hideBarsIfAnyAreTooWide && labelsTooWide then (λ _, []) <$> labelAreas
  else labelAreas.

(** *** The constructor and [baselineValue] *)

Definition set_baselineValue (p : Plot) (value : Q) : Plot :=
  {| _isVertical := _isVertical p; _baselineValue := value; x := x p; y := y p;
     _projectorsReady := _projectorsReady p; datasets := datasets p;
     width := width p; height := height p; _widthBinding := _widthBinding p;
     _attrBindings := _attrBindings p; _animate := _animate p;
     _dataChanged := _dataChanged p; renderRequests := renderRequests p |}.

Definition set_isVertical (p : Plot) (isVertical : bool) : Plot :=
  {| _isVertical := isVertical; _baselineValue := _baselineValue p; x := x p; y := y p;
     _projectorsReady := _projectorsReady p; datasets := datasets p;
     width := width p; height := height p; _widthBinding := _widthBinding p;
     _attrBindings := _attrBindings p; _animate := _animate p;
     _dataChanged := _dataChanged p; renderRequests := renderRequests p |}.

Definition set_widthBinding (p : Plot) (b : AttrBinding) : Plot :=
  {| _isVertical := _isVertical p; _baselineValue := _baselineValue p; x := x p; y := y p;
     _projectorsReady := _projectorsReady p; datasets := datasets p;
     width := width p; height := height p; _widthBinding := b;
     _attrBindings := _attrBindings p; _animate := _animate p;
     _dataChanged := _dataChanged p; renderRequests := renderRequests p |}.

(** [render()] is counted; the drawing itself is outside the model. *)
Definition render (p : Plot) : Plot :=
  {| _isVertical := _isVertical p; _baselineValue := _baselineValue p; x := x p; y := y p;
     _projectorsReady := _projectorsReady p; datasets := datasets p;
     width := width p; height := height p; _widthBinding := _widthBinding p;
     _attrBindings := _attrBindings p; _animate := _animate p;
     _dataChanged := _dataChanged p; renderRequests := S (renderRequests p) |}.

(** [baselineValue()] reads and [baselineValue(value)] sets; the padding
    exception [_updateValueScale] registers lives in the scale. *)
Definition baselineValue (p : Plot) (value : option Q) : Q + Plot :=
  match value with
  | None => inl (_baselineValue p)
  | Some value => inr (render (set_baselineValue p value))
  end.

(** [attr(attr, value)] belongs to the base class, which is not in the
    sources.  Of [attr("width", ...)] the binding is kept in
    [_widthBinding]; [super_attr attr] is what else a call with that
    attribute does to the plot (the library asks for a render). *)
Variable super_attr : string → Plot → Plot.

(** [new Bar(orientation)]; [this] is the plot [super()] made (the base
    class is not in the sources).  The fill colour is no geometric
    attribute: of [attr("fill", ...)] only what the base class does to the
    plot is kept. *)
Definition constructor (this : Plot) (orientation : option string) : completion Plot :=
  let orientation := default ORIENTATION_VERTICAL orientation in
  if bool_decide (orientation ≠ ORIENTATION_VERTICAL)
     && bool_decide (orientation ≠ ORIENTATION_HORIZONTAL) then
    Throw (orientation +:+ " is not a valid orientation for Plots.Bar")
  else
    let this := set_isVertical this (bool_decide (orientation = ORIENTATION_VERTICAL)) in
    let this := render (set_baselineValue this 0) in
    let this := super_attr "fill" this in
    let this := super_attr "width" (set_widthBinding this BarPixelWidth) in
    Return this.

End Plot.

Arguments renderRequests {Datum}.
Arguments set_baselineValue {Datum}.
Arguments set_isVertical {Datum}.
Arguments set_widthBinding {Datum}.
Arguments render {Datum}.
Arguments baselineValue {Datum}.
Arguments constructor {Datum}.
Arguments baselineAttr {Datum}.
Arguments labelText {Datum}.
Arguments measure {Datum}.
Arguments isDark {Datum}.
Arguments labelOf {Datum}.
Arguments _drawLabel {Datum}.
Arguments drawLabelsStep {Datum}.
Arguments _drawLabels {Datum}.
Arguments barAccessorValues {Datum}.
Arguments positionF {Datum}.
Arguments isRendered {Datum}.
Arguments rendered {Datum}.
Arguments accessor {Datum}.
Arguments scale {Datum}.
Arguments _isVertical {Datum}.
Arguments _baselineValue {Datum}.
Arguments x {Datum}.
Arguments y {Datum}.
Arguments _projectorsReady {Datum}.
Arguments datasets {Datum}.
Arguments width {Datum}.
Arguments height {Datum}.
Arguments _widthBinding {Datum}.
Arguments _attrBindings {Datum}.
Arguments _animate {Datum}.
Arguments _dataChanged {Datum}.
Arguments attrToProjector {Datum}.
Arguments animator {Datum}.
Arguments datum {Datum}.
Arguments index {Datum}.
Arguments dataset {Datum}.
Arguments position {Datum}.
Arguments selection {Datum}.
Arguments closest {Datum}.
Arguments minPrimaryDist {Datum}.
Arguments minSecondaryDist {Datum}.
Arguments barAccessorData {Datum}.
Arguments numberBarAccessorData {Datum}.
Arguments _getBarPixelWidth {Datum}.
Arguments _scaledAccessor {Datum}.
Arguments evalBinding {Datum}.
Arguments super_generateAttrToProjector {Datum}.
Arguments projectorOf {Datum}.
Arguments primaryScale {Datum}.
Arguments scaledBaseline {Datum}.
Arguments originalPositionFn {Datum}.
Arguments _generateAttrToProjector {Datum}.
Arguments positionAttr {Datum}.
Arguments dimensionAttr {Datum}.
Arguments _generateDrawSteps {Datum}.
Arguments filter_from {Datum}.
Arguments drawable {Datum}.
Arguments _getDataToDraw {Datum}.
Arguments _pixelPoint {Datum}.
Arguments set_position {Datum}.
Arguments movePosition {Datum}.
Arguments entities {Datum}.
Arguments _isVisibleOnPlot {Datum}.
Arguments distances {Datum}.
Arguments nearestStep {Datum}.
Arguments entityNearest {Datum}.
Arguments _entitiesIntersecting {Datum}.
Arguments entitiesAt {Datum}.
Arguments entitiesIn {Datum}.
Arguments BarPixelWidth {Datum}.
Arguments Accessor {Datum}.

End Bar.

(** ** [BarRenderer] *)

Module BarRenderer.

Section Renderer.
Variable Datum : Type.

Definition Projector : Type := Datum → nat → number.

Record t : Type := {
  _baselineValue : Q;
  _barAlignment : string;
  _animate : bool;
  (** [yScale.scale] *)
  yScale : Q → Q;
  (** [xScale.rangeType()], when the x scale has one, and [rangeBand()] *)
  xScale_rangeType : option string;
  xScale_rangeBand : Q;
  (** what [XYRenderer._generateAttrToProjector()] returns *)
  _projectors : gmap string Projector;
  (** [this.element != null] *)
  element : bool;
  (** how many times [_render()] ran *)
  renderCount : nat
}.

Definition projectorOf (attrToProjector : gmap string Projector) (attr : string)
    : Projector :=
  default (λ _ _, NaN) (attrToProjector !! attr).

(** The attribute map [_paint] hands to the selection. *)
Definition _paint_attrToProjector (r : t) : gmap string Projector :=
  let scaledBaseline := yScale r (_baselineValue r) in
  let attrToProjector := _projectors r in
  let xF := projectorOf attrToProjector "x" in
  let widthF := projectorOf attrToProjector "width" in
  let rangeType := default "points" (xScale_rangeType r) in
  let attrToProjector :=
    if bool_decide (rangeType = "points") then
      if bool_decide (_barAlignment r = "center") then
        <["x" := (λ d i, sub (xF d i) (div (widthF d i) (Fin 2))) : Projector]>
          attrToProjector
      else if bool_decide (_barAlignment r = "right") then
        <["x" := (λ d i, sub (xF d i) (widthF d i)) : Projector]> attrToProjector
      else attrToProjector
    else
      <["width" := (λ _ _, Fin (xScale_rangeBand r)) : Projector]> attrToProjector in
  let yFunction := projectorOf attrToProjector "y" in
  let attrToProjector :=
    <["y" := (λ d i,
        let originalY := yFunction d i in
        if gt originalY (Fin scaledBaseline) then Fin scaledBaseline else originalY)
      : Projector]> attrToProjector in
  let heightFunction : Projector := λ d i,
    abs (sub (Fin scaledBaseline) (yFunction d i)) in
  <["height" := heightFunction]> attrToProjector.

Definition set_barAlignment (r : t) (alignment : string) : t :=
  {| _baselineValue := _baselineValue r; _barAlignment := alignment;
     _animate := _animate r; yScale := yScale r;
     xScale_rangeType := xScale_rangeType r; xScale_rangeBand := xScale_rangeBand r;
     _projectors := _projectors r; element := element r;
     renderCount := renderCount r |}.

Definition set_baselineValue (r : t) (value : Q) : t :=
  {| _baselineValue := value; _barAlignment := _barAlignment r;
     _animate := _animate r; yScale := yScale r;
     xScale_rangeType := xScale_rangeType r; xScale_rangeBand := xScale_rangeBand r;
     _projectors := _projectors r; element := element r;
     renderCount := renderCount r |}.

(** [_render()] is counted; the drawing itself is outside the model. *)
Definition _render (r : t) : t :=
  {| _baselineValue := _baselineValue r; _barAlignment := _barAlignment r;
     _animate := _animate r; yScale := yScale r;
     xScale_rangeType := xScale_rangeType r; xScale_rangeBand := xScale_rangeBand r;
     _projectors := _projectors r; element := element r;
     renderCount := S (renderCount r) |}.

Definition baselineValue (r : t) (value : Q) : t :=
  let r := set_baselineValue r value in
  if element r then _render r else r.

(** [barAlignment(alignment)]: the outcome of the call and the renderer
    after it. *)
Definition barAlignment (r : t) (alignment : string) : completion unit * t :=
  let alignmentLC := toLowerCase alignment in
  if bool_decide (alignmentLC ≠ "left") && bool_decide (alignmentLC ≠ "center")
     && bool_decide (alignmentLC ≠ "right") then
    (Throw "unsupported bar alignment", r)
  else
    let r := set_barAlignment r alignmentLC in
    let r := if element r then _render r else r in
    (Return (), r).

(** *** [selectBar] and [deselectAll] *)

(** A bar of [dataSelection]: its datum, its bounding box and whether it is
    classed "selected". *)
Record RenderedBar : Type := {
  barDatum : Datum;
  bbox : SVGRect.t;
  selected : bool
}.

Definition classed_selected (select : bool) (bar : RenderedBar) : RenderedBar :=
  {| barDatum := barDatum bar; bbox := bbox bar; selected := select |}.

(** The test of [selectBar] on the bounding box of a bar. *)
Definition containsPoint (bbox : SVGRect.t) (x y : number) : bool :=
  le (SVGRect.x bbox) x && le x (add (SVGRect.x bbox) (SVGRect.width bbox))
  && le (SVGRect.y bbox) y && le y (add (SVGRect.y bbox) (SVGRect.height bbox)).

(** The [each] of [selectBar]: the bar found so far, by its place in the
    selection. *)
Definition selectStep (x y : number) (selectedBar : option nat) (entry : nat * RenderedBar)
    : option nat :=
  if containsPoint (bbox entry.2) x y then Some entry.1 else selectedBar.

(** [selectBar(x, y, select)]: the bar that is returned ([None] for [null])
    and the selection after the call. *)
Definition selectBar (dataSelection : list RenderedBar) (x y : number)
    (select : option bool) : option nat * list RenderedBar :=
  let select := default true select in
  let selectedBar := foldl (selectStep x y) None (imap pair dataSelection) in
  match selectedBar with
  | Some i => (Some i, alter (classed_selected select) i dataSelection)
  | None => (None, dataSelection)
  end.

Definition deselectAll (dataSelection : list RenderedBar) : list RenderedBar :=
  classed_selected false <$> dataSelection.

End Renderer.

Arguments _baselineValue {Datum}.
Arguments _barAlignment {Datum}.
Arguments _animate {Datum}.
Arguments yScale {Datum}.
Arguments xScale_rangeType {Datum}.
Arguments xScale_rangeBand {Datum}.
Arguments _projectors {Datum}.
Arguments element {Datum}.
Arguments renderCount {Datum}.
Arguments projectorOf {Datum}.
Arguments _paint_attrToProjector {Datum}.
Arguments set_barAlignment {Datum}.
Arguments set_baselineValue {Datum}.
Arguments _render {Datum}.
Arguments baselineValue {Datum}.
Arguments barAlignment {Datum}.
Arguments barDatum {Datum}.
Arguments bbox {Datum}.
Arguments selected {Datum}.
Arguments classed_selected {Datum}.
Arguments selectStep {Datum}.
Arguments selectBar {Datum}.
Arguments deselectAll {Datum}.

End BarRenderer.

(** ** [Components.Group] *)

Module Group.

Section Group.
(** Components are compared by identity. *)
Context {Component : Type} `{EqDecision Component}.

Record SpaceRequest : Type := { minWidth : Q; minHeight : Q }.

(** [c.requestedSpace(offeredWidth, offeredHeight)], [c.fixedWidth()] and
    [c.fixedHeight()] of a component. *)
Variable requestedSpaceOf : Component → Q → Q → SpaceRequest.
Variable fixedWidthOf : Component → bool.
Variable fixedHeightOf : Component → bool.

Record t : Type := {
  _components : list Component;
  (** how many times [redraw()] was requested *)
  redraws : nat
}.

(** [array.indexOf(c)], [None] for -1. *)
Fixpoint indexOf (l : list Component) (c : Component) : option nat :=
  match l with
  | [] => None
  | x :: rest => if decide (x = c) then Some 0%nat else S <$> indexOf rest c
  end.

Definition has (g : t) (component : Component) : bool :=
  match indexOf (_components g) component with
  | Some _ => true
  | None => false
  end.

(** [append(component)]; [None] is [null]. *)
Definition append (g : t) (component : option Component) : t :=
  match component with
  | Some c =>
      if negb (has g c) then
        {| _components := _components g ++ [c]; redraws := S (redraws g) |}
      else g
  | None => g
  end.

(** [new Group(components)] *)
Definition constructor (components : list (option Component)) : t :=
  foldl append {| _components := []; redraws := 0 |} components.

(** [_remove(component)]: the result and the group after the call. *)
Definition _remove (g : t) (component : Component) : bool * t :=
  match indexOf (_components g) component with
  | Some removeIndex =>
      (true, {| _components := delete removeIndex (_components g); redraws := redraws g |})
  | None => (false, g)
  end.

(** [components()], a copy of the array. *)
Definition components (g : t) : list Component := _components g.

Definition requestedSpace (g : t) (offeredWidth offeredHeight : Q) : SpaceRequest :=
  let requests := (λ c, requestedSpaceOf c offeredWidth offeredHeight) <$> _components g in
  {| minWidth := Utils.max (minWidth <$> requests) 0%Q;
     minHeight := Utils.max (minHeight <$> requests) 0%Q |}.

Definition fixedWidth (g : t) : bool := forallb fixedWidthOf (_components g).
Definition fixedHeight (g : t) : bool := forallb fixedHeightOf (_components g).

End Group.

End Group.

(** ** [Components.DragBoxLayer] *)

Module DragBoxLayer.

Record t : Type := {
  _detectionRadius : number;
  _resizable : bool;
  _hasCorners : bool;
  (** how many times [render()] was requested *)
  renderRequests : nat
}.

Definition set_detectionRadius (l : t) (r : number) : t :=
  {| _detectionRadius := r; _resizable := _resizable l; _hasCorners := _hasCorners l;
     renderRequests := renderRequests l |}.

Definition set_resizable (l : t) (canResize : bool) : t :=
  {| _detectionRadius := _detectionRadius l; _resizable := canResize;
     _hasCorners := _hasCorners l; renderRequests := renderRequests l |}.

(** [render()] is counted; the drawing itself is outside the model. *)
Definition render (l : t) : t :=
  {| _detectionRadius := _detectionRadius l; _resizable := _resizable l;
     _hasCorners := _hasCorners l; renderRequests := S (renderRequests l) |}.

(** The field initialisers of the class. *)
Definition constructor : t :=
  {| _detectionRadius := Fin 3; _resizable := false; _hasCorners := true;
     renderRequests := 0 |}.

(** [detectionRadius()] reads ([inl]) and [detectionRadius(r)] sets
    ([inr tt], the layer itself being the second component). *)
Definition detectionRadius (l : t) (r : option number)
    : completion (number + unit) * t :=
  match r with
  | None => (Return (inl (_detectionRadius l)), l)
  | Some r =>
      if lt r (Fin 0) then (Throw "detection radius cannot be negative.", l)
      else
        let l := set_detectionRadius l r in
        let l := render l in
        (Return (inr ()), l)
  end.

(** [resizable()] and [resizable(canResize)] *)
Definition resizable (l : t) (canResize : option bool) : (bool + unit) * t :=
  match canResize with
  | None => (inl (_resizable l), l)
  | Some canResize => (inr (), set_resizable l canResize)
  end.

Record _EdgeIndicator : Type := {
  top : bool; bottom : bool; left : bool; right : bool
}.

Definition _getResizingEdges (l : t) (bounds : Bounds.t) (p : Point.t) : _EdgeIndicator :=
  let edges := {| top := false; bottom := false; left := false; right := false |} in
  if negb (_resizable l) then edges
  else
    let t := Point.y (Bounds.topLeft bounds) in
    let b := Point.y (Bounds.bottomRight bounds) in
    let l' := Point.x (Bounds.topLeft bounds) in
    let r := Point.x (Bounds.bottomRight bounds) in
    let rad := _detectionRadius l in
    let edges :=
      if le (sub l' rad) (Point.x p) && le (Point.x p) (add r rad) then
        {| top := le (sub t rad) (Point.y p) && le (Point.y p) (add t rad);
           bottom := le (sub b rad) (Point.y p) && le (Point.y p) (add b rad);
           left := left edges; right := right edges |}
      else edges in
    if le (sub t rad) (Point.y p) && le (Point.y p) (add b rad) then
      {| top := top edges; bottom := bottom edges;
         left := le (sub l' rad) (Point.x p) && le (Point.x p) (add l' rad);
         right := le (sub r rad) (Point.x p) && le (Point.x p) (add r rad) |}
    else edges.

(** *** The drag callbacks of [_setUpCallbacks] *)

Section Drag.
(** What [bounds(newBounds)] of the [SelectionBoxLayer] base class stores
    for the bounds it is given (the base class is not in the sources). *)
Variable storeBounds : Bounds.t → Bounds.t.

(** The layer with the box of its base class. *)
Record Box : Type := {
  layer : t;
  boxBounds : Bounds.t;
  boxVisible : bool
}.

(** The variables the three callbacks share. *)
Record Shared : Type := {
  resizingEdges : _EdgeIndicator;
  topLeft : Point.t;
  bottomRight : Point.t;
  startedNewBox : bool
}.

Inductive Callback : Type := OnDragStart | OnDrag | OnDragEnd.

(** [shared] is [None] until the first drag starts; [called] lists the
    callbacks of the three callback sets that were called, with the bounds
    they were given. *)
Record Dragging : Type := {
  box : Box;
  shared : option Shared;
  called : list (Callback * Bounds.t)
}.

Definition set_bounds (b : Box) (newBounds : Bounds.t) : Box :=
  {| layer := layer b; boxBounds := storeBounds newBounds; boxVisible := boxVisible b |}.

Definition set_boxVisible (b : Box) (show : bool) : Box :=
  {| layer := layer b; boxBounds := boxBounds b; boxVisible := show |}.

Definition onDragStart (st : Dragging) (s : Point.t) : Dragging :=
  let this := box st in
  let resizingEdges := _getResizingEdges (layer this) (boxBounds this) s in
  let '(this, startedNewBox) :=
    if negb (boxVisible this)
       || (negb (top resizingEdges) && negb (bottom resizingEdges)
           && negb (left resizingEdges) && negb (right resizingEdges))
    then (set_bounds this (Bounds.mk s s), true)
    else (this, false) in
  let this := set_boxVisible this true in
  let bounds := boxBounds this in
  let topLeft := Point.mk (Point.x (Bounds.topLeft bounds)) (Point.y (Bounds.topLeft bounds)) in
  let bottomRight :=
    Point.mk (Point.x (Bounds.bottomRight bounds)) (Point.y (Bounds.bottomRight bounds)) in
  {| box := this;
     shared := Some {| resizingEdges := resizingEdges; topLeft := topLeft;
                       bottomRight := bottomRight; startedNewBox := startedNewBox |};
     called := called st ++ [(OnDragStart, bounds)] |}.

(** Before the first drag start the shared variables are [undefined], and
    reading [resizingEdges.bottom] throws. *)
Definition onDrag (st : Dragging) (s e : Point.t) : completion unit * Dragging :=
  match shared st with
  | None => (Throw "TypeError: Cannot read property 'bottom' of undefined", st)
  | Some sh =>
      let topLeft := topLeft sh in
      let bottomRight := bottomRight sh in
      let '(topLeft, bottomRight) :=
        if startedNewBox sh then (topLeft, Point.mk (Point.x e) (Point.y e))
        else
          let '(topLeft, bottomRight) :=
            if bottom (resizingEdges sh) then
              (topLeft, Point.mk (Point.x bottomRight) (Point.y e))
            else if top (resizingEdges sh) then
              (Point.mk (Point.x topLeft) (Point.y e), bottomRight)
            else (topLeft, bottomRight) in
          if right (resizingEdges sh) then
            (topLeft, Point.mk (Point.x e) (Point.y bottomRight))
          else if left (resizingEdges sh) then
            (Point.mk (Point.x e) (Point.y topLeft), bottomRight)
          else (topLeft, bottomRight) in
      let this := set_bounds (box st) (Bounds.mk topLeft bottomRight) in
      (Return (),
       {| box := this;
          shared := Some {| resizingEdges := resizingEdges sh; topLeft := topLeft;
                            bottomRight := bottomRight;
                            startedNewBox := startedNewBox sh |};
          called := called st ++ [(OnDrag, boxBounds this)] |})
  end.

Definition onDragEnd (st : Dragging) (s e : Point.t) : Dragging :=
  let startedNewBox :=
    match shared st with
    | Some sh => startedNewBox sh
    | None => false
    end in
  let this :=
    if startedNewBox && seq (Point.x s) (Point.x e) && seq (Point.y s) (Point.y e)
    then set_boxVisible (box st) false
    else box st in
  {| box := this; shared := shared st;
     called := called st ++ [(OnDragEnd, boxBounds this)] |}.

End Drag.

End DragBoxLayer.

(** ** [Plot.StackedArea] *)

Module StackedArea.

Section Plot.
Variable Datum : Type.

(** What an accessor returns, with its [toString()] and its numeric
    value [+v]. *)
Variable Value : Type.
Variable toString : Value → string.
Variable toNumber : Value → Q.

(** [v == null]: the value is [null] or [undefined], and [v.toString()]
    throws a [TypeError]; [toString] is the string of every other value. *)
Variable isNull : Value → bool.

Record Projection : Type := { accessor : Datum → Value }.

Record DatasetDrawerKey : Type := { dataset : list Datum }.

Record t : Type := {
  _isVertical : bool;
  _projectors : gmap string Projection;
  _datasetKeysInOrder : list string;
  _key2DatasetDrawerKey : gmap string DatasetDrawerKey;
  (** the offsets of the last resolution, one map per dataset, bottom
      first *)
  stackOffsets : list (gmap string Q);
  (** what [_Util.Methods.warn] has written *)
  console : list string
}.

(** Modelled from the spec: [_Util.Methods.warn] is not in the sources; the
    inconsistency is "surfaced as a warning", which is recorded here. *)
Definition warn (msg : string) (p : t) : t :=
  {| _isVertical := _isVertical p; _projectors := _projectors p;
     _datasetKeysInOrder := _datasetKeysInOrder p;
     _key2DatasetDrawerKey := _key2DatasetDrawerKey p;
     stackOffsets := stackOffsets p; console := console p ++ [msg] |}.

Definition set_stackOffsets (p : t) (offsets : list (gmap string Q)) : t :=
  {| _isVertical := _isVertical p; _projectors := _projectors p;
     _datasetKeysInOrder := _datasetKeysInOrder p;
     _key2DatasetDrawerKey := _key2DatasetDrawerKey p;
     stackOffsets := offsets; console := console p |}.

(** The datasets of the plot, bottom first. *)
Definition datasetsInStackOrder (p : t) : list (list Datum) :=
  omap (λ datasetKey, dataset <$> _key2DatasetDrawerKey p !! datasetKey)
    (_datasetKeysInOrder p).

Definition keyProjection (p : t) : option Projection :=
  if _isVertical p then _projectors p !! "x" else _projectors p !! "y".

Definition valueProjection (p : t) : option Projection :=
  if _isVertical p then _projectors p !! "y" else _projectors p !! "x".

(** Modelled from the spec: [_getDomainKeys] of the stacked base class is
    not in the sources; the domain keys of a stack group are "the union of
    domain keys across all datasets". *)
Definition _getDomainKeys (p : t) : list string :=
  match keyProjection p with
  | None => []
  | Some projection =>
      remove_dups
        ((λ datum, toString (accessor projection datum))
           <$> concat (datasetsInStackOrder p))
  end.

(** Modelled from the spec: the resolution of the stacked base class
    ([super._updateStackOffsets]) is not in the sources;
    "resolveOffsets(datasetsInStackOrder, domainKeyAccessor,
    valueAccessor)": "for each subsequent dataset, accumulate a running
    per-key total (initialized to zero for any key not present in a given
    dataset) and record the running total as that dataset's offset for the
    key". *)
Definition runningTotal (running : gmap string Q) (domainKey : string) : Q :=
  default 0%Q (running !! domainKey).

(** Modelled from the spec: "accumulate a running per-key total", over the
    data of one dataset. *)
Definition accumulate (domainKeyAccessor : Datum → string) (valueAccessor : Datum → Q)
    (running : gmap string Q) (data : list Datum) : gmap string Q :=
  foldl (λ running datum,
           <[domainKeyAccessor datum :=
               (runningTotal running (domainKeyAccessor datum) + valueAccessor datum)%Q]>
             running)
    running data.

(** Modelled from the spec: "record the running total as that dataset's
    offset for the key", dataset after dataset from the bottom. *)
Fixpoint resolveFrom (domainKeys : list string) (domainKeyAccessor : Datum → string)
    (valueAccessor : Datum → Q) (running : gmap string Q)
    (datasetsInStackOrder : list (list Datum)) : list (gmap string Q) :=
  match datasetsInStackOrder with
  | [] => []
  | data :: above =>
      list_to_map ((λ domainKey, (domainKey, runningTotal running domainKey))
                     <$> domainKeys)
      :: resolveFrom domainKeys domainKeyAccessor valueAccessor
           (accumulate domainKeyAccessor valueAccessor running data) above
  end.

(** Modelled from the spec: "resolveOffsets(datasetsInStackOrder,
    domainKeyAccessor, valueAccessor) -> mapping from (dataset, domainKey) to
    offset", the running totals starting at zero. *)
Definition resolveOffsets (domainKeys : list string)
    (datasetsInStackOrder : list (list Datum))
    (domainKeyAccessor : Datum → string) (valueAccessor : Datum → Q)
    : list (gmap string Q) :=
  resolveFrom domainKeys domainKeyAccessor valueAccessor ∅ datasetsInStackOrder.

(** Modelled from the spec: [super._updateStackOffsets()] resolves the offsets
    of the plot's datasets with its key and value accessors. *)
Definition super_updateStackOffsets (p : t) : t :=
  match keyProjection p, valueProjection p with
  | Some key, Some value =>
      set_stackOffsets p
        (resolveOffsets (_getDomainKeys p) (datasetsInStackOrder p)
           (λ datum, toString (accessor key datum))
           (λ datum, toNumber (accessor value datum)))
  | _, _ => p
  end.

Definition warning (datasetKey : string) : string :=
  "dataset " +:+ datasetKey
  +:+ " does not contain all domain keys.  Plot may have unintended behavior.".

(** The body of the [forEach] of [_updateStackOffsets]; reading
    [.dataset] of a key that is not registered is a [TypeError], and so is
    [keyAccessor(datum).toString()] for a datum whose key is [null] or
    [undefined]. *)
Definition checkDataset (domainKeys : list string) (keyAccessor : Datum → Value)
    (st : completion unit * t) (datasetKey : string) : completion unit * t :=
  match st with
  | (Throw m, p) => (Throw m, p)
  | (Return _, p) =>
      match _key2DatasetDrawerKey p !! datasetKey with
      | None => (Throw "TypeError: Cannot read property 'dataset' of undefined", p)
      | Some entry =>
          let dataset := dataset entry in
          if existsb (λ datum, isNull (keyAccessor datum)) dataset then
            (Throw "TypeError: Cannot read property 'toString' of undefined", p)
          else
          let datasetDomainKeys := (λ datum, toString (keyAccessor datum)) <$> dataset in
          if existsb (λ domainKey, bool_decide (domainKey ∉ datasetDomainKeys)) domainKeys
          then (Return (), warn (warning datasetKey) p)
          else (Return (), p)
      end
  end.

(** A registered dataset has no datum for some domain key. *)
Definition lacksKeys (registry : gmap string DatasetDrawerKey)
    (keyAccessor : Datum → Value) (domainKeys : list string) (datasetKey : string)
    : Prop :=
  match registry !! datasetKey with
  | Some entry =>
      Exists (λ domainKey,
                Forall (λ datum, toString (keyAccessor datum) ≠ domainKey) (dataset entry))
        domainKeys
  | None => False
  end.

#[global] Instance lacksKeys_dec registry keyAccessor domainKeys datasetKey :
  Decision (lacksKeys registry keyAccessor domainKeys datasetKey).
Proof. unfold lacksKeys. destruct (registry !! datasetKey); apply _. Defined.

Definition lacksDomainKeys (p : t) (datasetKey : string) : Prop :=
  match keyProjection p with
  | Some projection =>
      lacksKeys (_key2DatasetDrawerKey p) (accessor projection) (_getDomainKeys p)
        datasetKey
  | None => False
  end.

#[global] Instance lacksDomainKeys_dec (p : t) (datasetKey : string) :
  Decision (lacksDomainKeys p datasetKey).
Proof. unfold lacksDomainKeys. destruct (keyProjection p); apply _. Defined.

(** [_updateStackOffsets()]: the outcome of the call and the plot after
    it. *)
Definition _updateStackOffsets (p : t) : completion unit * t :=
  let domainKeys := _getDomainKeys p in
  match keyProjection p with
  | None => (Throw "TypeError: Cannot read property 'accessor' of undefined", p)
  | Some projection =>
      let keyAccessor := accessor projection in
      match foldl (checkDataset domainKeys keyAccessor) (Return (), p)
              (_datasetKeysInOrder p) with
      | (Throw m, p) => (Throw m, p)
      | (Return _, p) => (Return (), super_updateStackOffsets p)
      end
  end.

End Plot.

Arguments accessor {Datum Value}.
Arguments dataset {Datum}.
Arguments _isVertical {Datum Value}.
Arguments _projectors {Datum Value}.
Arguments _datasetKeysInOrder {Datum Value}.
Arguments _key2DatasetDrawerKey {Datum Value}.
Arguments stackOffsets {Datum Value}.
Arguments console {Datum Value}.
Arguments warn {Datum Value}.
Arguments set_stackOffsets {Datum Value}.
Arguments datasetsInStackOrder {Datum Value}.
Arguments keyProjection {Datum Value}.
Arguments valueProjection {Datum Value}.
Arguments _getDomainKeys {Datum Value}.
Arguments accumulate {Datum}.
Arguments resolveFrom {Datum}.
Arguments resolveOffsets {Datum}.
Arguments super_updateStackOffsets {Datum Value}.
Arguments checkDataset {Datum Value}.
Arguments _updateStackOffsets {Datum Value}.
Arguments lacksDomainKeys {Datum Value}.
Arguments lacksKeys {Datum Value}.
Arguments lacksKeys_dec {Datum Value}.
Arguments lacksDomainKeys_dec {Datum Value}.

End StackedArea.

(** ** The claims of the specification, in its own words *)

Module Spec.

(** Lexicographic order on [(primaryDistance, secondaryDistance)]. *)
Definition lexltb (a b : number * number) : bool :=
  lt a.1 b.1 || seq a.1 b.1 && lt a.2 b.2.

(** Section 4.5: the distance along one axis is "0 if the query point falls
    within the mark's ... span" (within the half-pixel tolerance), the
    distance to the entity's position otherwise. *)
Definition spanDistance (query spanStart spanLength position : number) : number :=
  if ge query (sub spanStart (Fin (1 # 2)))
     && le query (add (add spanStart spanLength) (Fin (1 # 2)))
  then Fin 0
  else abs (sub query position).

Section Nearest.
Context {Datum : Type}.

(** [primaryIsX] says which pixel axis is the primary one. *)
Definition distancePair (primaryIsX : bool) (queryPoint : Point.t)
    (entity : Bar.Entity Datum) : number * number :=
  let bbox := Bar.selection entity in
  let alongX :=
    spanDistance (Point.x queryPoint) (SVGRect.x bbox) (SVGRect.width bbox)
      (Point.x (Bar.position entity)) in
  let alongY :=
    spanDistance (Point.y queryPoint) (SVGRect.y bbox) (SVGRect.height bbox)
      (Point.y (Bar.position entity)) in
  if primaryIsX then (alongX, alongY) else (alongY, alongX).

Definition finitePoint (pt : Point.t) : bool :=
  isFinite (Point.x pt) && isFinite (Point.y pt).

Definition finiteRect (r : SVGRect.t) : bool :=
  isFinite (SVGRect.x r) && isFinite (SVGRect.y r)
  && isFinite (SVGRect.width r) && isFinite (SVGRect.height r).

Definition finiteEntity (entity : Bar.Entity Datum) : bool :=
  finitePoint (Bar.position entity) && finiteRect (Bar.selection entity).
End Nearest.


(** Section 4.2, continuous scale: the adjacent pairwise pixel gaps of the
    sorted distinct values, the minimum gap (or 0.4 of the extent), the two
    clamps, the shrink ratio. *)
Fixpoint adjacentGaps (thicknessScale : Q → Q) (sortedValues : list Q) : list Q :=
  match sortedValues with
  | v :: (w :: _) as rest =>
      Qabs (thicknessScale w - thicknessScale v) :: adjacentGaps thicknessScale rest
  | _ => []
  end.

Fixpoint smallest (first : Q) (others : list Q) : Q :=
  match others with
  | [] => first
  | v :: rest => Qmin first (smallest v rest)
  end.

Fixpoint largest (first : Q) (others : list Q) : Q :=
  match others with
  | [] => first
  | v :: rest => Qmax first (largest v rest)
  end.

Definition candidateWidth (thicknessScale : Q → Q) (distinctDomainValues : list Q)
    (availableExtentPixels : Q) : Q :=
  match adjacentGaps thicknessScale distinctDomainValues with
  | [] => (availableExtentPixels * (4 # 10))%Q
  | gap :: gaps => smallest gap gaps
  end.

Definition clampAtMinimum (scaled : list Q) (candidate : Q) : Q :=
  match scaled with
  | [] => candidate
  | s :: rest =>
      let m := smallest s rest in
      if Qlt_le_dec 0 m then Qmin candidate (2 * m) else candidate
  end.

Definition clampAtMaximum (scaled : list Q) (availableExtentPixels candidate : Q) : Q :=
  match scaled with
  | [] => candidate
  | s :: rest =>
      let m := largest s rest in
      if Qlt_le_dec m availableExtentPixels
      then Qmin candidate (2 * (availableExtentPixels - m)) else candidate
  end.

(** Section 8, baseline invariant: a mark of the given offset and length
    spans exactly from the scaled baseline to the raw scaled value. *)
Definition spansFromBaseline (scaledBaseline rawPrimary primaryOffset length : Q) : Prop :=
  (length == Qabs (scaledBaseline - rawPrimary))%Q
  ∧ primaryOffset = (if Utils.Qltb scaledBaseline rawPrimary then scaledBaseline
                     else rawPrimary)
  ∧ (Qmin primaryOffset (primaryOffset + length) == Qmin scaledBaseline rawPrimary)%Q
  ∧ (Qmax primaryOffset (primaryOffset + length) == Qmax scaledBaseline rawPrimary)%Q
  ∧ (0 <= length)%Q.

(** Section 4.5: a bounding box, widened by the tolerance on every side,
    overlaps the rectangle of the two ranges (a point is the rectangle of two
    one-point ranges). *)
Definition overlapsWithin (tolerance xMin xMax yMin yMax : Q)
    (boxX boxY boxWidth boxHeight : Q) : Prop :=
  (xMin - tolerance <= boxX + boxWidth ∧ boxX <= xMax + tolerance
   ∧ yMin - tolerance <= boxY + boxHeight ∧ boxY <= yMax + tolerance)%Q.

(** Section 4.1, edge cases: the four projected attributes are finite
    numbers. *)
Definition allFinite (x y width height : number) : Prop :=
  ∃ qx qy qw qh : Q, x = Fin qx ∧ y = Fin qy ∧ width = Fin qw ∧ height = Fin qh.

Definition solveWidth (thicknessScale : Q → Q) (distinctDomainValues : list Q)
    (availableExtentPixels shrinkRatio : Q) : Q :=
  let scaled := thicknessScale <$> distinctDomainValues in
  (clampAtMaximum scaled availableExtentPixels
     (clampAtMinimum scaled
        (candidateWidth thicknessScale distinctDomainValues availableExtentPixels))
   * shrinkRatio)%Q.

End Spec.

(** ** Concrete plots *)

Module Examples.

(** A datum is an x value with a y value, which may be missing. *)
Definition Datum : Type := (Q * option Q)%type.

Definition linear (slope intercept : Q) : Bar.Scale :=
  Bar.Quantitative (λ v, slope * v + intercept)%Q.

Definition constant (pixel : Q) : Bar.Scale := Bar.Quantitative (λ _, pixel).

Definition plot (isVertical : bool) (baselineValue : Q) (xScale yScale : Bar.Scale)
    (datasets : list (list Datum)) (width height : Q) (animate dataChanged : bool)
    : Bar.Plot Datum :=
  {| Bar._isVertical := isVertical;
     Bar._baselineValue := baselineValue;
     Bar.x := {| Bar.accessor := λ d _ _, Some d.1; Bar.scale := xScale |};
     Bar.y := {| Bar.accessor := λ d _ _, d.2; Bar.scale := yScale |};
     Bar._projectorsReady := true;
     Bar.datasets := datasets;
     Bar.width := width;
     Bar.height := height;
     Bar._widthBinding := Bar.BarPixelWidth;
     Bar._attrBindings := ∅;
     Bar._animate := animate;
     Bar._dataChanged := dataChanged;
     Bar.renderRequests := 0 |}.

(** The scenario of section 8: three data points, baseline 0, vertical
    orientation, the domain [1,3] on [0,100] and the values [-3,5] on
    [100,0]. *)
Definition scenarioData : list Datum :=
  [(1%Q, Some 5%Q); (2%Q, Some (-3)%Q); (3%Q, Some 0%Q)].

Definition scenario : Bar.Plot Datum :=
  plot true 0%Q (linear 50 (-50)) (linear (-25 # 2) (125 # 2)) [scenarioData]
    100%Q 100%Q false false.

(** The scenario with the second value missing. *)
Definition gappyData : list Datum :=
  [(1%Q, Some 5%Q); (2%Q, None); (3%Q, Some 0%Q)].

Definition gappy : Bar.Plot Datum :=
  plot true 0%Q (linear 50 (-50)) (linear (-25 # 2) (125 # 2)) [gappyData]
    100%Q 100%Q false false.

(** A bar shorter than a pixel: pixels are the values themselves, the
    baseline is at 10.7 and the one value at 10.2. *)
Definition subpixelDatum : Datum := (1%Q, Some (102 # 10)).

Definition subpixel : Bar.Plot Datum :=
  plot true (107 # 10) (linear 1 0) (linear 1 0) [[subpixelDatum]] 100%Q 100%Q false false.

Definition subpixelEntity : Bar.Entity Datum :=
  Bar.rendered subpixel subpixelDatum 0 [subpixelDatum].

(** The first bar of the scenario, as an entity. *)
Definition scenarioEntity : Bar.Entity Datum :=
  Bar.rendered scenario (1%Q, Some 5%Q) 0 scenarioData.

(** Two overlapping bars of width 20 on pixel scales, the baseline at
    pixel 100: bar A is centred at x = 10 and reaches up to y = 80, bar B is
    centred at x = 14 and reaches up to y = 40. *)
Definition identity : Bar.Scale := Bar.Quantitative (λ v, v).

Definition barA : Datum := (10%Q, Some 80%Q).
Definition barB : Datum := (14%Q, Some 40%Q).

Definition overlapping : Bar.Plot Datum :=
  {| Bar._isVertical := true;
     Bar._baselineValue := 100%Q;
     Bar.x := {| Bar.accessor := λ d _ _, Some d.1; Bar.scale := identity |};
     Bar.y := {| Bar.accessor := λ d _ _, d.2; Bar.scale := identity |};
     Bar._projectorsReady := true;
     Bar.datasets := [[barA; barB]];
     Bar.width := 100%Q;
     Bar.height := 100%Q;
     Bar._widthBinding := Bar.Accessor (λ _ _ _, Fin 20);
     Bar._attrBindings := ∅;
     Bar._animate := false;
     Bar._dataChanged := false;
     Bar.renderRequests := 0 |}.

Definition entityA : Bar.Entity Datum := Bar.rendered overlapping barA 0 [barA; barB].
Definition entityB : Bar.Entity Datum := Bar.rendered overlapping barB 1 [barA; barB].

(** Two distinct domain values on a scale that sends every value to pixel
    50 (a scale whose domain has collapsed). *)
Definition degenerate : Bar.Plot Datum :=
  plot true 0%Q (constant 50) (linear 1 0) [[(1%Q, Some 5%Q); (2%Q, Some 3%Q)]]
    100%Q 100%Q false false.

(** A renderer on the y values of the scenario. *)
Definition renderer : BarRenderer.t Datum :=
  {| BarRenderer._baselineValue := 0%Q;
     BarRenderer._barAlignment := "left";
     BarRenderer._animate := true;
     BarRenderer.yScale := (λ v, (-25 # 2) * v + (125 # 2))%Q;
     BarRenderer.xScale_rangeType := None;
     BarRenderer.xScale_rangeBand := 0%Q;
     BarRenderer._projectors :=
       {[ "x" := (λ d _, Fin (50 * d.1 - 50)) : BarRenderer.Projector Datum;
          "y" := (λ d _, from_option (λ v, Fin ((-25 # 2) * v + (125 # 2))) NaN d.2)
            : BarRenderer.Projector Datum;
          "width" := (λ _ _, Fin 10) : BarRenderer.Projector Datum ]};
     BarRenderer.element := true;
     BarRenderer.renderCount := 0 |}.

(** The stack group of section 8: the bottom dataset has no datum for the
    key "c" of the top one.  A datum is a key with a value, and an accessor
    returns the key or the value. *)
Definition StackDatum : Type := (string * Q)%type.
Definition StackValue : Type := (string + Q)%type.

Definition toString (v : StackValue) : string :=
  match v with inl key => key | inr _ => "" end.

Definition toNumber (v : StackValue) : Q :=
  match v with inl _ => 0%Q | inr q => q end.

(** A key or a value of these data is never [null]. *)
Definition isNull (v : StackValue) : bool := false.

Definition byKey : StackedArea.Projection StackDatum StackValue :=
  {| StackedArea.accessor := λ d, inl d.1 |}.

Definition byValue : StackedArea.Projection StackDatum StackValue :=
  {| StackedArea.accessor := λ d, inr d.2 |}.

Definition bottomData : list StackDatum := [("a", 1%Q); ("b", 2%Q)].
Definition topData : list StackDatum := [("a", 3%Q); ("b", 4%Q); ("c", 5%Q)].

Definition stacked : StackedArea.t StackDatum StackValue :=
  {| StackedArea._isVertical := true;
     StackedArea._projectors := {[ "x" := byKey; "y" := byValue ]};
     StackedArea._datasetKeysInOrder := ["_0"; "_1"];
     StackedArea._key2DatasetDrawerKey :=
       {[ "_0" := {| StackedArea.dataset := bottomData |};
          "_1" := {| StackedArea.dataset := topData |} ]};
     StackedArea.stackOffsets := [];
     StackedArea.console := [] |}.

(** The scenario on a scale that keeps the three bars away from the sides
    of the plot: the values 1, 2 and 3 are at the pixels 25, 50 and 75. *)
Definition inset : Bar.Plot Datum :=
  plot true 0%Q (linear 25 0) (linear (-25 # 2) (125 # 2)) [scenarioData]
    100%Q 100%Q false false.

(** The domain values of the scenario in another order, over two datasets
    and with the value 1 twice. *)
Definition shuffled : Bar.Plot Datum :=
  plot true 0%Q (linear 50 (-50)) (linear (-25 # 2) (125 # 2))
    [[(3%Q, Some 0%Q); (1%Q, Some 5%Q)]; [(2%Q, Some (-3)%Q); (1%Q, Some 1%Q)]]
    100%Q 100%Q false false.

(** The scenario while new data are animated in. *)
Definition animated : Bar.Plot Datum :=
  plot true 0%Q (linear 50 (-50)) (linear (-25 # 2) (125 # 2)) [scenarioData]
    100%Q 100%Q true true.

(** Labels whose text is 8 pixels wide and 10 pixels high. *)
Definition labels : Bar.LabelEnvironment Datum :=
  {| Bar.labelText := λ _ _ _, "5";
     Bar.measure := λ _, Measurement.mk (Fin 8) (Fin 10);
     Bar.isDark := λ _ _ _, false |}.

(** A group of two components, which are named by strings. *)
Definition group : Group.t (Component := string) :=
  {| Group._components := ["axis"; "plot"]; Group.redraws := 2 |}.

(** A component asks for half of the offered width and all of the offered
    height. *)
Definition halfWidth (c : string) (offeredWidth offeredHeight : Q) : Group.SpaceRequest :=
  {| Group.minWidth := offeredWidth / 2; Group.minHeight := offeredHeight |}.

(** A resizable layer whose box, from (10, 10) to (50, 40), is shown, and
    the same layer with the box hidden; no drag has started. *)
Definition resizableLayer : DragBoxLayer.t :=
  {| DragBoxLayer._detectionRadius := Fin 3; DragBoxLayer._resizable := true;
     DragBoxLayer._hasCorners := true; DragBoxLayer.renderRequests := 0 |}.

Definition boxBounds : Bounds.t :=
  Bounds.mk (Point.mk (Fin 10) (Fin 10)) (Point.mk (Fin 50) (Fin 40)).

Definition shownBox : DragBoxLayer.Dragging :=
  {| DragBoxLayer.box :=
       {| DragBoxLayer.layer := resizableLayer; DragBoxLayer.boxBounds := boxBounds;
          DragBoxLayer.boxVisible := true |};
     DragBoxLayer.shared := None;
     DragBoxLayer.called := [] |}.

Definition hiddenBox : DragBoxLayer.Dragging :=
  {| DragBoxLayer.box :=
       {| DragBoxLayer.layer := resizableLayer; DragBoxLayer.boxBounds := boxBounds;
          DragBoxLayer.boxVisible := false |};
     DragBoxLayer.shared := None;
     DragBoxLayer.called := [] |}.








(** The stack group with a dataset key between the two that is not
    registered. *)
Definition unregistered : StackedArea.t StackDatum StackValue :=
  {| StackedArea._isVertical := true;
     StackedArea._projectors := {[ "x" := byKey; "y" := byValue ]};
     StackedArea._datasetKeysInOrder := ["_0"; "_2"; "_1"];
     StackedArea._key2DatasetDrawerKey :=
       {[ "_0" := {| StackedArea.dataset := bottomData |};
          "_1" := {| StackedArea.dataset := topData |} ]};
     StackedArea.stackOffsets := [];
     StackedArea.console := [] |}.

End Examples.

(** * Properties *)

(** ** Comparisons of finite numbers *)

Lemma gt_Fin (a b : Q) : gt (Fin a) (Fin b) = true ↔ (b < a)%Q.
Proof.
  unfold gt; simpl. rewrite Qgt_alt. destruct (a ?= b)%Q; intuition congruence.
Qed.

Lemma lt_Fin (a b : Q) : lt (Fin a) (Fin b) = true ↔ (a < b)%Q.
Proof.
  unfold lt; simpl. rewrite Qlt_alt. destruct (a ?= b)%Q; intuition congruence.
Qed.

Lemma le_Fin (a b : Q) : le (Fin a) (Fin b) = true ↔ (a <= b)%Q.
Proof.
  unfold le; simpl. rewrite Qle_alt. destruct (a ?= b)%Q; intuition congruence.
Qed.

Lemma ge_Fin (a b : Q) : ge (Fin a) (Fin b) = true ↔ (b <= a)%Q.
Proof.
  unfold ge; simpl. rewrite Qge_alt. destruct (a ?= b)%Q; intuition congruence.
Qed.

Lemma seq_Fin (a b : Q) : seq (Fin a) (Fin b) = true ↔ (a == b)%Q.
Proof.
  unfold seq; simpl. rewrite Qeq_alt. destruct (a ?= b)%Q; intuition congruence.
Qed.

Lemma Qltb_lt (a b : Q) : Utils.Qltb a b = true ↔ (a < b)%Q.
Proof.
  unfold Utils.Qltb. rewrite negb_true_iff, <- not_true_iff_false, Qle_bool_iff.
  split; [apply Qnot_le_lt | apply Qlt_not_le].
Qed.

Lemma spansFromBaseline_intro (sb r : Q) :
  Spec.spansFromBaseline sb r (if Utils.Qltb sb r then sb else r) (Qabs (sb + - r)).
Proof.
  unfold Spec.spansFromBaseline.
  split; [reflexivity|]. split; [reflexivity|].
  destruct (Utils.Qltb sb r) eqn:E.
  - apply Qltb_lt in E.
    assert (Qabs (sb + - r) == r - sb)%Q as ->
      by (apply Qabs_case; intros; lra).
    repeat split; [| |lra].
    + destruct (Q.min_spec sb (sb + (r - sb))) as [[? ->]|[? ->]];
        destruct (Q.min_spec sb r) as [[? ->]|[? ->]]; lra.
    + destruct (Q.max_spec sb (sb + (r - sb))) as [[? ->]|[? ->]];
        destruct (Q.max_spec sb r) as [[? ->]|[? ->]]; lra.
  - assert (r <= sb)%Q as Hle.
    { apply Qnot_lt_le. intros H. apply Qltb_lt in H. congruence. }
    assert (Qabs (sb + - r) == sb - r)%Q as ->
      by (apply Qabs_case; intros; lra).
    repeat split; [| |lra].
    + destruct (Q.min_spec r (r + (sb - r))) as [[? ->]|[? ->]];
        destruct (Q.min_spec sb r) as [[? ->]|[? ->]]; lra.
    + destruct (Q.max_spec r (r + (sb - r))) as [[? ->]|[? ->]];
        destruct (Q.max_spec sb r) as [[? ->]|[? ->]]; lra.
Qed.

Lemma gt_Fin_Qltb (a b : Q) : gt (Fin a) (Fin b) = Utils.Qltb b a.
Proof.
  apply eq_true_iff_eq. by rewrite gt_Fin, Qltb_lt.
Qed.

Section BarGeometry.
Context {Datum : Type}.
Implicit Types (p : Bar.Plot Datum) (d : Datum) (i : nat) (ds : Bar.Dataset Datum).

Lemma lookup_positionAttr p :
  Bar._generateAttrToProjector p !! Bar.positionAttr p
  = Some (λ d i ds,
      let originalPos := Bar.originalPositionFn p d i ds in
      if gt originalPos (Fin (Bar.scaledBaseline p))
      then Fin (Bar.scaledBaseline p) else originalPos).
Proof.
  unfold Bar._generateAttrToProjector, Bar.positionAttr.
  destruct (Bar._isVertical p); by rewrite lookup_insert_eq.
Qed.

Lemma lookup_dimensionAttr p :
  Bar._generateAttrToProjector p !! Bar.dimensionAttr p
  = Some (λ d i ds,
      abs (sub (Fin (Bar.scaledBaseline p)) (Bar.originalPositionFn p d i ds))).
Proof.
  unfold Bar._generateAttrToProjector, Bar.dimensionAttr.
  destruct (Bar._isVertical p); simpl.
  - rewrite lookup_insert_ne by done. rewrite lookup_insert_ne by done.
    by rewrite lookup_insert_eq.
  - rewrite lookup_insert_ne by done. rewrite lookup_insert_ne by done.
    rewrite lookup_insert_ne by done. by rewrite lookup_insert_eq.
Qed.

Lemma renderer_lookup_y (R : BarRenderer.t Datum) :
  BarRenderer._paint_attrToProjector R !! "y"
  = Some (λ d i,
      let originalY := BarRenderer.projectorOf (BarRenderer._projectors R) "y" d i in
      if gt originalY (Fin (BarRenderer.yScale R (BarRenderer._baselineValue R)))
      then Fin (BarRenderer.yScale R (BarRenderer._baselineValue R)) else originalY).
Proof.
  unfold BarRenderer._paint_attrToProjector.
  rewrite lookup_insert_ne by done. rewrite lookup_insert_eq.
  do 2 f_equal.
  unfold BarRenderer.projectorOf.
  repeat case_bool_decide; by rewrite ?lookup_insert_ne by done.
Qed.

Lemma renderer_lookup_height (R : BarRenderer.t Datum) :
  BarRenderer._paint_attrToProjector R !! "height"
  = Some (λ d i,
      abs (sub (Fin (BarRenderer.yScale R (BarRenderer._baselineValue R)))
             (BarRenderer.projectorOf (BarRenderer._projectors R) "y" d i))).
Proof.
  unfold BarRenderer._paint_attrToProjector.
  rewrite lookup_insert_eq.
  do 2 f_equal.
  unfold BarRenderer.projectorOf.
  repeat case_bool_decide; by rewrite ?lookup_insert_ne by done.
Qed.

(** C1. For a datum whose raw scaled value is finite, the projectors of
    the position and of the length attribute give
    [length = |scaledBaseline - rawPrimary|] and
    [primaryOffset = (rawPrimary > scaledBaseline ? scaledBaseline : rawPrimary)],
    hence the mark spans exactly from the scaled baseline to the raw value
    and its length is not negative; in both orientations of [Plots.Bar], and
    for the [y] and [height] projectors of [BarRenderer._paint]. *)
Theorem baseline_invariant :
  (∀ p d i ds (rawPrimary : Q),
     Bar.originalPositionFn p d i ds = Fin rawPrimary →
     ∃ (positionF lengthF : Bar.Projector Datum) (primaryOffset length : Q),
       Bar._generateAttrToProjector p !! Bar.positionAttr p = Some positionF
       ∧ Bar._generateAttrToProjector p !! Bar.dimensionAttr p = Some lengthF
       ∧ positionF d i ds = Fin primaryOffset
       ∧ lengthF d i ds = Fin length
       ∧ Spec.spansFromBaseline (Bar.scaledBaseline p) rawPrimary primaryOffset length)
  ∧ (∀ (R : BarRenderer.t Datum) d i (rawY : Q),
       BarRenderer.projectorOf (BarRenderer._projectors R) "y" d i = Fin rawY →
       ∃ (yF heightF : BarRenderer.Projector Datum) (y height : Q),
         BarRenderer._paint_attrToProjector R !! "y" = Some yF
         ∧ BarRenderer._paint_attrToProjector R !! "height" = Some heightF
         ∧ yF d i = Fin y
         ∧ heightF d i = Fin height
         ∧ Spec.spansFromBaseline
             (BarRenderer.yScale R (BarRenderer._baselineValue R)) rawY y height).
Proof.
  split.
  - intros p d i ds r Hr.
    eexists _, _, _, _.
    split; [apply lookup_positionAttr|].
    split; [apply lookup_dimensionAttr|].
    simpl. rewrite Hr. rewrite gt_Fin_Qltb. simpl.
    split; [|split; [reflexivity|apply spansFromBaseline_intro]].
    by destruct (Utils.Qltb _ _).
  - intros R d i r Hr.
    eexists _, _, _, _.
    split; [apply renderer_lookup_y|].
    split; [apply renderer_lookup_height|].
    simpl. rewrite Hr. rewrite gt_Fin_Qltb. simpl.
    split; [|split; [reflexivity|apply spansFromBaseline_intro]].
    by destruct (Utils.Qltb _ _).
Qed.

(** ** Draw steps *)

(** C6. [_generateDrawSteps] gives the reset step followed by the main step
    when the data changed and animation is on, and the main step alone
    otherwise.  In the reset step the position projector returns the scaled
    baseline and the dimension projector returns 0 for every datum; the main
    step carries the projectors of [_generateAttrToProjector] itself. *)
Theorem draw_steps_phases p :
  let main := {| Bar.attrToProjector := Bar._generateAttrToProjector p;
                 Bar.animator := Bar.MAIN |} in
  if Bar._dataChanged p && Bar._animate p then
    ∃ (reset : Bar.DrawStep Datum) (positionF dimensionF : Bar.Projector Datum),
      Bar._generateDrawSteps p = [reset; main]
      ∧ Bar.animator reset = Bar.RESET
      ∧ Bar.attrToProjector reset !! Bar.positionAttr p = Some positionF
      ∧ Bar.attrToProjector reset !! Bar.dimensionAttr p = Some dimensionF
      ∧ ∀ d i ds,
          positionF d i ds = Fin (Bar.scaledBaseline p) ∧ dimensionF d i ds = Fin 0
  else Bar._generateDrawSteps p = [main].
Proof.
  intros main. unfold Bar._generateDrawSteps.
  destruct (Bar._dataChanged p && Bar._animate p); [|reflexivity].
  eexists _, _, _. split; [reflexivity|]. simpl.
  split; [reflexivity|].
  split.
  { rewrite lookup_insert_ne; [apply lookup_insert_eq|].
    unfold Bar.dimensionAttr, Bar.positionAttr. by destruct (Bar._isVertical p). }
  split; [apply lookup_insert_eq|].
  done.
Qed.

(** ** The drawable data *)

Lemma drawable_allFinite (a : gmap string (Bar.Projector Datum)) ds d i :
  Bar.drawable a ds d i = true
  ↔ Spec.allFinite (Bar.projectorOf a "x" d i ds) (Bar.projectorOf a "y" d i ds)
      (Bar.projectorOf a "width" d i ds) (Bar.projectorOf a "height" d i ds).
Proof.
  unfold Bar.drawable, Spec.allFinite, Utils.isValidNumber.
  rewrite !andb_true_iff. split.
  - intros [[[Hx Hy] Hw] Hh].
    destruct (Bar.projectorOf a "x" d i ds); try discriminate.
    destruct (Bar.projectorOf a "y" d i ds); try discriminate.
    destruct (Bar.projectorOf a "width" d i ds); try discriminate.
    destruct (Bar.projectorOf a "height" d i ds); try discriminate.
    by eexists _, _, _, _.
  - intros (qx & qy & qw & qh & -> & -> & -> & ->). done.
Qed.

Lemma filter_from_indices (keep : Datum → nat → bool) (data : list Datum) (k : nat) :
  ∃ indices : list nat,
    StronglySorted Nat.lt indices
    ∧ (∀ i, i ∈ indices ↔ (k ≤ i)%nat ∧ ∃ d, data !! (i - k)%nat = Some d ∧ keep d i = true)
    ∧ Forall2 (λ i d, (k ≤ i)%nat ∧ data !! (i - k)%nat = Some d) indices
        (Bar.filter_from keep k data).
Proof.
  revert k. induction data as [|d rest IH]; intros k.
  - exists []. split; [constructor|]. split; [|constructor].
    intros i. split; [by intros ?%elem_of_nil|]. by intros (_ & ? & ? & _).
  - destruct (IH (S k)) as (ixs & Hsorted & Hmem & Hall).
    assert (Forall2 (λ i e, (k ≤ i)%nat ∧ (d :: rest) !! (i - k)%nat = Some e) ixs
              (Bar.filter_from keep (S k) rest)) as Hall'.
    { eapply Forall2_impl; [exact Hall|].
      intros i e [Hle Hie]. split; [lia|].
      replace (i - k)%nat with (S (i - S k)) by lia. exact Hie. }
    assert (∀ i, i ∈ ixs ↔
              (S k ≤ i)%nat ∧ ∃ e, (d :: rest) !! (i - k)%nat = Some e ∧ keep e i = true)
      as Hmem'.
    { intros i. rewrite Hmem. split; intros [Hle (e & He & Hk)]; (split; [done|]);
        exists e; (split; [|done]).
      - replace (i - k)%nat with (S (i - S k)) by lia. exact He.
      - replace (i - k)%nat with (S (i - S k)) in He by lia. exact He. }
    simpl. destruct (keep d k) eqn:Hkeep.
    + exists (k :: ixs). split; [|split].
      * constructor; [done|]. apply Forall_forall. intros i Hi.
        apply Hmem in Hi as [Hle _]. unfold Nat.lt. lia.
      * intros i. rewrite elem_of_cons, Hmem'. split.
        -- intros [->|[Hle He]]; [|split; [lia|done]].
           split; [done|]. exists d. by rewrite Nat.sub_diag.
        -- intros [Hle (e & He & Hk)].
           destruct (decide (i = k)) as [->|Hne]; [by left|].
           right. split; [lia|]. by exists e.
      * constructor; [by rewrite Nat.sub_diag|done].
    + exists ixs. split; [done|]. split; [|done].
      intros i. rewrite Hmem'. split.
      * intros [Hle He]. split; [lia|done].
      * intros [Hle (e & He & Hk)].
        destruct (decide (i = k)) as [->|Hne].
        -- rewrite Nat.sub_diag in He. simpl in He. congruence.
        -- split; [lia|]. by exists e.
Qed.

(** C7. [_getDataToDraw] keeps, for every dataset and in the order of the
    dataset, exactly the data at the indices where the projected [x], [y],
    [width] and [height] are all finite numbers: a datum with a non-finite
    projected attribute is left out, and the other data stay as they are. *)
Theorem data_to_draw_finite p :
  (Bar._getDataToDraw p).*1 = Bar.datasets p
  ∧ ∀ ds kept,
      (ds, kept) ∈ Bar._getDataToDraw p →
      ∃ indices : list nat,
        StronglySorted Nat.lt indices
        ∧ Forall2 (λ i d, ds !! i = Some d) indices kept
        ∧ ∀ i, i ∈ indices ↔
            ∃ d, ds !! i = Some d
                 ∧ let a := Bar._generateAttrToProjector p in
                   Spec.allFinite (Bar.projectorOf a "x" d i ds)
                     (Bar.projectorOf a "y" d i ds)
                     (Bar.projectorOf a "width" d i ds)
                     (Bar.projectorOf a "height" d i ds).
Proof.
  unfold Bar._getDataToDraw. split.
  - rewrite <- list_fmap_compose. apply list_fmap_id.
  - intros ds kept Hin.
    apply list_elem_of_fmap in Hin as (ds' & [= <- ->] & _).
    destruct (filter_from_indices
                (Bar.drawable (Bar._generateAttrToProjector p) ds) ds 0)
      as (ixs & Hsorted & Hmem & Hall).
    exists ixs. split; [done|]. split.
    + eapply Forall2_impl; [exact Hall|]. intros i d [_ Hd].
      by rewrite Nat.sub_0_r in Hd.
    + intros i. rewrite Hmem. split.
      * intros (_ & d & Hd & Hk). exists d. rewrite Nat.sub_0_r in Hd.
        split; [done|]. by apply drawable_allFinite.
      * intros (d & Hd & Hk). split; [lia|]. exists d. rewrite Nat.sub_0_r.
        split; [done|]. by apply drawable_allFinite.
Qed.

(** ** Configuration errors *)

(** C9. An orientation other than "vertical" and "horizontal" makes the
    [Plots.Bar] constructor throw, so that no plot is made; a negative
    detection radius makes [DragBoxLayer.detectionRadius] throw, and an
    alignment that (in lower case, as the method compares it) is none of
    "left", "center", "right" makes [BarRenderer.barAlignment] throw; both
    setters leave the object as it was, without a render. *)
Theorem configuration_errors_throw :
  (∀ (super_attr : string → Bar.Plot Datum → Bar.Plot Datum) (this : Bar.Plot Datum)
      (orientation : string),
     orientation ≠ "vertical" → orientation ≠ "horizontal" →
     Bar.constructor super_attr this (Some orientation)
     = Throw (orientation +:+ " is not a valid orientation for Plots.Bar"))
  ∧ (∀ (layer : DragBoxLayer.t) (r : number),
       lt r (Fin 0) = true →
       DragBoxLayer.detectionRadius layer (Some r)
       = (Throw "detection radius cannot be negative.", layer))
  ∧ (∀ (R : BarRenderer.t Datum) (alignment : string),
       toLowerCase alignment ≠ "left" → toLowerCase alignment ≠ "center" →
       toLowerCase alignment ≠ "right" →
       BarRenderer.barAlignment R alignment = (Throw "unsupported bar alignment", R)).
Proof.
  split; [|split].
  - intros super_attr this orientation Hv Hh. unfold Bar.constructor. simpl.
    unfold Bar.ORIENTATION_VERTICAL, Bar.ORIENTATION_HORIZONTAL.
    by rewrite !bool_decide_eq_true_2 by done.
  - intros layer r Hr. unfold DragBoxLayer.detectionRadius. by rewrite Hr.
  - intros R alignment Hl Hc Hr. unfold BarRenderer.barAlignment.
    by rewrite !bool_decide_eq_true_2 by done.
Qed.
End BarGeometry.

(** ** The width solve *)

Lemma InA_filter_neq (a x : Q) (l : list Q) :
  InA Qeq x (filter (λ w, negb (Qeq_bool a w)) l) ↔ InA Qeq x l ∧ ¬ (a == x)%Q.
Proof.
  induction l as [|w l IH]; [rewrite filter_nil, InA_nil; tauto|].
  rewrite filter_cons. destruct (Qeq_bool a w) eqn:E; simpl.
  - apply Qeq_bool_iff in E. rewrite IH, InA_cons. split; [tauto|].
    intros [[Hx|Hx] Hne]; [|tauto]. exfalso. apply Hne. by rewrite Hx.
  - apply Qeq_bool_neq in E. rewrite !InA_cons, IH. split; [|tauto].
    intros [Hx|Hx]; [|tauto]. split; [tauto|]. by rewrite Hx.
Qed.

Lemma NoDupA_filter_neq (a : Q) (l : list Q) :
  NoDupA Qeq l → NoDupA Qeq (filter (λ w, negb (Qeq_bool a w)) l).
Proof.
  induction 1 as [|w l Hw Hl IH]; [constructor|].
  rewrite filter_cons. destruct (negb (Qeq_bool a w)); simpl; [|done].
  constructor; [|done]. rewrite InA_filter_neq. tauto.
Qed.

Lemma set_values_InA (l : list Q) (x : Q) :
  InA Qeq x (D3.set_values l) ↔ InA Qeq x l.
Proof.
  induction l as [|a l IH]; [done|]. simpl.
  rewrite !InA_cons, InA_filter_neq, IH.
  destruct (Qeq_dec a x) as [Heq|Hne]; [|tauto].
  split; intros _; left; by symmetry.
Qed.

Lemma set_values_NoDupA (l : list Q) : NoDupA Qeq (D3.set_values l).
Proof.
  induction l as [|a l IH]; simpl; constructor.
  - rewrite InA_filter_neq. intros [_ H]. by apply H.
  - by apply NoDupA_filter_neq.
Qed.

Lemma insert_InA (v x : Q) (l : list Q) :
  InA Qeq x (D3.insert Bar.ascending v l) ↔ (x == v)%Q ∨ InA Qeq x l.
Proof.
  induction l as [|w l IH]; simpl; [by rewrite InA_cons|].
  destruct (Qle_bool _ _); rewrite !InA_cons; [done|]. rewrite IH. tauto.
Qed.

Lemma insert_Forall (P : Q → Prop) (v : Q) (l : list Q) :
  P v → Forall P l → Forall P (D3.insert Bar.ascending v l).
Proof.
  intros Hv. induction 1 as [|w l Hw Hl IH]; simpl; [by constructor|].
  destruct (Qle_bool _ _); by repeat constructor.
Qed.

Lemma insert_sorted (v : Q) (l : list Q) :
  StronglySorted Qlt l → ¬ InA Qeq v l →
  StronglySorted Qlt (D3.insert Bar.ascending v l).
Proof.
  induction 1 as [|w l Hl IH Hw]; intros Hv; simpl.
  - repeat constructor.
  - rewrite InA_cons in Hv.
    destruct (Qle_bool (Bar.ascending v w) 0) eqn:E.
    + apply Qle_bool_iff in E. unfold Bar.ascending in E.
      assert (v < w)%Q as Hlt.
      { destruct (Qlt_le_dec v w) as [?|?]; [done|].
        exfalso. apply Hv. left. lra. }
      constructor; [by constructor|].
      constructor; [done|].
      eapply Forall_impl; [exact Hw|]. intros z Hz. simpl in Hz. lra.
    + assert (w < v)%Q as Hlt.
      { apply Qnot_le_lt. intros H.
        assert (Qle_bool (Bar.ascending v w) 0 = true); [|congruence].
        apply Qle_bool_iff. unfold Bar.ascending. lra. }
      constructor; [apply IH; tauto|].
      by apply insert_Forall.
Qed.

Lemma sort_InA (l : list Q) (x : Q) :
  InA Qeq x (D3.sort Bar.ascending l) ↔ InA Qeq x l.
Proof.
  induction l as [|a l IH]; [done|]. simpl.
  by rewrite insert_InA, InA_cons, IH.
Qed.

Lemma sort_sorted (l : list Q) :
  NoDupA Qeq l → StronglySorted Qlt (D3.sort Bar.ascending l).
Proof.
  induction 1 as [|a l Ha Hl IH]; simpl; [constructor|].
  apply insert_sorted; [done|]. by rewrite sort_InA.
Qed.

Lemma pairs_adjacentGaps (sc : Q → Q) (l : list Q) :
  (λ pair : Q * Q, Qabs (sc (snd pair) - sc (fst pair))) <$> D3.pairs l
  = Spec.adjacentGaps sc l.
Proof.
  induction l as [|a l IH]; [done|].
  destruct l as [|b l]; [done|].
  change (D3.pairs (a :: b :: l)) with ((a, b) :: D3.pairs (b :: l)).
  change (Spec.adjacentGaps sc (a :: b :: l))
    with (Qabs (sc b - sc a) :: Spec.adjacentGaps sc (b :: l)).
  by rewrite fmap_cons, IH.
Qed.

Lemma smallest_min (v a : Q) (l : list Q) :
  (Spec.smallest (Qmin v a) l == Qmin v (Spec.smallest a l))%Q.
Proof.
  revert v a. induction l as [|b l IH]; intros v a; simpl; [reflexivity|].
  by rewrite Q.min_assoc.
Qed.

Lemma foldl_min_smallest (v : Q) (l : list Q) :
  (foldl Qmin v l == Spec.smallest v l)%Q.
Proof.
  revert v. induction l as [|a l IH]; intros v; simpl; [reflexivity|].
  by rewrite IH, smallest_min.
Qed.

Lemma largest_max (v a : Q) (l : list Q) :
  (Spec.largest (Qmax v a) l == Qmax v (Spec.largest a l))%Q.
Proof.
  revert v a. induction l as [|b l IH]; intros v a; simpl; [reflexivity|].
  by rewrite Q.max_assoc.
Qed.

Lemma foldl_max_largest (v : Q) (l : list Q) :
  (foldl Qmax v l == Spec.largest v l)%Q.
Proof.
  revert v. induction l as [|a l IH]; intros v; simpl; [reflexivity|].
  by rewrite IH, largest_max.
Qed.

Lemma candidate_refines (sc : Q → Q) (l : list Q) (extent : Q) :
  (Utils.min_by (D3.pairs l) (λ pair, Qabs (sc (snd pair) - sc (fst pair)))
     (extent * Bar._SINGLE_BAR_DIMENSION_RATIO)
   == Spec.candidateWidth sc l extent)%Q.
Proof.
  unfold Utils.min_by, Spec.candidateWidth. rewrite pairs_adjacentGaps.
  destruct (Spec.adjacentGaps sc l) as [|g gs]; simpl; [reflexivity|].
  apply foldl_min_smallest.
Qed.

Lemma clampAtMinimum_refines (scaled : list Q) (c c' : Q) :
  (c == c')%Q →
  ((if Utils.Qltb 0 (Utils.min scaled 0) then Qmin c (Utils.min scaled 0 * 2) else c)
   == Spec.clampAtMinimum scaled c')%Q.
Proof.
  intros Hc. unfold Spec.clampAtMinimum. destruct scaled as [|s rest]; simpl.
  - by replace (Utils.Qltb 0 0) with false by done.
  - pose proof (foldl_min_smallest s rest) as Hm.
    destruct (Qlt_le_dec 0 (Spec.smallest s rest)) as [Hlt|Hle].
    + assert (Utils.Qltb 0 (foldl Qmin s rest) = true) as ->
        by (apply Qltb_lt; lra).
      rewrite Hc, Hm. apply Q.min_compat; [reflexivity|lra].
    + assert (Utils.Qltb 0 (foldl Qmin s rest) = false) as ->; [|done].
      apply not_true_iff_false. rewrite Qltb_lt. lra.
Qed.

Lemma clampAtMaximum_refines (scaled : list Q) (extent c c' : Q) :
  (c == c')%Q →
  (scaled = [] → (0 < extent)%Q → (c <= extent * 2)%Q) →
  ((if Utils.Qltb (Utils.max scaled 0) extent
    then Qmin c ((extent - Utils.max scaled 0) * 2) else c)
   == Spec.clampAtMaximum scaled extent c')%Q.
Proof.
  intros Hc Hempty. unfold Spec.clampAtMaximum. destruct scaled as [|s rest]; simpl.
  - destruct (Utils.Qltb 0 extent) eqn:E; [|done].
    apply Qltb_lt in E. rewrite <- Hc. apply Q.min_l.
    specialize (Hempty eq_refl E). lra.
  - pose proof (foldl_max_largest s rest) as Hm.
    destruct (Qlt_le_dec (Spec.largest s rest) extent) as [Hlt|Hle].
    + assert (Utils.Qltb (foldl Qmax s rest) extent = true) as ->
        by (apply Qltb_lt; lra).
      rewrite Hc. apply Q.min_compat; [reflexivity|lra].
    + assert (Utils.Qltb (foldl Qmax s rest) extent = false) as ->; [|done].
      apply not_true_iff_false. rewrite Qltb_lt. lra.
Qed.

Lemma sorted_unique (l1 l2 : list Q) :
  StronglySorted Qlt l1 → StronglySorted Qlt l2 →
  (∀ v, InA Qeq v l1 ↔ InA Qeq v l2) →
  Forall2 Qeq l1 l2.
Proof.
  intros H1. revert l2. induction H1 as [|a l1 Hs1 IH Ha]; intros l2 H2 Hmem.
  - destruct l2 as [|b l2]; [constructor|].
    exfalso. apply (proj1 (InA_nil Qeq b)), Hmem. by left.
  - destruct H2 as [|b l2 Hs2 Hb].
    { exfalso. apply (proj1 (InA_nil Qeq a)), Hmem. by left. }
    assert (∀ x l, Forall (Qlt x) l → ∀ v, InA Qeq v l → (x < v)%Q) as Hlt.
    { intros x l Hx v (w & Hvw & Hw)%InA_alt.
      rewrite Forall_forall in Hx. rewrite Hvw. apply Hx. by apply list_elem_of_In. }
    assert (a == b)%Q as Hab.
    { assert (InA Qeq a (b :: l2)) as Ha2 by (apply Hmem; by left).
      assert (InA Qeq b (a :: l1)) as Hb1 by (apply Hmem; by left).
      apply InA_cons in Ha2 as [?|Ha2]; [done|].
      apply InA_cons in Hb1 as [?|Hb1]; [done|].
      pose proof (Hlt _ _ Hb _ Ha2). pose proof (Hlt _ _ Ha _ Hb1). lra. }
    constructor; [done|]. apply IH; [done|].
    intros v. split; intros Hv.
    + assert (InA Qeq v (b :: l2)) as Hv2 by (apply Hmem; by right).
      apply InA_cons in Hv2 as [Hv2|?]; [|done].
      pose proof (Hlt _ _ Ha _ Hv). lra.
    + assert (InA Qeq v (a :: l1)) as Hv1 by (apply Hmem; by right).
      apply InA_cons in Hv1 as [Hv1|?]; [|done].
      pose proof (Hlt _ _ Hb _ Hv). lra.
Qed.

Lemma smallest_Forall2 (a b : Q) (l1 l2 : list Q) :
  (a == b)%Q → Forall2 Qeq l1 l2 → (Spec.smallest a l1 == Spec.smallest b l2)%Q.
Proof.
  intros Hab H. revert a b Hab. induction H as [|x y l1 l2 Hxy H IH]; intros a b Hab;
    simpl; [done|].
  apply Q.min_compat; [done|]. by apply IH.
Qed.

Lemma largest_Forall2 (a b : Q) (l1 l2 : list Q) :
  (a == b)%Q → Forall2 Qeq l1 l2 → (Spec.largest a l1 == Spec.largest b l2)%Q.
Proof.
  intros Hab H. revert a b Hab. induction H as [|x y l1 l2 Hxy H IH]; intros a b Hab;
    simpl; [done|].
  apply Q.max_compat; [done|]. by apply IH.
Qed.

Lemma adjacentGaps_Forall2 (sc : Q → Q) (l1 l2 : list Q) :
  Proper (Qeq ==> Qeq) sc → Forall2 Qeq l1 l2 →
  Forall2 Qeq (Spec.adjacentGaps sc l1) (Spec.adjacentGaps sc l2).
Proof.
  intros Hsc H. induction H as [|x y l1 l2 Hxy H IH]; [constructor|].
  destruct H as [|x' y' l1 l2 Hxy' H]; [constructor|].
  change (Forall2 Qeq (Qabs (sc x' - sc x) :: Spec.adjacentGaps sc (x' :: l1))
            (Qabs (sc y' - sc y) :: Spec.adjacentGaps sc (y' :: l2))).
  constructor; [|done]. by rewrite Hxy, Hxy'.
Qed.

Lemma solveWidth_Forall2 (sc : Q → Q) (l1 l2 : list Q) (extent ratio : Q) :
  Proper (Qeq ==> Qeq) sc → Forall2 Qeq l1 l2 →
  (Spec.solveWidth sc l1 extent ratio == Spec.solveWidth sc l2 extent ratio)%Q.
Proof.
  intros Hsc H. unfold Spec.solveWidth.
  assert (Forall2 Qeq (sc <$> l1) (sc <$> l2)) as Hscaled.
  { induction H; constructor; [by apply Hsc|done]. }
  assert (Spec.candidateWidth sc l1 extent == Spec.candidateWidth sc l2 extent)%Q as Hc.
  { unfold Spec.candidateWidth.
    destruct (adjacentGaps_Forall2 sc l1 l2 Hsc H); [reflexivity|].
    by apply smallest_Forall2. }
  apply Qmult_comp; [|reflexivity].
  unfold Spec.clampAtMaximum, Spec.clampAtMinimum.
  destruct Hscaled as [|s1 s2 r1 r2 Hs Hr]; [done|].
  pose proof (smallest_Forall2 s1 s2 r1 r2 Hs Hr) as Hmin.
  pose proof (largest_Forall2 s1 s2 r1 r2 Hs Hr) as Hmax.
  assert ((if Qlt_le_dec 0 (Spec.smallest s1 r1)
           then Qmin (Spec.candidateWidth sc l1 extent) (2 * Spec.smallest s1 r1)
           else Spec.candidateWidth sc l1 extent)
          == (if Qlt_le_dec 0 (Spec.smallest s2 r2)
              then Qmin (Spec.candidateWidth sc l2 extent) (2 * Spec.smallest s2 r2)
              else Spec.candidateWidth sc l2 extent))%Q as Hlow.
  { destruct (Qlt_le_dec 0 (Spec.smallest s1 r1)), (Qlt_le_dec 0 (Spec.smallest s2 r2));
      [|lra|lra|done].
    apply Q.min_compat; [done|lra]. }
  cbv zeta.
  destruct (Qlt_le_dec (Spec.largest s1 r1) extent),
    (Qlt_le_dec (Spec.largest s2 r2) extent); [|lra|lra|done].
  apply Q.min_compat; [done|lra].
Qed.

Lemma smallest_le (v : Q) (l : list Q) :
  (Spec.smallest v l <= v)%Q ∧ Forall (λ x, Spec.smallest v l <= x)%Q l.
Proof.
  revert v. induction l as [|a l IH]; intros v; simpl; [split; [lra|constructor]|].
  destruct (IH a) as [Ha Hl].
  pose proof (Q.le_min_l v (Spec.smallest a l)) as Hv.
  pose proof (Q.le_min_r v (Spec.smallest a l)) as Hs.
  split; [done|]. constructor; [lra|].
  eapply Forall_impl; [exact Hl|]. intros x Hx. simpl in Hx. lra.
Qed.

Lemma smallest_ge (bound v : Q) (l : list Q) :
  (bound <= v)%Q → Forall (Qle bound) l → (bound <= Spec.smallest v l)%Q.
Proof.
  intros Hv Hl. revert v Hv. induction Hl as [|a l Ha Hl IH]; intros v Hv; simpl; [done|].
  specialize (IH a Ha).
  destruct (Q.min_spec v (Spec.smallest a l)) as [[? ->]|[? ->]]; lra.
Qed.

Lemma adjacentGaps_nonneg (sc : Q → Q) (l : list Q) :
  Forall (Qle 0) (Spec.adjacentGaps sc l).
Proof.
  induction l as [|a l IH]; [constructor|].
  destruct l as [|b l]; [constructor|].
  change (Forall (Qle 0) (Qabs (sc b - sc a) :: Spec.adjacentGaps sc (b :: l))).
  constructor; [apply Qabs_nonneg|done].
Qed.

Lemma adjacentGaps_lookup (sc : Q → Q) (l : list Q) (i : nat) (a b : Q) :
  l !! i = Some a → l !! S i = Some b →
  Spec.adjacentGaps sc l !! i = Some (Qabs (sc b - sc a)).
Proof.
  revert i. induction l as [|x l IH]; intros i Ha Hb; [done|].
  destruct l as [|y l]; [done|].
  change (Spec.adjacentGaps sc (x :: y :: l))
    with (Qabs (sc y - sc x) :: Spec.adjacentGaps sc (y :: l)).
  destruct i as [|i]; simpl in *.
  - by injection Ha as <-; injection Hb as <-.
  - by apply IH.
Qed.

Lemma candidateWidth_nonneg (sc : Q → Q) (l : list Q) (extent : Q) :
  (0 <= extent)%Q → (0 <= Spec.candidateWidth sc l extent)%Q.
Proof.
  intros He. unfold Spec.candidateWidth.
  pose proof (adjacentGaps_nonneg sc l) as Hg.
  destruct (Spec.adjacentGaps sc l) as [|g gs]; [lra|].
  apply Forall_cons in Hg as [? ?]. by apply smallest_ge.
Qed.

Lemma clamps_sign (scaled : list Q) (extent c : Q) :
  ((0 <= c)%Q →
   0 <= Spec.clampAtMaximum scaled extent (Spec.clampAtMinimum scaled c))%Q
  ∧ ((0 < c)%Q →
     0 < Spec.clampAtMaximum scaled extent (Spec.clampAtMinimum scaled c))%Q
  ∧ ((c == 0)%Q →
     Spec.clampAtMaximum scaled extent (Spec.clampAtMinimum scaled c) == 0)%Q.
Proof.
  unfold Spec.clampAtMaximum, Spec.clampAtMinimum.
  destruct scaled as [|s rest]; [repeat split; done|]. cbv zeta.
  set (m := Spec.smallest s rest). set (M := Spec.largest s rest).
  pose proof (Q.min_spec c (2 * m)) as Hinner.
  pose proof (Q.min_spec (Qmin c (2 * m)) (2 * (extent - M))) as Houter.
  pose proof (Q.min_spec c (2 * (extent - M))) as Houter'.
  set (inner := Qmin c (2 * m)) in *.
  destruct (Qlt_le_dec 0 m), (Qlt_le_dec M extent); repeat split; intros Hc;
    destruct Hinner as [[? ?]|[? ?]], Houter as [[? ?]|[? ?]],
      Houter' as [[? ?]|[? ?]]; lra.
Qed.

Section BarWidth.
Context {Datum : Type}.
Implicit Types (p : Bar.Plot Datum).

Lemma numberBarAccessorData_sorted p :
  StronglySorted Qlt (Bar.numberBarAccessorData p).
Proof. apply sort_sorted, set_values_NoDupA. Qed.

Lemma numberBarAccessorData_InA p (v : Q) :
  InA Qeq v (Bar.numberBarAccessorData p) ↔ InA Qeq v (Bar.barAccessorValues p).
Proof.
  unfold Bar.numberBarAccessorData.
  by rewrite (sort_InA (D3.set_values (Bar.barAccessorValues p)) v), set_values_InA.
Qed.

Lemma getBarPixelWidth_quantitative p (barScale_scale : Q → Q) :
  Bar._projectorsReady p = true →
  (if Bar._isVertical p then Bar.scale (Bar.x p) else Bar.scale (Bar.y p))
  = Bar.Quantitative barScale_scale →
  (Bar._getBarPixelWidth p
   == Spec.solveWidth barScale_scale (Bar.numberBarAccessorData p)
        (if Bar._isVertical p then Bar.width p else Bar.height p)
        Bar._BAR_WIDTH_RATIO)%Q.
Proof.
  intros Hready Hscale. unfold Bar._getBarPixelWidth, Spec.solveWidth.
  rewrite Hready, Hscale. cbn [negb].
  set (values := Bar.numberBarAccessorData p).
  set (extent := if Bar._isVertical p then Bar.width p else Bar.height p).
  apply Qmult_comp; [|reflexivity].
  apply clampAtMaximum_refines.
  - apply clampAtMinimum_refines, candidate_refines.
  - intros Hnil Hpos.
    apply fmap_nil_inv in Hnil. rewrite Hnil. simpl.
    unfold Utils.min_by. simpl.
    replace (Utils.Qltb 0 0) with false by done.
    unfold Bar._SINGLE_BAR_DIMENSION_RATIO. lra.
Qed.

(** C3. With a quantitative scale on the thickness axis, the solved bar
    width is, for the ascending list of the distinct domain values of the
    plot, the minimum adjacent pixel gap (0.4 of the available extent when
    there are fewer than two values), capped at twice the smallest scaled
    value when that is positive, capped at twice the distance of the largest
    scaled value from the available extent when that is below the extent, and
    multiplied by the ratio 0.95, which is less than 1.  The plot's own list
    of values is such a list. *)
Theorem bar_pixel_width_solve p (barScale_scale : Q → Q) (distinctValues : list Q) :
  Bar._projectorsReady p = true →
  (if Bar._isVertical p then Bar.scale (Bar.x p) else Bar.scale (Bar.y p))
  = Bar.Quantitative barScale_scale →
  Proper (Qeq ==> Qeq) barScale_scale →
  StronglySorted Qlt distinctValues →
  (∀ v, InA Qeq v distinctValues ↔ InA Qeq v (Bar.barAccessorValues p)) →
  let availableExtent := if Bar._isVertical p then Bar.width p else Bar.height p in
  (Bar._getBarPixelWidth p
   == Spec.solveWidth barScale_scale distinctValues availableExtent Bar._BAR_WIDTH_RATIO)%Q
  ∧ (Bar._BAR_WIDTH_RATIO < 1)%Q
  ∧ StronglySorted Qlt (Bar.numberBarAccessorData p)
  ∧ (∀ v, InA Qeq v (Bar.numberBarAccessorData p) ↔ InA Qeq v (Bar.barAccessorValues p)).
Proof.
  intros Hready Hscale Hproper Hsorted Hmem extent.
  split; [|split; [done|split]].
  - rewrite (getBarPixelWidth_quantitative p barScale_scale Hready Hscale).
    apply solveWidth_Forall2; [done|].
    apply sorted_unique; [apply numberBarAccessorData_sorted|done|].
    intros v. by rewrite numberBarAccessorData_InA, Hmem.
  - apply numberBarAccessorData_sorted.
  - apply numberBarAccessorData_InA.
Qed.

(** C4, amended.  The width solve has no floor.  With a quantitative scale
    and an available extent that is not negative the solved width is never
    negative; it stays 0 when two adjacent distinct domain values scale to
    the same pixel; and it is positive when there is a single distinct value
    (one point, or all points equal) and the available extent is positive. *)
Theorem bar_pixel_width_degenerate p (barScale_scale : Q → Q) :
  Bar._projectorsReady p = true →
  (if Bar._isVertical p then Bar.scale (Bar.x p) else Bar.scale (Bar.y p))
  = Bar.Quantitative barScale_scale →
  let availableExtent := if Bar._isVertical p then Bar.width p else Bar.height p in
  let values := Bar.numberBarAccessorData p in
  ((0 <= availableExtent)%Q → (0 <= Bar._getBarPixelWidth p)%Q)
  ∧ (∀ (i : nat) (a b : Q),
       values !! i = Some a → values !! S i = Some b →
       (barScale_scale a == barScale_scale b)%Q →
       (Bar._getBarPixelWidth p == 0)%Q)
  ∧ (length values = 1%nat → (0 < availableExtent)%Q → (0 < Bar._getBarPixelWidth p)%Q).
Proof.
  intros Hready Hscale extent values.
  pose proof (getBarPixelWidth_quantitative p barScale_scale Hready Hscale) as Hw.
  fold extent values in Hw. unfold Spec.solveWidth in Hw.
  set (scaled := barScale_scale <$> values) in *.
  set (c := Spec.candidateWidth barScale_scale values extent) in *.
  destruct (clamps_sign scaled extent c) as (Hnonneg & Hpos & Hzero).
  unfold Bar._BAR_WIDTH_RATIO in Hw. split; [|split].
  - intros He. specialize (Hnonneg (candidateWidth_nonneg _ _ _ He)). nra.
  - intros i a b Ha Hb Hab.
    assert (c == 0)%Q as Hc.
    { unfold c, Spec.candidateWidth.
      pose proof (adjacentGaps_lookup barScale_scale values i a b Ha Hb) as Hgap.
      pose proof (adjacentGaps_nonneg barScale_scale values) as Hg.
      destruct (Spec.adjacentGaps barScale_scale values) as [|g gs]; [done|].
      apply Forall_cons in Hg as [Hg0 Hgs].
      pose proof (smallest_ge 0 g gs Hg0 Hgs) as Hlow.
      destruct (smallest_le g gs) as [Hfirst Hrest].
      assert (Qabs (barScale_scale b - barScale_scale a) == 0)%Q as Hzero'.
      { rewrite Hab. apply Qabs_case; intros; lra. }
      destruct i as [|i].
      - change (Some g = Some (Qabs (barScale_scale b - barScale_scale a))) in Hgap.
        assert (g = Qabs (barScale_scale b - barScale_scale a)) as Hg by congruence.
        assert (g == 0)%Q by (by rewrite Hg). lra.
      - change (gs !! i = Some (Qabs (barScale_scale b - barScale_scale a))) in Hgap.
        rewrite Forall_forall in Hrest.
        specialize (Hrest _ (list_elem_of_lookup_2 _ _ _ Hgap)). cbv beta in Hrest.
        lra. }
    specialize (Hzero Hc). lra.
  - intros Hlen He.
    assert (0 < c)%Q as Hc.
    { unfold c, Spec.candidateWidth.
      destruct values as [|v [|w rest]]; try done. simpl. lra. }
    specialize (Hpos Hc). nra.
Qed.
End BarWidth.

(** ** Spatial queries *)

Lemma intersectsBBox_Fin (xv yv : number + Range.t) (tol : option number)
    (t xMin xMax yMin yMax boxX boxY boxW boxH : Q) :
  Utils.parseRange xv = Range.mk (Fin xMin) (Fin xMax) →
  Utils.parseRange yv = Range.mk (Fin yMin) (Fin yMax) →
  default Utils.defaultTolerance tol = Fin t →
  Utils.intersectsBBox xv yv (SVGRect.mk (Fin boxX) (Fin boxY) (Fin boxW) (Fin boxH)) tol
  = true
  ↔ Spec.overlapsWithin t xMin xMax yMin yMax boxX boxY boxW boxH.
Proof.
  intros Hx Hy Ht. unfold Utils.intersectsBBox, Spec.overlapsWithin.
  rewrite Hx, Hy, Ht. simpl.
  rewrite !andb_true_iff, !ge_Fin, !le_Fin. unfold Qminus. tauto.
Qed.

Section BarQueries.
Context {Datum : Type}.
Implicit Types (p : Bar.Plot Datum) (e : Bar.Entity Datum).

Lemma distances_Fin p e (qx qy px py boxX boxY boxW boxH : Q) :
  Bar.position e = Point.mk (Fin px) (Fin py) →
  Bar.selection e = SVGRect.mk (Fin boxX) (Fin boxY) (Fin boxW) (Fin boxH) →
  let q := Point.mk (Fin qx) (Fin qy) in
  let qP := if Bar._isVertical p then qx else qy in
  let qS := if Bar._isVertical p then qy else qx in
  let pP := if Bar._isVertical p then px else py in
  let pS := if Bar._isVertical p then py else px in
  let sMin := if Bar._isVertical p then boxY else boxX in
  let sLen := if Bar._isVertical p then boxH else boxW in
  let inside := Spec.overlapsWithin (1 # 2) qx qx qy qy boxX boxY boxW boxH in
  let inSpan := (sMin - (1 # 2) <= qS ∧ qS <= sMin + sLen + (1 # 2))%Q in
  (inside → Bar.distances p q e = (Fin 0, Fin 0))
  ∧ (¬ inside → inSpan → Bar.distances p q e = (Fin (Qabs (qP - pP)), Fin 0))
  ∧ (¬ inside → ¬ inSpan →
     Bar.distances p q e = (Fin (Qabs (qP - pP)), Fin (Qabs (qS - pS)))).
Proof.
  intros Hpos Hsel q qP qS pP pS sMin sLen inside inSpan.
  unfold Bar.distances, Bar.getBBox. rewrite Hpos, Hsel.
  pose proof (intersectsBBox_Fin (inl (Fin qx)) (inl (Fin qy)) (Some Bar.tolerance)
                (1 # 2) qx qx qy qy boxX boxY boxW boxH eq_refl eq_refl eq_refl) as Hin.
  fold inside in Hin. simpl Point.x. simpl Point.y.
  destruct (Utils.intersectsBBox _ _ _ _) eqn:E.
  - assert inside by (by apply Hin). simpl. split; [done|split; tauto].
  - assert (¬ inside) as Hout by (intros H; apply Hin in H; discriminate).
    simpl negb. cbv iota.
    assert ((ge (if Bar._isVertical p then Fin qy else Fin qx)
               (sub (if Bar._isVertical p then Fin boxY else Fin boxX) Bar.tolerance)
             && le (if Bar._isVertical p then Fin qy else Fin qx)
                  (add (add (if Bar._isVertical p then Fin boxY else Fin boxX)
                          (if Bar._isVertical p then Fin boxH else Fin boxW))
                     Bar.tolerance)) = true ↔ inSpan) as Hspan.
    { unfold inSpan, qS, sMin, sLen.
      destruct (Bar._isVertical p); simpl;
        rewrite andb_true_iff, ge_Fin, le_Fin; unfold Qminus; tauto. }
    simpl SVGRect.x. simpl SVGRect.y. simpl SVGRect.width. simpl SVGRect.height.
    destruct (ge _ _ && le _ _) eqn:E2.
    + assert inSpan by (by apply Hspan).
      split; [tauto|]. split; [|tauto]. intros _ _.
      unfold qP, pP. by destruct (Bar._isVertical p).
    + assert (¬ inSpan) by (intros H; apply Hspan in H; discriminate).
      split; [tauto|]. split; [tauto|]. intros _ _.
      unfold qP, pP, qS, pS. by destruct (Bar._isVertical p).
Qed.

(** C5. The inside tests of the three queries use a tolerance of half a
    pixel.  In [entityNearest], which carries the tolerance itself, both
    distances are 0 when the query point is in the bar's box widened by 1/2
    on every side, and the secondary distance is 0 when the point is in the
    bar's secondary span widened by 1/2; and conversely: the primary distance
    is 0 only in the widened box or where the point has the primary
    coordinate of the bar's position, and the secondary distance is 0 only in
    the widened span or where the point has the secondary coordinate of the
    position.  [entitiesAt], [entitiesIn] and the visibility test pass no
    tolerance, and the intersection test applies its own 1/2: [entitiesAt]
    returns the entities whose box, widened by 1/2, contains the point,
    [entitiesIn] those whose box, widened by 1/2, overlaps the ranges or the
    bounds, and an entity is visible on the plot when its box, widened by
    1/2, overlaps the plot. *)
Theorem half_pixel_tolerance p (super_entities : list (Bar.Entity Datum)) e
    (boxX boxY boxW boxH : Q) :
  Bar.selection e = SVGRect.mk (Fin boxX) (Fin boxY) (Fin boxW) (Fin boxH) →
  (∀ qx qy px py : Q,
     Bar.position e = Point.mk (Fin px) (Fin py) →
     let q := Point.mk (Fin qx) (Fin qy) in
     let qP := if Bar._isVertical p then qx else qy in
     let qS := if Bar._isVertical p then qy else qx in
     let pP := if Bar._isVertical p then px else py in
     let pS := if Bar._isVertical p then py else px in
     let sMin := if Bar._isVertical p then boxY else boxX in
     let sLen := if Bar._isVertical p then boxH else boxW in
     let inside := Spec.overlapsWithin (1 # 2) qx qx qy qy boxX boxY boxW boxH in
     let inSpan := (sMin - (1 # 2) <= qS ∧ qS <= sMin + sLen + (1 # 2))%Q in
     (inside → Bar.distances p q e = (Fin 0, Fin 0))
     ∧ (inSpan → (Bar.distances p q e).2 = Fin 0)
     ∧ ∃ primaryDist secondaryDist : Q,
         Bar.distances p q e = (Fin primaryDist, Fin secondaryDist)
         ∧ (primaryDist == 0 ↔ inside ∨ qP == pP)%Q
         ∧ (secondaryDist == 0 ↔ inSpan ∨ qS == pS)%Q)
  ∧ (∀ qx qy : Q,
       e ∈ Bar.entitiesAt p super_entities (Point.mk (Fin qx) (Fin qy))
       ↔ e ∈ Bar.entities p super_entities
         ∧ Spec.overlapsWithin (1 # 2) qx qx qy qy boxX boxY boxW boxH)
  ∧ (∀ xMin xMax yMin yMax : Q,
       let xRange := Range.mk (Fin xMin) (Fin xMax) in
       let yRange := Range.mk (Fin yMin) (Fin yMax) in
       let bounds := Bounds.mk (Point.mk (Fin xMin) (Fin yMin))
                       (Point.mk (Fin xMax) (Fin yMax)) in
       (e ∈ Bar.entitiesIn p super_entities (inr (xRange, yRange))
        ↔ e ∈ Bar.entities p super_entities
          ∧ Spec.overlapsWithin (1 # 2) xMin xMax yMin yMax boxX boxY boxW boxH)
       ∧ (e ∈ Bar.entitiesIn p super_entities (inl bounds)
          ↔ e ∈ Bar.entities p super_entities
            ∧ Spec.overlapsWithin (1 # 2) xMin xMax yMin yMax boxX boxY boxW boxH))
  ∧ (Bar._isVisibleOnPlot p (Bar.datum e) (Bar.position e) (Bar.selection e) = true
     ↔ Spec.overlapsWithin (1 # 2) 0 (Bar.width p) 0 (Bar.height p)
         boxX boxY boxW boxH).
Proof.
  intros Hsel. split; [|split; [|split]]; cycle 3.
  { unfold Bar._isVisibleOnPlot. rewrite Hsel.
    by apply intersectsBBox_Fin. }
  - intros qx qy px py Hpos q qP qS pP pS sMin sLen inside inSpan.
    destruct (distances_Fin p e qx qy px py boxX boxY boxW boxH Hpos Hsel)
      as (Hin & Hspan & Hout).
    fold q qP qS pP pS sMin sLen inside inSpan in Hin, Hspan, Hout.
    assert (inside → inSpan) as Hinspan.
    { unfold inside, inSpan, Spec.overlapsWithin, qS, sMin, sLen.
      destruct (Bar._isVertical p); intros (? & ? & ? & ?); split; lra. }
    assert (inside ∨ ¬ inside) as Hinside.
    { destruct (Utils.intersectsBBox (inl (Fin qx)) (inl (Fin qy))
                  (SVGRect.mk (Fin boxX) (Fin boxY) (Fin boxW) (Fin boxH))
                  (Some Bar.tolerance)) eqn:E.
      - left. by apply (intersectsBBox_Fin _ _ _ (1 # 2) qx qx qy qy) in E.
      - right. intros H.
        apply (intersectsBBox_Fin (inl (Fin qx)) (inl (Fin qy))
                 (Some Bar.tolerance)) in H; [|done..]. congruence. }
    assert (inSpan ∨ ¬ inSpan) as Hinspan'.
    { unfold inSpan.
      destruct (Qlt_le_dec qS (sMin - (1 # 2))) as [?|?];
        [right; intros [? ?]; lra|].
      destruct (Qlt_le_dec (sMin + sLen + (1 # 2)) qS) as [?|?];
        [right; intros [? ?]; lra|by left]. }
    clearbody inside inSpan qP qS pP pS sMin sLen.
    split; [exact Hin|]. split.
    { intros Hs. destruct Hinside as [Hi|Hi]; [by rewrite (Hin Hi)|].
      by rewrite (Hspan Hi Hs). }
    destruct Hinside as [Hi|Hi].
    { exists 0%Q, 0%Q. split; [exact (Hin Hi)|].
      split; (split; [intros _; left; auto|reflexivity]). }
    destruct Hinspan' as [Hs|Hs].
    + exists (Qabs (qP - pP)), 0%Q. split; [exact (Hspan Hi Hs)|]. split.
      * split; [intros H; right; revert H|intros [?|H]; [done|]];
          apply Qabs_case; intros; lra.
      * split; [by left|reflexivity].
    + exists (Qabs (qP - pP)), (Qabs (qS - pS)). split; [exact (Hout Hi Hs)|]. split.
      * split; [intros H; right; revert H|intros [?|H]; [done|]];
          apply Qabs_case; intros; lra.
      * split; [intros H; right; revert H|intros [?|H]; [done|]];
          apply Qabs_case; intros; lra.
  - intros qx qy. unfold Bar.entitiesAt, Bar._entitiesIntersecting.
    rewrite list_elem_of_filter. unfold Bar.getBBox. rewrite Hsel.
    rewrite (intersectsBBox_Fin _ _ None (1 # 2) qx qx qy qy) by done. tauto.
  - intros xMin xMax yMin yMax xRange yRange bounds. subst xRange yRange bounds.
    unfold Bar.entitiesIn, Bar._entitiesIntersecting. simpl.
    rewrite !list_elem_of_filter. unfold Bar.getBBox. rewrite Hsel.
    rewrite (intersectsBBox_Fin _ _ None (1 # 2) xMin xMax yMin yMax) by done. tauto.
Qed.

(** ** The nearest entity *)

Lemma lexltb_Fin (a b c d : Q) :
  Spec.lexltb (Fin a, Fin b) (Fin c, Fin d) = true
  ↔ (a < c ∨ (a == c ∧ b < d))%Q.
Proof.
  unfold Spec.lexltb. cbn [fst snd].
  by rewrite orb_true_iff, andb_true_iff, !lt_Fin, seq_Fin.
Qed.

Lemma lexltb_trans (x1 x2 y1 y2 z1 z2 : Q) :
  Spec.lexltb (Fin x1, Fin x2) (Fin y1, Fin y2) = true →
  Spec.lexltb (Fin z1, Fin z2) (Fin y1, Fin y2) = false →
  Spec.lexltb (Fin x1, Fin x2) (Fin z1, Fin z2) = true.
Proof.
  rewrite <- not_true_iff_false, !lexltb_Fin. intros Hxy Hzy.
  destruct (Qlt_le_dec x1 z1) as [?|?]; [by left|].
  destruct (Qlt_le_dec z1 x1) as [?|?]; [exfalso; apply Hzy; left; lra|].
  right. split; [lra|].
  destruct (Qlt_le_dec x2 z2) as [?|?]; [done|].
  exfalso. apply Hzy. destruct Hxy as [?|[? ?]]; [left; lra|right; split; lra].
Qed.

Lemma lexltb_trans' (x1 x2 y1 y2 z1 z2 : Q) :
  Spec.lexltb (Fin x1, Fin x2) (Fin y1, Fin y2) = true →
  Spec.lexltb (Fin y1, Fin y2) (Fin z1, Fin z2) = true →
  Spec.lexltb (Fin x1, Fin x2) (Fin z1, Fin z2) = true.
Proof.
  rewrite !lexltb_Fin. intros [?|[? ?]] [?|[? ?]];
    [left; lra|left; lra|left; lra|right; split; lra].
Qed.

Lemma finiteEntity_inv e :
  Spec.finiteEntity e = true →
  ∃ px py boxX boxY boxW boxH : Q,
    Bar.position e = Point.mk (Fin px) (Fin py)
    ∧ Bar.selection e = SVGRect.mk (Fin boxX) (Fin boxY) (Fin boxW) (Fin boxH).
Proof.
  unfold Spec.finiteEntity, Spec.finitePoint, Spec.finiteRect.
  destruct (Bar.position e) as [[]  []]; try done.
  destruct (Bar.selection e) as [[] [] [] []]; try done.
  intros _. by eexists _, _, _, _, _, _.
Qed.

Lemma distances_finite p e (qx qy : Q) :
  Spec.finiteEntity e = true →
  ∃ a b : Q, Bar.distances p (Point.mk (Fin qx) (Fin qy)) e = (Fin a, Fin b).
Proof.
  intros (px & py & boxX & boxY & boxW & boxH & Hpos & Hsel)%finiteEntity_inv.
  unfold Bar.distances, Bar.getBBox. rewrite Hpos, Hsel.
  destruct (negb _); [|by eexists _, _].
  destruct (Bar._isVertical p); cbn [Point.x Point.y SVGRect.x SVGRect.y sub add neg abs];
    destruct (ge _ _ && le _ _); by eexists _, _.
Qed.

(** What the loop of [entityNearest] has found after the entities of [l]. *)
Lemma nearest_fold p (q : Point.t) (l : list (Bar.Entity Datum)) :
  (∀ e, e ∈ l → ∃ a b : Q, Bar.distances p q e = (Fin a, Fin b)) →
  let st :=
    foldl (Bar.nearestStep p q)
      {| Bar.closest := None; Bar.minPrimaryDist := PosInf;
         Bar.minSecondaryDist := PosInf |} l in
  let visible :=
    filter (λ e, Bar._isVisibleOnPlot p (Bar.datum e) (Bar.position e) (Bar.selection e)
                 = true) l in
  match Bar.closest st with
  | None =>
      Bar.minPrimaryDist st = PosInf ∧ Bar.minSecondaryDist st = PosInf ∧ visible = []
  | Some e =>
      (Bar.minPrimaryDist st, Bar.minSecondaryDist st) = Bar.distances p q e
      ∧ ∃ before after,
          visible = before ++ e :: after
          ∧ (∀ e', e' ∈ before →
               Spec.lexltb (Bar.distances p q e) (Bar.distances p q e') = true)
          ∧ (∀ e', e' ∈ after →
               Spec.lexltb (Bar.distances p q e') (Bar.distances p q e) = false)
  end.
Proof.
  induction l as [|x l IH] using rev_ind; intros Hfin; [done|].
  cbn zeta. rewrite foldl_snoc, filter_app.
  assert (∀ e, e ∈ l → ∃ a b : Q, Bar.distances p q e = (Fin a, Fin b)) as Hfin'.
  { intros e He. apply Hfin, elem_of_app. by left. }
  specialize (IH Hfin'). cbn zeta in IH.
  set (st := foldl (Bar.nearestStep p q) _ l) in *.
  set (vis := λ e : Bar.Entity Datum,
         Bar._isVisibleOnPlot p (Bar.datum e) (Bar.position e) (Bar.selection e) = true)
    in *.
  unfold Bar.nearestStep.
  destruct (Bar._isVisibleOnPlot p (Bar.datum x) (Bar.position x) (Bar.selection x))
    eqn:Hvis; cbn [negb].
  2: { rewrite (filter_singleton_False vis x []), app_nil_r; [exact IH|].
       unfold vis. congruence. }
  rewrite (filter_singleton_True vis x []) by done.
  destruct (Hfin x) as (a & b & Hx); [apply elem_of_app; right; by left|].
  rewrite Hx.
  change (lt (Fin a) (Bar.minPrimaryDist st)
          || seq (Fin a) (Bar.minPrimaryDist st) && lt (Fin b) (Bar.minSecondaryDist st))
    with (Spec.lexltb (Fin a, Fin b) (Bar.minPrimaryDist st, Bar.minSecondaryDist st)).
  destruct (Bar.closest st) as [e|] eqn:Hclosest.
  - destruct IH as (Hmin & before & after & Hvisible & Hbefore & Hafter).
    rewrite Hmin.
    assert (∀ e', e' ∈ filter vis l → ∃ a b : Q, Bar.distances p q e' = (Fin a, Fin b))
      as Hfinv.
    { intros e' He'. apply Hfin'. by apply list_elem_of_filter in He' as [_ ?]. }
    destruct (Hfinv e) as (a0 & b0 & He).
    { rewrite Hvisible. apply elem_of_app. right. by left. }
    rewrite He in *.
    destruct (Spec.lexltb (Fin a, Fin b) (Fin a0, Fin b0)) eqn:Hlt.
    + cbn [Bar.closest Bar.minPrimaryDist Bar.minSecondaryDist].
      split; [by rewrite Hx|].
      exists (before ++ e :: after), []. rewrite Hvisible. split; [done|].
      split; [|by intros ? ?%elem_of_nil].
      intros e' He'. rewrite Hx.
      destruct (Hfinv e') as (a1 & b1 & He1); [by rewrite Hvisible|]. rewrite He1.
      apply elem_of_app in He' as [He'|He'].
      * apply (lexltb_trans' a b a0 b0 a1 b1); [done|].
        rewrite <- He1. by apply Hbefore.
      * apply elem_of_cons in He' as [->|He'].
        -- rewrite He in He1. by injection He1 as <- <-.
        -- apply (lexltb_trans a b a0 b0 a1 b1); [done|].
           rewrite <- He1. by apply Hafter.
    + rewrite Hclosest. split; [by rewrite Hmin, He|].
      exists before, (after ++ [x]). rewrite Hvisible, <- app_assoc. split; [done|].
      split; [by rewrite He|].
      intros e' [He'|He']%elem_of_app; rewrite He.
      * by apply Hafter.
      * apply list_elem_of_singleton in He' as ->. by rewrite Hx.
  - destruct IH as (-> & -> & ->).
    cbn [Spec.lexltb fst snd lt JS.compare orb Bar.closest
           Bar.minPrimaryDist Bar.minSecondaryDist].
    split; [by rewrite Hx|].
    exists [], []. split; [done|]. split; by intros ? ?%elem_of_nil.
Qed.

(** C2, amended.  For a finite query point and entities of finite geometry,
    [entityNearest] returns none exactly when no entity is visible on the
    plot; otherwise it returns a visible entity whose pair of distances is
    strictly smaller (lexicographically) than that of every visible entity
    enumerated before it and not larger than that of every visible entity
    enumerated after it.  Both distances are 0 when the query point is inside
    the bar's box (within half a pixel); otherwise the primary distance is the
    distance [|q - position|] along x for a vertical plot and along y for a
    horizontal one, whether or not the point is within the bar's span on that
    axis, and the secondary distance is 0 within the bar's span on the other
    axis (within half a pixel) and the distance to the position otherwise. *)
Theorem entityNearest_lexicographic p (super_entities : list (Bar.Entity Datum))
    (qx qy : Q) :
  (∀ e, e ∈ Bar.entities p super_entities → Spec.finiteEntity e = true) →
  let q := Point.mk (Fin qx) (Fin qy) in
  let visible :=
    filter (λ e, Bar._isVisibleOnPlot p (Bar.datum e) (Bar.position e) (Bar.selection e)
                 = true) (Bar.entities p super_entities) in
  match Bar.entityNearest p super_entities q with
  | None => visible = []
  | Some e =>
      ∃ before after,
        visible = before ++ e :: after
        ∧ (∀ e', e' ∈ before →
             Spec.lexltb (Bar.distances p q e) (Bar.distances p q e') = true)
        ∧ (∀ e', e' ∈ after →
             Spec.lexltb (Bar.distances p q e') (Bar.distances p q e) = false)
  end
  ∧ ∀ e (px py boxX boxY boxW boxH : Q),
      Bar.position e = Point.mk (Fin px) (Fin py) →
      Bar.selection e = SVGRect.mk (Fin boxX) (Fin boxY) (Fin boxW) (Fin boxH) →
      let qP := if Bar._isVertical p then qx else qy in
      let qS := if Bar._isVertical p then qy else qx in
      let pP := if Bar._isVertical p then px else py in
      let pS := if Bar._isVertical p then py else px in
      let sMin := if Bar._isVertical p then boxY else boxX in
      let sLen := if Bar._isVertical p then boxH else boxW in
      let inside := Spec.overlapsWithin (1 # 2) qx qx qy qy boxX boxY boxW boxH in
      let inSpan := (sMin - (1 # 2) <= qS ∧ qS <= sMin + sLen + (1 # 2))%Q in
      (inside → Bar.distances p q e = (Fin 0, Fin 0))
      ∧ (¬ inside → inSpan → Bar.distances p q e = (Fin (Qabs (qP - pP)), Fin 0))
      ∧ (¬ inside → ¬ inSpan →
         Bar.distances p q e = (Fin (Qabs (qP - pP)), Fin (Qabs (qS - pS)))).
Proof.
  intros Hfin q visible. split.
  - unfold Bar.entityNearest.
    pose proof (nearest_fold p q (Bar.entities p super_entities)) as H.
    cbn zeta in H. fold visible in H.
    destruct (Bar.closest _) as [e|].
    + apply H. intros e' He'. by apply distances_finite, Hfin.
    + apply H. intros e' He'. by apply distances_finite, Hfin.
  - intros e px py boxX boxY boxW boxH Hpos Hsel. by apply distances_Fin.
Qed.

(** ** The position of an entity *)

Lemma projectorOf_width_super p :
  Bar.projectorOf (Bar.super_generateAttrToProjector p) "width"
  = Bar.evalBinding p (Bar._widthBinding p).
Proof.
  unfold Bar.projectorOf, Bar.super_generateAttrToProjector.
  by rewrite lookup_insert_eq.
Qed.

Lemma projectorOf_lookup (a : gmap string (Bar.Projector Datum)) (attr : string)
    (f : Bar.Projector Datum) :
  a !! attr = Some f → Bar.projectorOf a attr = f.
Proof. unfold Bar.projectorOf, Bar.Projector. by intros ->. Qed.

Ltac lookup_attr :=
  repeat first [rewrite lookup_insert_eq | rewrite lookup_insert_ne by done].

Lemma projectors_vertical p :
  Bar._isVertical p = true →
  let a := Bar._generateAttrToProjector p in
  let widthF := Bar.evalBinding p (Bar._widthBinding p) in
  Bar.projectorOf a "x"
  = (λ d i ds, sub (Bar.positionF p d i ds) (div (widthF d i ds) (Fin 2)))
  ∧ Bar.projectorOf a "y"
    = (λ d i ds,
         if gt (Bar.originalPositionFn p d i ds) (Fin (Bar.scaledBaseline p))
         then Fin (Bar.scaledBaseline p) else Bar.originalPositionFn p d i ds)
  ∧ Bar.projectorOf a "width" = widthF
  ∧ Bar.projectorOf a "height"
    = (λ d i ds, abs (sub (Fin (Bar.scaledBaseline p)) (Bar.originalPositionFn p d i ds))).
Proof.
  intros Hv a widthF. subst a widthF.
  rewrite <- projectorOf_width_super.
  repeat split; apply projectorOf_lookup;
    unfold Bar._generateAttrToProjector; rewrite Hv; by lookup_attr.
Qed.

Lemma projectors_horizontal p :
  Bar._isVertical p = false →
  let a := Bar._generateAttrToProjector p in
  let widthF := Bar.evalBinding p (Bar._widthBinding p) in
  Bar.projectorOf a "y"
  = (λ d i ds, sub (Bar.positionF p d i ds) (div (widthF d i ds) (Fin 2)))
  ∧ Bar.projectorOf a "x"
    = (λ d i ds,
         if gt (Bar.originalPositionFn p d i ds) (Fin (Bar.scaledBaseline p))
         then Fin (Bar.scaledBaseline p) else Bar.originalPositionFn p d i ds)
  ∧ Bar.projectorOf a "height" = widthF
  ∧ Bar.projectorOf a "width"
    = (λ d i ds, abs (sub (Fin (Bar.scaledBaseline p)) (Bar.originalPositionFn p d i ds))).
Proof.
  intros Hv a widthF. subst a widthF.
  rewrite <- projectorOf_width_super.
  repeat split; apply projectorOf_lookup;
    unfold Bar._generateAttrToProjector; rewrite Hv; by lookup_attr.
Qed.

Lemma ge_floor (a b : Q) :
  ge (floor (Fin a)) (floor (Fin b)) = true ↔ (Qfloor b ≤ Qfloor a)%Z.
Proof. simpl. rewrite ge_Fin. by rewrite <- Zle_Qle. Qed.

Lemma lt_floor (a b : Q) :
  lt (floor (Fin a)) (floor (Fin b)) = true ↔ (Qfloor a < Qfloor b)%Z.
Proof. simpl. rewrite lt_Fin. by rewrite <- Zlt_Qlt. Qed.

Lemma div_Fin_2 (w : Q) : div (Fin w) (Fin 2) = Fin (w / 2).
Proof. reflexivity. Qed.

Ltac entity_cbn :=
  cbn [SVGRect.x SVGRect.y SVGRect.width SVGRect.height Point.x Point.y
       andb negb add sub neg abs].

(** C10, amended.  For a drawn bar with finite geometry, in both
    orientations, the position [entities] reports is at the midpoint of the
    bar along the secondary axis, and along the primary axis at the raw scaled
    value (the value end of the bar) whenever the value is not before the
    baseline or lies in an earlier whole pixel than the baseline; when the
    value is before the baseline within the same whole pixel, the comparison
    of the floored coordinates puts the position on the scaled baseline. *)
Theorem entity_position_value_end p (super_entities : list (Bar.Entity Datum)) e
    (r c w : Q) :
  Bar._projectorsReady p = true →
  e ∈ super_entities →
  Bar.isRendered p e →
  Bar.originalPositionFn p (Bar.datum e) (Bar.index e) (Bar.dataset e) = Fin r →
  Bar.positionF p (Bar.datum e) (Bar.index e) (Bar.dataset e) = Fin c →
  Bar.evalBinding p (Bar._widthBinding p) (Bar.datum e) (Bar.index e) (Bar.dataset e)
  = Fin w →
  let sb := Bar.scaledBaseline p in
  let e' := Bar.movePosition p e in
  let bar := Bar.selection e' in
  e' ∈ Bar.entities p super_entities
  ∧ ∃ vP vS : Q,
      (if Bar._isVertical p then Point.y (Bar.position e') else Point.x (Bar.position e'))
      = Fin vP
      ∧ (if Bar._isVertical p then Point.x (Bar.position e') else Point.y (Bar.position e'))
        = Fin vS
      ∧ (if Bar._isVertical p then SVGRect.x bar else SVGRect.y bar) = Fin (c - w / 2)
      ∧ (if Bar._isVertical p then SVGRect.width bar else SVGRect.height bar) = Fin w
      ∧ (vS == (c - w / 2) + w / 2)%Q
      ∧ ((sb <= r)%Q ∨ (Qfloor r < Qfloor sb)%Z → (vP == r)%Q)
      ∧ ((r < sb)%Q → Qfloor r = Qfloor sb → (vP == sb)%Q).
Proof.
  intros Hready Hin [Hpos Hsel] Hr Hc Hw sb e' bar.
  split.
  { unfold Bar.entities. rewrite Hready. simpl. by apply list_elem_of_fmap_2. }
  subst e' bar. unfold Bar.movePosition, Bar.set_position.
  cbn [Bar.position Bar.selection].
  rewrite Hpos, Hsel. unfold Bar._pixelPoint.
  destruct (Bar._isVertical p) eqn:Hv.
  - destruct (projectors_vertical p Hv) as (-> & -> & -> & ->).
    rewrite Hr, Hc, Hw, gt_Fin_Qltb, !div_Fin_2. fold sb.
    destruct (Utils.Qltb sb r) eqn:Hlt; entity_cbn.
    + apply Qltb_lt in Hlt.
      assert (ge (floor (Fin sb)) (floor (Fin sb)) = true) as ->
        by (apply ge_floor; lia).
      entity_cbn. eexists _, _. do 4 (split; [reflexivity|]).
      split; [reflexivity|]. split.
      * intros _. apply Qabs_case; intros; lra.
      * intros ?; lra.
    + assert (r <= sb)%Q as Hle.
      { apply Qnot_lt_le. intros H. apply Qltb_lt in H. congruence. }
      pose proof (Qfloor_resp_le _ _ Hle) as Hfl.
      destruct (ge (floor (Fin r)) (floor (Fin sb))) eqn:Hge; entity_cbn.
      * apply ge_floor in Hge.
        eexists _, _. do 4 (split; [reflexivity|]).
        split; [reflexivity|]. split.
        -- intros [?|?]; [|lia]. apply Qabs_case; intros; lra.
        -- intros _ _. apply Qabs_case; intros; lra.
      * assert (Qfloor r < Qfloor sb)%Z as Hfl'.
        { destruct (Z_lt_le_dec (Qfloor r) (Qfloor sb)) as [|Hc']; [done|].
          apply ge_floor in Hc'. congruence. }
        eexists _, _. do 4 (split; [reflexivity|]).
        split; [reflexivity|]. split.
        -- reflexivity.
        -- intros _ ?. lia.
  - destruct (projectors_horizontal p Hv) as (-> & -> & -> & ->).
    rewrite Hr, Hc, Hw, gt_Fin_Qltb, !div_Fin_2. fold sb.
    destruct (Utils.Qltb sb r) eqn:Hlt; entity_cbn.
    + apply Qltb_lt in Hlt.
      assert (lt (floor (Fin sb)) (floor (Fin sb)) = false) as ->.
      { apply not_true_iff_false. rewrite lt_floor. lia. }
      entity_cbn. eexists _, _. do 4 (split; [reflexivity|]).
      split; [reflexivity|]. split.
      * intros _. apply Qabs_case; intros; lra.
      * intros ?; lra.
    + assert (r <= sb)%Q as Hle.
      { apply Qnot_lt_le. intros H. apply Qltb_lt in H. congruence. }
      pose proof (Qfloor_resp_le _ _ Hle) as Hfl.
      destruct (lt (floor (Fin r)) (floor (Fin sb))) eqn:Hge; entity_cbn.
      * apply lt_floor in Hge.
        eexists _, _. do 4 (split; [reflexivity|]).
        split; [reflexivity|]. split.
        -- intros _. apply Qabs_case; intros; lra.
        -- intros _ ?. lia.
      * assert (Qfloor r = Qfloor sb)%Z as Hfl'.
        { destruct (Z_lt_le_dec (Qfloor r) (Qfloor sb)) as [Hc'|Hc']; [|lia].
          apply lt_floor in Hc'. congruence. }
        eexists _, _. do 4 (split; [reflexivity|]).
        split; [reflexivity|]. split.
        -- intros [?|?]; [|lia]. apply Qabs_case; intros; lra.
        -- intros _ _. apply Qabs_case; intros; lra.
Qed.
End BarQueries.

(** ** Stack offsets *)

Section Stacking.
Context {Datum Value : Type}.
Variable toString : Value → string.
Variable toNumber : Value → Q.
Variable isNull : Value → bool.
Implicit Types (p q : StackedArea.t Datum Value).

(** The plot after the given warnings. *)
Lemma warn_fields msg q :
  StackedArea._isVertical (StackedArea.warn msg q) = StackedArea._isVertical q
  ∧ StackedArea._projectors (StackedArea.warn msg q) = StackedArea._projectors q
  ∧ StackedArea._datasetKeysInOrder (StackedArea.warn msg q)
    = StackedArea._datasetKeysInOrder q
  ∧ StackedArea._key2DatasetDrawerKey (StackedArea.warn msg q)
    = StackedArea._key2DatasetDrawerKey q
  ∧ StackedArea.console (StackedArea.warn msg q) = StackedArea.console q ++ [msg].
Proof. done. Qed.







End Stacking.

(** ** The theorems at concrete plots *)

Lemma baseline_invariant_witness :
  (∃ (positionF lengthF : Bar.Projector Examples.Datum) (primaryOffset length : Q),
     Bar._generateAttrToProjector Examples.scenario !! "y" = Some positionF
     ∧ Bar._generateAttrToProjector Examples.scenario !! "height" = Some lengthF
     ∧ positionF (2%Q, Some (-3)%Q) 1%nat Examples.scenarioData = Fin primaryOffset
     ∧ lengthF (2%Q, Some (-3)%Q) 1%nat Examples.scenarioData = Fin length
     ∧ Spec.spansFromBaseline (Bar.scaledBaseline Examples.scenario)
         ((-25 # 2) * -3 + (125 # 2))%Q primaryOffset length)
  ∧ (∃ (yF heightF : BarRenderer.Projector Examples.Datum) (y height : Q),
       BarRenderer._paint_attrToProjector Examples.renderer !! "y" = Some yF
       ∧ BarRenderer._paint_attrToProjector Examples.renderer !! "height" = Some heightF
       ∧ yF (2%Q, Some (-3)%Q) 1%nat = Fin y
       ∧ heightF (2%Q, Some (-3)%Q) 1%nat = Fin height
       ∧ Spec.spansFromBaseline ((-25 # 2) * 0 + (125 # 2))%Q
           ((-25 # 2) * -3 + (125 # 2))%Q y height).
Proof.
  split.
  - exact (proj1 (@baseline_invariant Examples.Datum) Examples.scenario
             (2%Q, Some (-3)%Q) 1%nat Examples.scenarioData _ eq_refl).
  - exact (proj2 (@baseline_invariant Examples.Datum) Examples.renderer
             (2%Q, Some (-3)%Q) 1%nat _ eq_refl).
Defined.

Lemma configuration_errors_throw_witness :
  Bar.constructor (λ _, Bar.render) Examples.scenario (Some "diagonal")
  = Throw "diagonal is not a valid orientation for Plots.Bar"
  ∧ DragBoxLayer.detectionRadius DragBoxLayer.constructor (Some (Fin (-1)))
    = (Throw "detection radius cannot be negative.", DragBoxLayer.constructor)
  ∧ BarRenderer.barAlignment Examples.renderer "Middle"
    = (Throw "unsupported bar alignment", Examples.renderer).
Proof.
  split; [|split].
  - apply (proj1 (@configuration_errors_throw Examples.Datum)); discriminate.
  - apply (proj1 (proj2 (@configuration_errors_throw Examples.Datum))). reflexivity.
  - apply (proj2 (proj2 (@configuration_errors_throw Examples.Datum))); discriminate.
Defined.

Lemma data_to_draw_finite_witness :
  ∃ indices : list nat,
    StronglySorted Nat.lt indices
    ∧ Forall2 (λ i d, Examples.gappyData !! i = Some d) indices
        [(1%Q, Some 5%Q); (3%Q, Some 0%Q)]
    ∧ ∀ i, i ∈ indices ↔
        ∃ d, Examples.gappyData !! i = Some d
             ∧ let a := Bar._generateAttrToProjector Examples.gappy in
               Spec.allFinite (Bar.projectorOf a "x" d i Examples.gappyData)
                 (Bar.projectorOf a "y" d i Examples.gappyData)
                 (Bar.projectorOf a "width" d i Examples.gappyData)
                 (Bar.projectorOf a "height" d i Examples.gappyData).
Proof.
  apply (proj2 (data_to_draw_finite Examples.gappy) Examples.gappyData
           [(1%Q, Some 5%Q); (3%Q, Some 0%Q)]).
  left.
Defined.

(** C10, as stated, fails for a bar shorter than a pixel: the value is at
    pixel 10.2 and the baseline at 10.7, the bar is the rectangle from 10.2
    to 10.7, and the reported position is 10.7, the baseline end. *)
Lemma entity_position_counterexample :
  Bar.isRendered Examples.subpixel Examples.subpixelEntity
  ∧ ∃ e',
      Bar.entities Examples.subpixel [Examples.subpixelEntity] = [e']
      ∧ seq (Bar.originalPositionFn Examples.subpixel Examples.subpixelDatum 0
               [Examples.subpixelDatum]) (Fin (102 # 10)) = true
      ∧ seq (Fin (Bar.scaledBaseline Examples.subpixel)) (Fin (107 # 10)) = true
      ∧ seq (SVGRect.y (Bar.selection e')) (Fin (102 # 10)) = true
      ∧ seq (SVGRect.height (Bar.selection e')) (Fin (5 # 10)) = true
      ∧ seq (Point.y (Bar.position e')) (Fin (107 # 10)) = true
      ∧ seq (Point.y (Bar.position e')) (Fin (102 # 10)) = false.
Proof.
  split; [by split|].
  eexists. split; [reflexivity|]. by vm_compute.
Qed.

Lemma entity_position_value_end_witness :
  let e' := Bar.movePosition Examples.scenario Examples.scenarioEntity in
  e' ∈ Bar.entities Examples.scenario [Examples.scenarioEntity]
  ∧ ∃ vP vS : Q,
      Point.y (Bar.position e') = Fin vP
      ∧ Point.x (Bar.position e') = Fin vS
      ∧ SVGRect.x (Bar.selection e')
        = Fin ((50 * 1 + -50) - Bar._getBarPixelWidth Examples.scenario / 2)
      ∧ SVGRect.width (Bar.selection e') = Fin (Bar._getBarPixelWidth Examples.scenario)
      ∧ (vS == ((50 * 1 + -50) - Bar._getBarPixelWidth Examples.scenario / 2)
               + Bar._getBarPixelWidth Examples.scenario / 2)%Q
      ∧ ((Bar.scaledBaseline Examples.scenario <= (-25 # 2) * 5 + (125 # 2))%Q
         ∨ (Qfloor ((-25 # 2) * 5 + (125 # 2))
            < Qfloor (Bar.scaledBaseline Examples.scenario))%Z
         → (vP == (-25 # 2) * 5 + (125 # 2))%Q)
      ∧ (((-25 # 2) * 5 + (125 # 2) < Bar.scaledBaseline Examples.scenario)%Q →
         Qfloor ((-25 # 2) * 5 + (125 # 2)) = Qfloor (Bar.scaledBaseline Examples.scenario) →
         (vP == Bar.scaledBaseline Examples.scenario)%Q).
Proof.
  apply (entity_position_value_end Examples.scenario [Examples.scenarioEntity]
           Examples.scenarioEntity).
  - reflexivity.
  - left.
  - split; reflexivity.
  - reflexivity.
  - reflexivity.
  - reflexivity.
Defined.

(** C2, as stated, fails: the query point (11, 10) is above the two
    overlapping bars and within the x span of both.  With a distance of 0
    within a span, bar B (30 pixels away along y, against 70 for bar A) has
    the smaller pair of distances, whichever axis is taken as primary; the
    plot returns bar A, whose position is nearer along x. *)
Lemma entityNearest_counterexample :
  let q := Point.mk (Fin 11) (Fin 10) in
  let supers := [Examples.entityA; Examples.entityB] in
  ∃ a b,
    Bar.entities Examples.overlapping supers = [a; b]
    ∧ Bar._isVisibleOnPlot Examples.overlapping (Bar.datum a) (Bar.position a)
        (Bar.selection a) = true
    ∧ Bar._isVisibleOnPlot Examples.overlapping (Bar.datum b) (Bar.position b)
        (Bar.selection b) = true
    ∧ Bar.entityNearest Examples.overlapping supers q = Some a
    ∧ ∀ primaryIsX : bool,
        Spec.lexltb (Spec.distancePair primaryIsX q b) (Spec.distancePair primaryIsX q a)
        = true.
Proof.
  eexists _, _. split; [reflexivity|].
  split; [by vm_compute|]. split; [by vm_compute|]. split; [by vm_compute|].
  intros []; by vm_compute.
Qed.

Lemma entityNearest_lexicographic_witness :
  let p := Examples.overlapping in
  let supers := [Examples.entityA; Examples.entityB] in
  let q := Point.mk (Fin 11) (Fin 10) in
  let visible :=
    filter (λ e, Bar._isVisibleOnPlot p (Bar.datum e) (Bar.position e) (Bar.selection e)
                 = true) (Bar.entities p supers) in
  match Bar.entityNearest p supers q with
  | None => visible = []
  | Some e =>
      ∃ before after,
        visible = before ++ e :: after
        ∧ (∀ e', e' ∈ before →
             Spec.lexltb (Bar.distances p q e) (Bar.distances p q e') = true)
        ∧ (∀ e', e' ∈ after →
             Spec.lexltb (Bar.distances p q e') (Bar.distances p q e) = false)
  end
  ∧ ∀ e (px py boxX boxY boxW boxH : Q),
      Bar.position e = Point.mk (Fin px) (Fin py) →
      Bar.selection e = SVGRect.mk (Fin boxX) (Fin boxY) (Fin boxW) (Fin boxH) →
      let inside := Spec.overlapsWithin (1 # 2) 11 11 10 10 boxX boxY boxW boxH in
      let inSpan := (boxY - (1 # 2) <= 10 ∧ 10 <= boxY + boxH + (1 # 2))%Q in
      (inside → Bar.distances p q e = (Fin 0, Fin 0))
      ∧ (¬ inside → inSpan → Bar.distances p q e = (Fin (Qabs (11 - px)), Fin 0))
      ∧ (¬ inside → ¬ inSpan →
         Bar.distances p q e = (Fin (Qabs (11 - px)), Fin (Qabs (10 - py)))).
Proof.
  apply (entityNearest_lexicographic Examples.overlapping
           [Examples.entityA; Examples.entityB] 11 10).
  intros e He.
  apply elem_of_cons in He as [->|He]; [reflexivity|].
  apply elem_of_cons in He as [->|He]; [reflexivity|].
  by apply elem_of_nil in He.
Defined.

Lemma half_pixel_tolerance_witness :
  let p := Examples.overlapping in
  let supers := [Examples.entityA; Examples.entityB] in
  let e := Bar.movePosition p Examples.entityA in
  let boxX := (10 - 20 / 2)%Q in
  let boxY := 80%Q in
  let boxW := 20%Q in
  let boxH := Qabs (100 - 80) in
  (∀ qx qy px py : Q,
     Bar.position e = Point.mk (Fin px) (Fin py) →
     let q := Point.mk (Fin qx) (Fin qy) in
     let inside := Spec.overlapsWithin (1 # 2) qx qx qy qy boxX boxY boxW boxH in
     let inSpan := (boxY - (1 # 2) <= qy ∧ qy <= boxY + boxH + (1 # 2))%Q in
     (inside → Bar.distances p q e = (Fin 0, Fin 0))
     ∧ (inSpan → (Bar.distances p q e).2 = Fin 0)
     ∧ ∃ primaryDist secondaryDist : Q,
         Bar.distances p q e = (Fin primaryDist, Fin secondaryDist)
         ∧ (primaryDist == 0 ↔ inside ∨ qx == px)%Q
         ∧ (secondaryDist == 0 ↔ inSpan ∨ qy == py)%Q)
  ∧ (∀ qx qy : Q,
       e ∈ Bar.entitiesAt p supers (Point.mk (Fin qx) (Fin qy))
       ↔ e ∈ Bar.entities p supers
         ∧ Spec.overlapsWithin (1 # 2) qx qx qy qy boxX boxY boxW boxH)
  ∧ (∀ xMin xMax yMin yMax : Q,
       let xRange := Range.mk (Fin xMin) (Fin xMax) in
       let yRange := Range.mk (Fin yMin) (Fin yMax) in
       let bounds := Bounds.mk (Point.mk (Fin xMin) (Fin yMin))
                       (Point.mk (Fin xMax) (Fin yMax)) in
       (e ∈ Bar.entitiesIn p supers (inr (xRange, yRange))
        ↔ e ∈ Bar.entities p supers
          ∧ Spec.overlapsWithin (1 # 2) xMin xMax yMin yMax boxX boxY boxW boxH)
       ∧ (e ∈ Bar.entitiesIn p supers (inl bounds)
          ↔ e ∈ Bar.entities p supers
            ∧ Spec.overlapsWithin (1 # 2) xMin xMax yMin yMax boxX boxY boxW boxH))
  ∧ (Bar._isVisibleOnPlot p (Bar.datum e) (Bar.position e) (Bar.selection e) = true
     ↔ Spec.overlapsWithin (1 # 2) 0 100 0 100 boxX boxY boxW boxH).
Proof.
  exact (half_pixel_tolerance Examples.overlapping
           [Examples.entityA; Examples.entityB]
           (Bar.movePosition Examples.overlapping Examples.entityA)
           (10 - 20 / 2) 80 20 (Qabs (100 - 80)) eq_refl).
Defined.

Lemma bar_pixel_width_solve_witness :
  (Bar._getBarPixelWidth Examples.scenario
   == Spec.solveWidth (λ v, 50 * v + -50) [1; 2; 3] 100 Bar._BAR_WIDTH_RATIO)%Q
  ∧ (Bar._BAR_WIDTH_RATIO < 1)%Q
  ∧ StronglySorted Qlt (Bar.numberBarAccessorData Examples.scenario)
  ∧ (∀ v, InA Qeq v (Bar.numberBarAccessorData Examples.scenario)
          ↔ InA Qeq v (Bar.barAccessorValues Examples.scenario)).
Proof.
  apply (bar_pixel_width_solve Examples.scenario (λ v, 50 * v + -50)%Q [1; 2; 3]%Q).
  - reflexivity.
  - reflexivity.
  - intros a b Hab. by rewrite Hab.
  - repeat constructor.
  - intros v. reflexivity.
Defined.

(** C4, as stated, fails: two distinct domain values that scale to the same
    pixel give a candidate width of 0, and the solved width is 0. *)
Lemma bar_pixel_width_counterexample :
  Bar.numberBarAccessorData Examples.degenerate = [1%Q; 2%Q]
  ∧ (Bar._getBarPixelWidth Examples.degenerate == 0)%Q
  ∧ ¬ (0 < Bar._getBarPixelWidth Examples.degenerate)%Q.
Proof.
  split; [reflexivity|]. split; [reflexivity|]. by vm_compute.
Qed.

Lemma bar_pixel_width_degenerate_witness :
  let values := Bar.numberBarAccessorData Examples.degenerate in
  ((0 <= 100)%Q → (0 <= Bar._getBarPixelWidth Examples.degenerate)%Q)
  ∧ (∀ (i : nat) (a b : Q),
       values !! i = Some a → values !! S i = Some b →
       (50 == 50)%Q →
       (Bar._getBarPixelWidth Examples.degenerate == 0)%Q)
  ∧ (length values = 1%nat → (0 < 100)%Q →
     (0 < Bar._getBarPixelWidth Examples.degenerate)%Q).
Proof.
  apply (bar_pixel_width_degenerate Examples.degenerate (λ _, 50%Q)); reflexivity.
Defined.



(** The scenario of section 8: the bottom dataset has the keys a and b,
    the top dataset a, b and c.  The call returns, the one warning names the
    bottom dataset, the offsets of the bottom dataset are 0, and those of the
    top dataset are 1 and 2, and 0 at the key c the bottom dataset lacks. *)
Example updateStackOffsets_missing_c :
  ∃ p',
    StackedArea._updateStackOffsets Examples.toString Examples.toNumber Examples.isNull
      Examples.stacked
    = (Return (), p')
    ∧ StackedArea.console p'
      = ["dataset _0 does not contain all domain keys.  Plot may have unintended behavior."]
    ∧ ((λ offsets : gmap string Q, (λ k, offsets !! k) <$> ["a"; "b"; "c"])
         <$> StackedArea.stackOffsets p')
      = [[Some 0%Q; Some 0%Q; Some 0%Q]; [Some (0 + 1)%Q; Some (0 + 2)%Q; Some 0%Q]].
Proof.
  eexists. split; [reflexivity|]. split; [by vm_compute|]. by vm_compute.
Qed.

(** ** The scenarios of section 8, evaluated *)

(** Three data points with the values 5, -3 and 0, baseline 0, vertical:
    the baseline is at pixel 62.5; bar 1 starts at the raw value and has the
    length [scaledBaseline - scale(5)], bar 2 starts at the scaled baseline,
    and bar 3 has length 0. *)
Example scenario_bars :
  let a := Bar._generateAttrToProjector Examples.scenario in
  let y := λ d i, Bar.projectorOf a "y" d i Examples.scenarioData in
  let height := λ d i, Bar.projectorOf a "height" d i Examples.scenarioData in
  seq (Fin (Bar.scaledBaseline Examples.scenario)) (Fin (125 # 2)) = true
  ∧ seq (y (1%Q, Some 5%Q) 0%nat) (Fin 0) = true
  ∧ seq (height (1%Q, Some 5%Q) 0%nat) (Fin ((125 # 2) - 0)) = true
  ∧ seq (y (2%Q, Some (-3)%Q) 1%nat) (Fin (125 # 2)) = true
  ∧ seq (height (2%Q, Some (-3)%Q) 1%nat) (Fin (75 # 2)) = true
  ∧ seq (height (3%Q, Some 0%Q) 2%nat) (Fin 0) = true.
Proof. by vm_compute. Qed.

(** The alignment is compared in lower case: "Right" sets the alignment
    "right" and renders. *)
Example barAlignment_lower_case :
  ∃ R,
    BarRenderer.barAlignment Examples.renderer "Right" = (Return (), R)
    ∧ BarRenderer._barAlignment R = "right"
    ∧ BarRenderer.renderCount R = 1%nat.
Proof. eexists. by split. Qed.

(** A radius that is not negative is stored, and the layer renders. *)
Example detectionRadius_accepts :
  DragBoxLayer.detectionRadius DragBoxLayer.constructor (Some (Fin 5))
  = (Return (inr ()),
     {| DragBoxLayer._detectionRadius := Fin 5; DragBoxLayer._resizable := false;
        DragBoxLayer._hasCorners := true; DragBoxLayer.renderRequests := 1 |}).
Proof. reflexivity. Qed.

(** * Further properties of the code *)

(** ** The solved bar width *)

Lemma largest_ge_all (v : Q) (l : list Q) :
  (v <= Spec.largest v l)%Q ∧ Forall (λ x, x <= Spec.largest v l)%Q l.
Proof.
  revert v. induction l as [|a l IH]; intros v; simpl; [split; [lra|constructor]|].
  destruct (IH a) as [Ha Hl].
  pose proof (Q.le_max_l v (Spec.largest a l)) as Hv.
  pose proof (Q.le_max_r v (Spec.largest a l)) as Hs.
  split; [done|]. constructor; [lra|].
  eapply Forall_impl; [exact Hl|]. intros x Hx. simpl in Hx. lra.
Qed.

Lemma smallest_gt (bound v : Q) (l : list Q) :
  (bound < v)%Q → Forall (Qlt bound) l → (bound < Spec.smallest v l)%Q.
Proof.
  intros Hv Hl. revert v Hv. induction Hl as [|a l Ha Hl IH]; intros v Hv; simpl; [done|].
  specialize (IH a Ha).
  destruct (Q.min_spec v (Spec.smallest a l)) as [[? ->]|[? ->]]; lra.
Qed.

Lemma largest_lt (bound v : Q) (l : list Q) :
  (v < bound)%Q → Forall (λ x, x < bound)%Q l → (Spec.largest v l < bound)%Q.
Proof.
  intros Hv Hl. revert v Hv. induction Hl as [|a l Ha Hl IH]; intros v Hv; simpl; [done|].
  specialize (IH a Ha).
  destruct (Q.max_spec v (Spec.largest a l)) as [[? ->]|[? ->]]; lra.
Qed.

Lemma clamps_le (scaled : list Q) (extent c : Q) :
  (Spec.clampAtMaximum scaled extent (Spec.clampAtMinimum scaled c) <= c)%Q.
Proof.
  unfold Spec.clampAtMaximum, Spec.clampAtMinimum.
  destruct scaled as [|s rest]; [lra|]. cbv zeta.
  set (m := Spec.smallest s rest). set (M := Spec.largest s rest).
  pose proof (Q.le_min_l c (2 * m)).
  pose proof (Q.le_min_l (Qmin c (2 * m)) (2 * (extent - M))).
  pose proof (Q.le_min_l c (2 * (extent - M))).
  destruct (Qlt_le_dec 0 m), (Qlt_le_dec M extent); lra.
Qed.

Lemma clamps_at_most (s : Q) (rest : list Q) (extent c : Q) :
  let m := Spec.smallest s rest in
  let M := Spec.largest s rest in
  let clamped :=
    Spec.clampAtMaximum (s :: rest) extent (Spec.clampAtMinimum (s :: rest) c) in
  ((0 < m)%Q → (clamped <= 2 * m)%Q)
  ∧ ((M < extent)%Q → (clamped <= 2 * (extent - M))%Q).
Proof.
  intros m M clamped. subst clamped. unfold Spec.clampAtMaximum, Spec.clampAtMinimum.
  cbv zeta. fold m M.
  pose proof (Q.le_min_r c (2 * m)).
  pose proof (Q.le_min_l (Qmin c (2 * m)) (2 * (extent - M))).
  pose proof (Q.le_min_r (Qmin c (2 * m)) (2 * (extent - M))).
  pose proof (Q.le_min_r c (2 * (extent - M))).
  destruct (Qlt_le_dec 0 m), (Qlt_le_dec M extent); split; intros; lra.
Qed.

Section BarWidthMore.
Context {Datum : Type}.
Implicit Types (p : Bar.Plot Datum).

(** X1. With a quantitative scale, the solved width is at most 0.95 of the
    pixel gap of every two neighbours in the ascending list of distinct
    domain values, so that two bars of that width centred on the scaled
    values of neighbours do not overlap. *)
Theorem adjacent_bars_do_not_overlap p (barScale_scale : Q → Q) (i : nat) (a b : Q) :
  Bar._projectorsReady p = true →
  (if Bar._isVertical p then Bar.scale (Bar.x p) else Bar.scale (Bar.y p))
  = Bar.Quantitative barScale_scale →
  Bar.numberBarAccessorData p !! i = Some a →
  Bar.numberBarAccessorData p !! S i = Some b →
  let w := Bar._getBarPixelWidth p in
  (w <= (95 # 100) * Qabs (barScale_scale b - barScale_scale a))%Q
  ∧ ((barScale_scale a + w / 2 <= barScale_scale b - w / 2)%Q
     ∨ (barScale_scale b + w / 2 <= barScale_scale a - w / 2)%Q).
Proof.
  intros Hready Hscale Ha Hb w.
  pose proof (getBarPixelWidth_quantitative p barScale_scale Hready Hscale) as Hw.
  fold w in Hw. unfold Spec.solveWidth, Bar._BAR_WIDTH_RATIO in Hw.
  set (values := Bar.numberBarAccessorData p) in *.
  set (extent := if Bar._isVertical p then Bar.width p else Bar.height p) in *.
  set (c := Spec.candidateWidth barScale_scale values extent) in *.
  pose proof (clamps_le (barScale_scale <$> values) extent c) as Hclamp.
  assert (c <= Qabs (barScale_scale b - barScale_scale a))%Q as Hc.
  { unfold c, Spec.candidateWidth.
    pose proof (adjacentGaps_lookup barScale_scale values i a b Ha Hb) as Hgap.
    destruct (Spec.adjacentGaps barScale_scale values) as [|g gs]; [done|].
    destruct (smallest_le g gs) as [Hfirst Hrest].
    destruct i as [|i].
    - change (Some g = Some (Qabs (barScale_scale b - barScale_scale a))) in Hgap.
      assert (g = Qabs (barScale_scale b - barScale_scale a)) as Hg by congruence.
      by rewrite <- Hg.
    - change (gs !! i = Some (Qabs (barScale_scale b - barScale_scale a))) in Hgap.
      rewrite Forall_forall in Hrest.
      exact (Hrest _ (list_elem_of_lookup_2 _ _ _ Hgap)). }
  assert (w <= (95 # 100) * Qabs (barScale_scale b - barScale_scale a))%Q as Hle by lra.
  split; [done|].
  pose proof (Qabs_nonneg (barScale_scale b - barScale_scale a)) as Hnn.
  change (w / 2)%Q with (w * (1 # 2))%Q.
  revert Hle Hnn. apply Qabs_case; intros; [left|right]; lra.
Qed.

(** X2. With a quantitative scale, when every scaled domain value is positive
    the bar centred on any of them starts after pixel 0, and when every scaled
    value is below the available extent the bar ends before the extent: the
    two clamps keep the bars inside the plot. *)
Theorem bars_stay_inside_plot p (barScale_scale : Q → Q) (s : Q) :
  Bar._projectorsReady p = true →
  (if Bar._isVertical p then Bar.scale (Bar.x p) else Bar.scale (Bar.y p))
  = Bar.Quantitative barScale_scale →
  let scaled := barScale_scale <$> Bar.numberBarAccessorData p in
  let availableExtent := if Bar._isVertical p then Bar.width p else Bar.height p in
  let w := Bar._getBarPixelWidth p in
  s ∈ scaled →
  (Forall (Qlt 0) scaled → (0 < s - w / 2)%Q)
  ∧ (Forall (λ v, v < availableExtent)%Q scaled → (s + w / 2 < availableExtent)%Q).
Proof.
  intros Hready Hscale scaled extent w Hs.
  pose proof (getBarPixelWidth_quantitative p barScale_scale Hready Hscale) as Hw.
  fold w extent in Hw. unfold Spec.solveWidth, Bar._BAR_WIDTH_RATIO in Hw. fold scaled in Hw.
  set (c := Spec.candidateWidth barScale_scale (Bar.numberBarAccessorData p) extent) in *.
  destruct scaled as [|s0 rest] eqn:E; [by apply elem_of_nil in Hs|].
  destruct (clamps_at_most s0 rest extent c) as [Hlow Hhigh].
  destruct (smallest_le s0 rest) as [Hm0 Hm].
  destruct (largest_ge_all s0 rest) as [HM0 HM].
  rewrite Forall_forall in Hm, HM.
  change (w / 2)%Q with (w * (1 # 2))%Q.
  split; intros Hall; apply Forall_cons in Hall as [H0 Hrest].
  - specialize (Hlow (smallest_gt 0 s0 rest H0 Hrest)).
    pose proof (smallest_gt 0 s0 rest H0 Hrest).
    apply elem_of_cons in Hs as [->|Hs]; [lra|].
    specialize (Hm _ Hs). simpl in Hm. lra.
  - specialize (Hhigh (largest_lt extent s0 rest H0 Hrest)).
    pose proof (largest_lt extent s0 rest H0 Hrest).
    apply elem_of_cons in Hs as [->|Hs]; [lra|].
    specialize (HM _ Hs). simpl in HM. lra.
Qed.

(** X3. The solved width depends on the data only through the set of their
    domain values: two plots with the same quantitative scale and the same
    available extent whose data have the same values (in any order, with any
    repetitions) get the same width. *)
Theorem bar_width_depends_on_value_set p p' (barScale_scale : Q → Q) :
  Bar._projectorsReady p = true →
  Bar._projectorsReady p' = true →
  (if Bar._isVertical p then Bar.scale (Bar.x p) else Bar.scale (Bar.y p))
  = Bar.Quantitative barScale_scale →
  (if Bar._isVertical p' then Bar.scale (Bar.x p') else Bar.scale (Bar.y p'))
  = Bar.Quantitative barScale_scale →
  Proper (Qeq ==> Qeq) barScale_scale →
  (if Bar._isVertical p then Bar.width p else Bar.height p)
  = (if Bar._isVertical p' then Bar.width p' else Bar.height p') →
  (∀ v, InA Qeq v (Bar.barAccessorValues p) ↔ InA Qeq v (Bar.barAccessorValues p')) →
  (Bar._getBarPixelWidth p == Bar._getBarPixelWidth p')%Q.
Proof.
  intros Hready Hready' Hscale Hscale' Hproper Hextent Hvalues.
  rewrite (getBarPixelWidth_quantitative p barScale_scale Hready Hscale).
  rewrite (getBarPixelWidth_quantitative p' barScale_scale Hready' Hscale').
  rewrite Hextent. apply solveWidth_Forall2; [done|].
  apply sorted_unique; [apply numberBarAccessorData_sorted..|].
  intros v. by rewrite !numberBarAccessorData_InA.
Qed.
End BarWidthMore.

(** ** The geometry around a bar *)

Section BarGeometryMore.
Context {Datum : Type}.
Implicit Types (p : Bar.Plot Datum) (d : Datum) (i : nat) (ds : Bar.Dataset Datum).

Ltac number_cbn := cbn [add sub neg abs].

(** X4. For a datum with finite scaled values and a finite width,
    [_pixelPoint] is, along the secondary axis, the scaled secondary value
    itself (the middle of the bar), and along the primary axis the smaller of
    the raw value and the scaled baseline for a vertical plot (the top of the
    rectangle) and the larger of the two for a horizontal plot (its right
    side). *)
Theorem pixelPoint_coordinates p d i ds (r c w : Q) :
  Bar.originalPositionFn p d i ds = Fin r →
  Bar.positionF p d i ds = Fin c →
  Bar.evalBinding p (Bar._widthBinding p) d i ds = Fin w →
  ∃ vx vy : Q,
    Bar._pixelPoint p d i ds = Point.mk (Fin vx) (Fin vy)
    ∧ if Bar._isVertical p
      then (vx == c)%Q ∧ (vy == Qmin r (Bar.scaledBaseline p))%Q
      else (vx == Qmax r (Bar.scaledBaseline p))%Q ∧ (vy == c)%Q.
Proof.
  intros Hr Hc Hw. unfold Bar._pixelPoint.
  set (sb := Bar.scaledBaseline p).
  destruct (Bar._isVertical p) eqn:Hv.
  - destruct (projectors_vertical p Hv) as (-> & -> & -> & _).
    rewrite Hr, Hc, Hw, gt_Fin_Qltb, !div_Fin_2. fold sb.
    destruct (Utils.Qltb sb r) eqn:Hlt; number_cbn; eexists _, _;
      (split; [reflexivity|]); (split; [ring|]).
    + apply Qltb_lt in Hlt. symmetry. apply Q.min_r. lra.
    + symmetry. apply Q.min_l. apply Qnot_lt_le. intros H. apply Qltb_lt in H. congruence.
  - destruct (projectors_horizontal p Hv) as (-> & -> & -> & ->).
    rewrite Hr, Hc, Hw, gt_Fin_Qltb, !div_Fin_2. fold sb.
    destruct (Utils.Qltb sb r) eqn:Hlt; number_cbn; eexists _, _;
      (split; [reflexivity|]); (split; [|ring]).
    + apply Qltb_lt in Hlt. rewrite Q.max_l by lra. apply Qabs_case; intros; lra.
    + assert (r <= sb)%Q as Hle.
      { apply Qnot_lt_le. intros H. apply Qltb_lt in H. congruence. }
      rewrite Q.max_r by lra. apply Qabs_case; intros; lra.
Qed.

(** X5. The baseline [_additionalPaint] draws lies on the scaled baseline
    and spans the plot from 0 to its width (vertical plot) or height
    (horizontal plot); every bar of a datum with a finite raw value has one
    end on that line: its offset or its offset plus its length is the scaled
    baseline. *)
Theorem baseline_line_touches_bars p :
  let line := Bar.baselineAttr p in
  let sb := Bar.scaledBaseline p in
  (if Bar._isVertical p
   then Bar.y1 line = Fin sb ∧ Bar.y2 line = Fin sb
        ∧ Bar.x1 line = Fin 0 ∧ Bar.x2 line = Fin (Bar.width p)
   else Bar.x1 line = Fin sb ∧ Bar.x2 line = Fin sb
        ∧ Bar.y1 line = Fin 0 ∧ Bar.y2 line = Fin (Bar.height p))
  ∧ ∀ d i ds (r : Q),
      Bar.originalPositionFn p d i ds = Fin r →
      ∃ offset length : Q,
        Bar.projectorOf (Bar._generateAttrToProjector p) (Bar.positionAttr p) d i ds
        = Fin offset
        ∧ Bar.projectorOf (Bar._generateAttrToProjector p) (Bar.dimensionAttr p) d i ds
          = Fin length
        ∧ ((offset == sb)%Q ∨ (offset + length == sb)%Q).
Proof.
  intros line sb. split.
  - subst line. unfold Bar.baselineAttr. by destruct (Bar._isVertical p).
  - intros d i ds r Hr.
    pose proof (projectorOf_lookup _ _ _ (lookup_positionAttr p)) as Hposition.
    pose proof (projectorOf_lookup _ _ _ (lookup_dimensionAttr p)) as Hdimension.
    rewrite Hposition, Hdimension. cbv zeta. rewrite Hr, gt_Fin_Qltb. fold sb.
    destruct (Utils.Qltb sb r) eqn:Hlt; number_cbn;
      eexists _, _; (split; [reflexivity|]); (split; [reflexivity|]);
      [by left|right].
    assert (r <= sb)%Q as Hle.
    { apply Qnot_lt_le. intros H. apply Qltb_lt in H. congruence. }
    apply Qabs_case; intros; lra.
Qed.

(** X6. When the draw steps are a reset step and a main step, the two steps
    agree on every attribute other than the position and the dimension along
    the primary axis: the reset step keeps the place and the thickness of the
    bars along the secondary axis. *)
Theorem reset_step_keeps_other_attributes p (reset main : Bar.DrawStep Datum)
    (attr : string) :
  Bar._generateDrawSteps p = [reset; main] →
  attr ≠ Bar.positionAttr p → attr ≠ Bar.dimensionAttr p →
  Bar.attrToProjector reset !! attr = Bar.attrToProjector main !! attr.
Proof.
  unfold Bar._generateDrawSteps.
  destruct (Bar._dataChanged p && Bar._animate p); [|done].
  intros [= <- <-] Hp Hd. cbn [Bar.attrToProjector].
  rewrite lookup_insert_ne by done. by rewrite lookup_insert_ne by done.
Qed.

Lemma thickness_projector p :
  Bar.projectorOf (Bar._generateAttrToProjector p)
    (if Bar._isVertical p then "width" else "height")
  = Bar.evalBinding p (Bar._widthBinding p).
Proof.
  destruct (Bar._isVertical p) eqn:Hv.
  - by destruct (projectors_vertical p Hv) as (_ & _ & -> & _).
  - by destruct (projectors_horizontal p Hv) as (_ & _ & -> & _).
Qed.

(** X7. Whatever else the [attr] of the base class does, as long as it
    leaves the orientation, the baseline value, the scales, the datasets and
    the width binding of the plot alone and takes back no render request:
    with no orientation, or with "vertical" or "horizontal", the constructor
    returns a plot that is vertical unless "horizontal" was given, has the
    baseline value 0 and the scales, accessors and datasets of the base
    object, and has been asked to render at least once, by
    [baselineValue(0)]; the thickness of every bar is the solved bar
    width. *)
Theorem constructor_configures p (super_attr : string → Bar.Plot Datum → Bar.Plot Datum)
    (orientation : option string) :
  (∀ attr q,
     Bar._isVertical (super_attr attr q) = Bar._isVertical q
     ∧ Bar._baselineValue (super_attr attr q) = Bar._baselineValue q
     ∧ Bar.x (super_attr attr q) = Bar.x q ∧ Bar.y (super_attr attr q) = Bar.y q
     ∧ Bar.datasets (super_attr attr q) = Bar.datasets q
     ∧ Bar._widthBinding (super_attr attr q) = Bar._widthBinding q
     ∧ (Bar.renderRequests q ≤ Bar.renderRequests (super_attr attr q))%nat) →
  orientation = None ∨ orientation = Some "vertical" ∨ orientation = Some "horizontal" →
  ∃ plot,
    Bar.constructor super_attr p orientation = Return plot
    ∧ Bar._isVertical plot = negb (bool_decide (orientation = Some "horizontal"))
    ∧ Bar._baselineValue plot = 0%Q
    ∧ (S (Bar.renderRequests p) ≤ Bar.renderRequests plot)%nat
    ∧ Bar.x plot = Bar.x p ∧ Bar.y plot = Bar.y p ∧ Bar.datasets plot = Bar.datasets p
    ∧ ∀ d i ds,
        Bar.projectorOf (Bar._generateAttrToProjector plot)
          (if Bar._isVertical plot then "width" else "height") d i ds
        = Fin (Bar._getBarPixelWidth plot).
Proof.
  intros Hattr Horientation.
  set (configured :=
         Bar.render
           (Bar.set_baselineValue
              (Bar.set_isVertical p
                 (bool_decide (default Bar.ORIENTATION_VERTICAL orientation
                               = Bar.ORIENTATION_VERTICAL))) 0)).
  set (filled := super_attr "fill" configured).
  set (plot := super_attr "width" (Bar.set_widthBinding filled Bar.BarPixelWidth)).
  destruct (Hattr "fill" configured) as (Hv1 & Hb1 & Hx1 & Hy1 & Hd1 & _ & Hr1).
  destruct (Hattr "width" (Bar.set_widthBinding filled Bar.BarPixelWidth))
    as (Hv2 & Hb2 & Hx2 & Hy2 & Hd2 & Hw2 & Hr2).
  fold filled in Hv1, Hb1, Hx1, Hy1, Hd1, Hr1.
  fold plot in Hv2, Hb2, Hx2, Hy2, Hd2, Hw2, Hr2.
  cbn in Hv2, Hb2, Hx2, Hy2, Hd2, Hw2, Hr2.
  exists plot. split; [by destruct Horientation as [-> | [-> | ->]]|].
  split.
  { rewrite Hv2, Hv1. by destruct Horientation as [-> | [-> | ->]]. }
  split; [by rewrite Hb2, Hb1|].
  split; [cbn in Hr1; lia|].
  split; [by rewrite Hx2, Hx1|]. split; [by rewrite Hy2, Hy1|].
  split; [by rewrite Hd2, Hd1|]. intros d i ds.
  by rewrite thickness_projector, Hw2.
Qed.
End BarGeometryMore.

(** ** Labels *)

Lemma Math_min_Fin (a b : Q) : ∃ m : Q, Math_min (Fin a) (Fin b) = Fin m ∧ (m == Qmin a b)%Q.
Proof.
  unfold Math_min. cbn [compare]. destruct (a ?= b)%Q eqn:E.
  - exists a. split; [done|]. apply Qeq_alt in E. symmetry. apply Q.min_l. lra.
  - exists a. split; [done|]. apply Qlt_alt in E. symmetry. apply Q.min_l. lra.
  - exists b. split; [done|]. apply Qgt_alt in E. symmetry. apply Q.min_r. lra.
Qed.

Lemma const_fmap_length {A B C} (c : C) (l : list A) (k : list B) :
  length l = length k → (λ _, c) <$> l = (λ _, c) <$> k.
Proof.
  revert k. induction l as [|a l IH]; intros [|b k] Hlen; try done.
  cbn. f_equal. apply IH. by injection Hlen.
Qed.

Section Labels.
Context {Datum : Type}.
Implicit Types (p : Bar.Plot Datum) (d : Datum) (i : nat) (ds : Bar.Dataset Datum).
Implicit Types env : Bar.LabelEnvironment Datum.

(** X8. For a bar with finite geometry and a finite measurement of its
    text, [_drawLabel] writes a label exactly when the text is no higher and
    no wider than the bar.  The label is written into the box of the bar; it
    is moved along the primary axis only, away from the corner of the bar by
    at most the padding of 5 pixels, towards larger coordinates when the
    value is not past the scaled baseline and towards smaller ones
    otherwise, and never by more than half of the room the text leaves. *)
Theorem label_placement p env ds i d (x y w h mw mh : Q) :
  let a := Bar._generateAttrToProjector p in
  Bar.projectorOf a "x" d i ds = Fin x →
  Bar.projectorOf a "y" d i ds = Fin y →
  Bar.projectorOf a "width" d i ds = Fin w →
  Bar.projectorOf a "height" d i ds = Fin h →
  Bar.measure env (Bar.labelText env d i ds) = Measurement.mk (Fin mw) (Fin mh) →
  let positive := le (Bar.originalPositionFn p d i ds) (Fin (Bar.scaledBaseline p)) in
  let primary := if Bar._isVertical p then h else w in
  let primarySpace := if Bar._isVertical p then mh else mw in
  match (Bar.labelOf p env ds i d).1 with
  | None => ¬ (mh <= h ∧ mw <= w)%Q
  | Some label =>
      (mh <= h ∧ mw <= w)%Q
      ∧ Bar.writeWidth label = Fin w ∧ Bar.writeHeight label = Fin h
      ∧ ∃ tx ty offset : Q,
          Bar.translateX label = Fin tx ∧ Bar.translateY label = Fin ty
          ∧ (if Bar._isVertical p then tx == x ∧ ty == y + offset
             else tx == x + offset ∧ ty == y)%Q
          ∧ (if positive then 0 <= offset else offset <= 0)%Q
          ∧ (Qabs offset <= 5)%Q
          ∧ (2 * Qabs offset + primarySpace <= primary)%Q
  end.
Proof.
  intros a Hx Hy Hw Hh Hm positive primary primarySpace.
  unfold Bar.labelOf. fold a. rewrite Hx, Hy, Hw, Hh, Hm. fold positive.
  cbn [Measurement.height Measurement.width].
  destruct (le (Fin mh) (Fin h)) eqn:Hmh; cycle 1.
  { cbn [andb fst]. intros [H%le_Fin _]. congruence. }
  destruct (le (Fin mw) (Fin w)) eqn:Hmw; cycle 1.
  { cbn [andb fst]. intros [_ H%le_Fin]. congruence. }
  apply le_Fin in Hmh, Hmw. cbn [andb fst Bar.writeWidth Bar.writeHeight
    Bar.translateX Bar.translateY].
  split; [done|]. split; [done|]. split; [done|].
  assert (0 <= primary - primarySpace)%Q as Hroom.
  { subst primary primarySpace. destruct (Bar._isVertical p); lra. }
  assert (∃ m : Q,
            Math_min
              (div (sub (if Bar._isVertical p then Fin h else Fin w)
                      (if Bar._isVertical p then Fin mh else Fin mw)) (Fin 2))
              (Fin Bar._LABEL_VERTICAL_PADDING) = Fin m
            ∧ (0 <= m)%Q ∧ (m <= 5)%Q ∧ (2 * m + primarySpace <= primary)%Q)
    as (m & -> & Hm0 & Hm5 & Hmroom).
  { subst primary primarySpace.
    destruct (Bar._isVertical p); cbn [sub neg add]; rewrite div_Fin_2.
    - destruct (Math_min_Fin ((h + - mh) / 2) Bar._LABEL_VERTICAL_PADDING)
        as (m & -> & Hmin).
      exists m. split; [done|]. unfold Bar._LABEL_VERTICAL_PADDING in Hmin.
      pose proof (Q.le_min_l ((h + - mh) / 2) 5) as Hl.
      pose proof (Q.le_min_r ((h + - mh) / 2) 5) as Hr.
      assert (0 <= Qmin ((h + - mh) / 2) 5)%Q as H0.
      { apply Q.min_glb; [|lra]. change ((h + - mh) / 2)%Q with ((h + - mh) * (1 # 2))%Q. lra. }
      change ((h + - mh) / 2)%Q with ((h + - mh) * (1 # 2))%Q in *. lra.
    - destruct (Math_min_Fin ((w + - mw) / 2) Bar._LABEL_VERTICAL_PADDING)
        as (m & -> & Hmin).
      exists m. split; [done|]. unfold Bar._LABEL_VERTICAL_PADDING in Hmin.
      pose proof (Q.le_min_l ((w + - mw) / 2) 5) as Hl.
      pose proof (Q.le_min_r ((w + - mw) / 2) 5) as Hr.
      assert (0 <= Qmin ((w + - mw) / 2) 5)%Q as H0.
      { apply Q.min_glb; [|lra]. change ((w + - mw) / 2)%Q with ((w + - mw) * (1 # 2))%Q. lra. }
      change ((w + - mw) / 2)%Q with ((w + - mw) * (1 # 2))%Q in *. lra. }
  destruct positive; cbn [negb mul].
  - destruct (Bar._isVertical p); cbn [add];
      eexists _, _, m; (split; [reflexivity|]); (split; [reflexivity|]);
      (split; [split; reflexivity|]); (split; [done|]);
      rewrite (Qabs_pos m) by done; split; lra.
  - destruct (Bar._isVertical p); cbn [add];
      eexists _, _, (m * -1)%Q; (split; [reflexivity|]); (split; [reflexivity|]);
      (split; [split; reflexivity|]); (split; [lra|]);
      rewrite (Qabs_neg (m * -1)) by lra; split; lra.
Qed.

(** X9. [_drawLabels] leaves one label area per dataset, and the areas are
    all or nothing: when the label of some bar of some dataset is too wide
    for its bar, every label area is empty, also those of the datasets whose
    labels all fit; otherwise each area holds the labels [_drawLabel] writes
    for the drawn data of its dataset. *)
Theorem labels_all_or_nothing p env :
  let dataToDraw := Bar._getDataToDraw p in
  let tooWide (entry : Bar.Dataset Datum * list Datum) :=
    (Bar._drawLabel p env entry.2 entry.1).2 in
  Bar._drawLabels p env
  = if existsb tooWide dataToDraw then (λ _, []) <$> Bar.datasets p
    else (λ entry, (Bar._drawLabel p env entry.2 entry.1).1) <$> dataToDraw.
Proof.
  intros dataToDraw tooWide. unfold Bar._drawLabels. fold dataToDraw.
  assert (∀ l,
            let st := foldl (Bar.drawLabelsStep p env) ([], false) l in
            st.2 = existsb tooWide l
            ∧ length st.1 = length l
            ∧ (st.2 = false
               → st.1 = (λ entry, (Bar._drawLabel p env entry.2 entry.1).1) <$> l))
    as Hfold.
  { induction l as [|entry l IH] using rev_ind; [done|].
    cbn zeta in *. rewrite foldl_snoc, existsb_app, fmap_app, length_app.
    destruct (foldl _ _ l) as [labelAreas labelsTooWide].
    destruct IH as (Hwide & Hlen & Hareas). cbn [fst snd] in *.
    unfold Bar.drawLabelsStep. destruct labelsTooWide.
    - cbn [fst snd]. rewrite <- Hwide, length_app, Hlen. done.
    - rewrite <- Hwide. subst tooWide. cbn [existsb orb fst snd].
      destruct (Bar._drawLabel p env entry.2 entry.1) as [labels wide] eqn:Hentry.
      cbn [fst snd]. rewrite length_app, Hlen, orb_false_r.
      split; [done|]. split; [done|]. intros _.
      rewrite Hareas by done. f_equal. cbn [fmap list_fmap]. by rewrite Hentry. }
  specialize (Hfold dataToDraw). cbn zeta in Hfold.
  destruct (foldl _ _ dataToDraw) as [labelAreas labelsTooWide].
  destruct Hfold as (Hwide & Hlen & Hareas). cbn [fst snd] in *.
  rewrite <- Hwide. unfold Bar._hideBarsIfAnyAreTooWide. cbn [andb].
  destruct labelsTooWide; [|by apply Hareas].
  apply const_fmap_length. rewrite Hlen. subst dataToDraw.
  unfold Bar._getDataToDraw. by rewrite length_fmap.
Qed.
End Labels.

(** ** [BarRenderer]: alignment and selection *)

Section BarRendererMore.
Context {Datum : Type}.
Implicit Types (r : BarRenderer.t Datum) (d : Datum) (i : nat).
Implicit Types dataSelection : list (BarRenderer.RenderedBar Datum).

(** X10. What [_paint] does along x, for a datum with a finite x and a
    finite width.  On a scale without range type, or with the range type
    "points", the width is kept and the alignment places the bar: its centre
    is at the x value for "center", its right side for "right", and its left
    side for every other alignment.  On every other range type the alignment
    is not looked at: the bar starts at the x value and is as wide as the
    band of the scale. *)
Theorem paint_aligns_bars r d i (x0 w0 : Q) :
  BarRenderer.projectorOf (BarRenderer._projectors r) "x" d i = Fin x0 →
  BarRenderer.projectorOf (BarRenderer._projectors r) "width" d i = Fin w0 →
  let a := BarRenderer._paint_attrToProjector r in
  ∃ x w : Q,
    BarRenderer.projectorOf a "x" d i = Fin x
    ∧ BarRenderer.projectorOf a "width" d i = Fin w
    ∧ if bool_decide (default "points" (BarRenderer.xScale_rangeType r) = "points")
      then w = w0
           ∧ (BarRenderer._barAlignment r = "center" → (x + w / 2 == x0)%Q)
           ∧ (BarRenderer._barAlignment r ≠ "center" →
              BarRenderer._barAlignment r = "right" → (x + w == x0)%Q)
           ∧ (BarRenderer._barAlignment r ≠ "center" →
              BarRenderer._barAlignment r ≠ "right" → x = x0)
      else x = x0 ∧ w = BarRenderer.xScale_rangeBand r.
Proof.
  intros Hx Hw a. subst a. unfold BarRenderer._paint_attrToProjector. cbv zeta.
  assert (∀ m attr, BarRenderer.projectorOf m attr d i
                    = default (λ _ _, NaN) (m !! attr) d i) as Hunfold by done.
  rewrite !Hunfold.
  rewrite !(lookup_insert_ne _ "height") by done.
  rewrite !(lookup_insert_ne _ "y") by done.
  destruct (bool_decide (default "points" (BarRenderer.xScale_rangeType r) = "points")).
  - case_bool_decide as Hcenter; [|case_bool_decide as Hright].
    + rewrite lookup_insert_eq, lookup_insert_ne by done.
      rewrite <- Hunfold. cbn [default from_option id]. rewrite Hx, Hw, div_Fin_2.
      eexists _, _. split; [reflexivity|]. split; [reflexivity|].
      split; [done|]. split; [intros _; cbn [sub add neg]; ring|]. split; done.
    + rewrite lookup_insert_eq, lookup_insert_ne by done.
      rewrite <- Hunfold. cbn [default from_option id]. rewrite Hx, Hw.
      eexists _, _. split; [reflexivity|]. split; [reflexivity|].
      split; [done|]. split; [done|]. split; [intros _ _; ring|done].
    + rewrite <- !Hunfold, Hx, Hw.
      eexists _, _. split; [reflexivity|]. split; [reflexivity|].
      split; [done|]. split; [done|]. split; done.
  - rewrite lookup_insert_eq, lookup_insert_ne by done.
    rewrite <- Hunfold. cbn [default from_option id]. rewrite Hx.
    eexists _, _. split; [reflexivity|]. split; [reflexivity|]. done.
Qed.

(** X11. [barAlignment] returns exactly for the alignments that are "left",
    "center" or "right" up to the case of their letters.  It then stores the
    alignment in lower case and renders once if the renderer has an element,
    and not otherwise; the baseline value, the scales and the projectors are
    kept.  Whether the call returns or throws, a stored alignment that is one
    of the three stays one of the three. *)
Theorem barAlignment_accepts r (alignment : string) :
  let supported : list string := ["left"; "center"; "right"] in
  let outcome := BarRenderer.barAlignment r alignment in
  (outcome.1 = Return () ↔ toLowerCase alignment ∈ supported)
  ∧ (outcome.1 = Return () →
     BarRenderer._barAlignment outcome.2 = toLowerCase alignment
     ∧ BarRenderer.renderCount outcome.2
       = (if BarRenderer.element r then S (BarRenderer.renderCount r)
          else BarRenderer.renderCount r)
     ∧ BarRenderer._baselineValue outcome.2 = BarRenderer._baselineValue r
     ∧ BarRenderer.yScale outcome.2 = BarRenderer.yScale r
     ∧ BarRenderer.xScale_rangeType outcome.2 = BarRenderer.xScale_rangeType r
     ∧ BarRenderer._projectors outcome.2 = BarRenderer._projectors r)
  ∧ (BarRenderer._barAlignment r ∈ supported →
     BarRenderer._barAlignment outcome.2 ∈ supported).
Proof.
  intros supported outcome.
  assert (∀ s : string, s ∈ supported ↔ s = "left" ∨ s = "center" ∨ s = "right")
    as Hsupported.
  { intros s. subst supported. rewrite !elem_of_cons, elem_of_nil. tauto. }
  destruct (decide (toLowerCase alignment ∈ supported)) as [Hin|Hout].
  - assert (outcome
            = (Return (),
               let r' := BarRenderer.set_barAlignment r (toLowerCase alignment) in
               if BarRenderer.element r' then BarRenderer._render r' else r')) as ->.
    { subst outcome. unfold BarRenderer.barAlignment.
      apply Hsupported in Hin as [H|[H|H]]; by rewrite H. }
    cbn. split; [done|]. split.
    + intros _. by destruct (BarRenderer.element r).
    + intros _. by destruct (BarRenderer.element r).
  - assert (outcome = (Throw "unsupported bar alignment", r)) as ->.
    { subst outcome. unfold BarRenderer.barAlignment.
      rewrite !bool_decide_eq_true_2; [done|..];
        intros H; apply Hout, Hsupported; auto. }
    cbn. split; [done|]. split; done.
Qed.

Lemma selectStep_fold (x y : number) dataSelection (offset : nat) (found : option nat) :
  let hit i := ∃ bar, dataSelection !! i = Some bar
                      ∧ BarRenderer.containsPoint (BarRenderer.bbox bar) x y = true in
  match foldl (BarRenderer.selectStep x y) found
          (imap (λ i, pair (offset + i)%nat) dataSelection) with
  | None => found = None ∧ ∀ i, ¬ hit i
  | Some k =>
      (found = Some k ∧ ∀ i, ¬ hit i)
      ∨ ∃ i, k = (offset + i)%nat ∧ hit i ∧ ∀ j, (i < j)%nat → ¬ hit j
  end.
Proof.
  revert offset found. induction dataSelection as [|bar l IH]; intros offset found hit.
  - cbn. destruct found; [left|]; (split; [done|]); by intros i (? & ? & _).
  - cbn [imap foldl]. unfold compose.
    pose proof (IH (S offset)
                  (BarRenderer.selectStep x y found ((offset + 0)%nat, bar))) as H.
    cbn zeta in H.
    assert (imap (λ i, pair (offset + S i)%nat) l = imap (λ i, pair (S offset + i)%nat) l)
      as Himap.
    { apply imap_ext. intros i b _. f_equal. lia. }
    rewrite Himap.
    destruct (foldl _ _ (imap _ l)) as [k|].
    + destruct H as [[Hstep Hnone]|(i & -> & Hhit & Hlast)].
      * unfold BarRenderer.selectStep in Hstep. cbn [fst snd] in Hstep.
        destruct (BarRenderer.containsPoint (BarRenderer.bbox bar) x y) eqn:Hbar.
        -- right. exists 0%nat. injection Hstep as <-. split; [done|].
           split; [by exists bar|]. intros [|j] Hj; [lia|]. apply Hnone.
        -- left. split; [done|]. intros [|i]; [|apply Hnone].
           intros (bar' & [= <-] & Hc). congruence.
      * right. exists (S i). split; [lia|]. split; [done|].
        intros [|j] Hj; [lia|]. apply Hlast. lia.
    + destruct H as [Hstep Hnone]. unfold BarRenderer.selectStep in Hstep.
      cbn [fst snd] in Hstep.
      destruct (BarRenderer.containsPoint (BarRenderer.bbox bar) x y) eqn:Hbar; [done|].
      split; [done|]. intros [|i]; [|apply Hnone].
      intros (bar' & [= <-] & Hc). congruence.
Qed.

Lemma selectBar_found (x y : number) dataSelection :
  let hit i := ∃ bar, dataSelection !! i = Some bar
                      ∧ BarRenderer.containsPoint (BarRenderer.bbox bar) x y = true in
  match foldl (BarRenderer.selectStep x y) None (imap pair dataSelection) with
  | None => ∀ i, ¬ hit i
  | Some i => hit i ∧ ∀ j, (i < j)%nat → ¬ hit j
  end.
Proof.
  intros hit. pose proof (selectStep_fold x y dataSelection 0 None) as H.
  cbn zeta in H. fold hit in H.
  assert (imap (λ i, pair (0 + i)%nat) dataSelection = imap pair dataSelection) as Himap.
  { by apply imap_ext. }
  rewrite Himap in H.
  destruct (foldl _ _ _) as [k|]; [|by destruct H].
  destruct H as [[? _]|(i & -> & ? & ?)]; done.
Qed.

(** X12. [selectBar] returns no bar exactly when no bar of the selection
    has the point in its bounding box (sides included), and then changes
    nothing.  Otherwise it returns the last bar of the selection that has the
    point in its box, the one drawn on top, and sets whether that bar is
    classed "selected" as asked (selected when the argument is left out);
    every other bar keeps its class, and no bounding box or datum changes. *)
Theorem selectBar_picks_last_hit dataSelection (x y : number) (select : option bool) :
  let hit i := ∃ bar, dataSelection !! i = Some bar
                      ∧ BarRenderer.containsPoint (BarRenderer.bbox bar) x y = true in
  let outcome := BarRenderer.selectBar dataSelection x y select in
  match outcome.1 with
  | None => (∀ i, ¬ hit i) ∧ outcome.2 = dataSelection
  | Some i =>
      hit i ∧ (∀ j, (i < j)%nat → ¬ hit j)
      ∧ (∀ j, j ≠ i → outcome.2 !! j = dataSelection !! j)
      ∧ ∃ bar, dataSelection !! i = Some bar
               ∧ outcome.2 !! i
                 = Some {| BarRenderer.barDatum := BarRenderer.barDatum bar;
                           BarRenderer.bbox := BarRenderer.bbox bar;
                           BarRenderer.selected := default true select |}
  end.
Proof.
  intros hit outcome. subst outcome. unfold BarRenderer.selectBar. cbv zeta.
  pose proof (selectBar_found x y dataSelection) as H. cbn zeta in H. fold hit in H.
  destruct (foldl _ _ _) as [i|]; cbn [fst snd]; [|done].
  destruct H as [Hhit Hlast]. split; [done|]. split; [done|]. split.
  - intros j Hj. by rewrite list_lookup_alter_ne.
  - destruct Hhit as (bar & Hbar & _). exists bar. split; [done|].
    by rewrite list_lookup_alter_eq, Hbar.
Qed.

(** X13. Selecting does not move a bar: a second [selectBar] at the same
    point finds the same bar as the first, and its class wins, so that the
    selection after both calls is the one the second call alone gives.
    [deselectAll] after a [selectBar] gives what [deselectAll] alone gives:
    a selection in which no bar is classed "selected". *)
Theorem selectBar_then_again dataSelection (x y : number) (first second : option bool) :
  let once := BarRenderer.selectBar dataSelection x y first in
  BarRenderer.selectBar once.2 x y second = BarRenderer.selectBar dataSelection x y second
  ∧ BarRenderer.deselectAll once.2 = BarRenderer.deselectAll dataSelection
  ∧ Forall (λ bar, BarRenderer.selected bar = false) (BarRenderer.deselectAll once.2).
Proof.
  intros once. subst once. unfold BarRenderer.selectBar. cbv zeta.
  assert (∀ (f : bool) k,
            foldl (BarRenderer.selectStep x y) None
              (imap pair (alter (BarRenderer.classed_selected f) k dataSelection))
            = foldl (BarRenderer.selectStep x y) None (imap pair dataSelection))
    as Hfound.
  { intros f k.
    assert (∀ (l : list (BarRenderer.RenderedBar Datum)) offset start,
              foldl (BarRenderer.selectStep x y) start
                (imap (λ i, pair (offset + i)%nat)
                   (alter (BarRenderer.classed_selected f) k l))
              = foldl (BarRenderer.selectStep x y) start
                  (imap (λ i, pair (offset + i)%nat) l)) as Hgen.
    { intros l. revert k.
      induction l as [|bar l IH]; intros k offset start; [by destruct k|].
      assert (∀ l' : list (BarRenderer.RenderedBar Datum),
                imap (λ i, pair (offset + S i)%nat) l'
                = imap (λ i, pair (S offset + i)%nat) l') as Himap.
      { intros l'. apply imap_ext. intros i b _. f_equal. lia. }
      destruct k as [|k]; cbn [alter list_alter imap foldl]; unfold compose;
        rewrite !Himap; [done|]. apply IH. }
    specialize (Hgen dataSelection 0%nat None).
    assert (∀ l' : list (BarRenderer.RenderedBar Datum),
              imap (λ i, pair (0 + i)%nat) l' = imap pair l') as H0.
    { intros l'. by apply imap_ext. }
    by rewrite !H0 in Hgen. }
  destruct (foldl (BarRenderer.selectStep x y) None (imap pair dataSelection))
    as [i|] eqn:Hi; cbn [fst snd].
  - rewrite Hfound. split; [|split].
    + f_equal. apply list_eq. intros j. destruct (decide (j = i)) as [->|Hj].
      * rewrite !list_lookup_alter_eq. by destruct (dataSelection !! i).
      * by rewrite !list_lookup_alter_ne.
    + unfold BarRenderer.deselectAll.
      apply list_eq. intros j. rewrite !list_lookup_fmap.
      destruct (decide (j = i)) as [->|Hj].
      * rewrite list_lookup_alter_eq. by destruct (dataSelection !! i).
      * by rewrite list_lookup_alter_ne.
    + unfold BarRenderer.deselectAll. by apply Forall_fmap, Forall_true.
  - rewrite Hi. split; [done|]. split; [done|].
    unfold BarRenderer.deselectAll. by apply Forall_fmap, Forall_true.
Qed.
End BarRendererMore.

(** ** [Components.Group] *)

Lemma Utils_max_ge (array : list Q) (defaultValue x : Q) :
  x ∈ array → (x <= Utils.max array defaultValue)%Q.
Proof.
  destruct array as [|v rest]; [by intros ?%elem_of_nil|].
  intros Hx. unfold Utils.max. rewrite foldl_max_largest.
  destruct (largest_ge_all v rest) as [Hv Hrest].
  apply elem_of_cons in Hx as [->|Hx]; [done|].
  by apply (proj1 (Forall_forall _ _) Hrest).
Qed.

Section GroupMore.
Context {Component : Type} `{EqDecision Component}.
Implicit Types (g : Group.t (Component := Component)) (c : Component).

Lemma indexOf_None (l : list Component) c : Group.indexOf l c = None ↔ c ∉ l.
Proof.
  induction l as [|x l IH]; cbn [Group.indexOf].
  - split; [|done]. intros _ H. by apply elem_of_nil in H.
  - rewrite not_elem_of_cons. destruct (decide (x = c)) as [->|Hx].
    + split; [done|]. by intros [? _].
    + destruct (Group.indexOf l c); cbn.
      * split; [done|]. intros [_ H]. by apply IH in H.
      * split; [|done]. intros _. split; [by intros ->|]. by apply IH.
Qed.

Lemma has_elem_of g c : Group.has g c = true ↔ c ∈ Group._components g.
Proof.
  unfold Group.has. pose proof (indexOf_None (Group._components g) c) as H.
  destruct (Group.indexOf _ _).
  - split; [|done]. intros _.
    destruct (decide (c ∈ Group._components g)) as [|Hout]; [done|].
    by apply H in Hout.
  - split; [done|]. intros Hin. by apply H in Hin.
Qed.

Lemma has_false g c : Group.has g c = false ↔ c ∉ Group._components g.
Proof. rewrite <- not_true_iff_false. by rewrite has_elem_of. Qed.

Lemma indexOf_delete (l : list Component) c (i : nat) :
  Group.indexOf l c = Some i → NoDup l →
  NoDup (delete i l) ∧ ∀ c', c' ∈ delete i l ↔ c' ∈ l ∧ c' ≠ c.
Proof.
  revert i. induction l as [|x l IH]; intros i; cbn [Group.indexOf]; [done|].
  intros Hi [Hx Hl]%NoDup_cons. destruct (decide (x = c)) as [->|Hxc].
  - injection Hi as <-. cbn. split; [done|]. intros c'. rewrite elem_of_cons.
    split; [intros Hc'; split; [by right|by intros ->]|by intros [[->|?] ?]].
  - destruct (Group.indexOf l c) as [k|] eqn:Hk; [|done]. injection Hi as <-.
    destruct (IH k eq_refl Hl) as [Hnodup Helem]. cbn. split.
    + apply NoDup_cons. split; [|done]. rewrite Helem. by intros [? _].
    + intros c'. rewrite !elem_of_cons, Helem.
      split; [intros [->|[? ?]]; by auto|intros [[->|?] ?]; by auto].
Qed.

Lemma append_foldl g (components : list (option Component)) :
  NoDup (Group._components g) →
  let g' := foldl Group.append g components in
  NoDup (Group._components g')
  ∧ (∀ c, c ∈ Group._components g' ↔ c ∈ Group._components g ∨ Some c ∈ components)
  ∧ (Group.redraws g' + length (Group._components g)
     = Group.redraws g + length (Group._components g'))%nat.
Proof.
  revert g. induction components as [|oc l IH]; intros g Hg; cbn [foldl].
  - split; [done|]. split; [|done]. intros c. rewrite elem_of_nil. tauto.
  - assert (NoDup (Group._components (Group.append g oc))
            ∧ (∀ c, c ∈ Group._components (Group.append g oc)
                    ↔ c ∈ Group._components g ∨ Some c = oc)
            ∧ (Group.redraws (Group.append g oc) + length (Group._components g)
               = Group.redraws g + length (Group._components (Group.append g oc)))%nat)
      as (Hnodup & Helem & Hredraws).
    { destruct oc as [c0|]; cbn [Group.append]; cycle 1.
      { split; [done|]. split; [|done]. intros c. split; [by left|]. by intros [?|?]. }
      destruct (Group.has g c0) eqn:Hhas; cbn [negb].
      - apply has_elem_of in Hhas. split; [done|]. split; [|done]. intros c.
        split; [by left|]. by intros [?|[= ->]].
      - apply has_false in Hhas. cbn. split.
        + apply NoDup_app. split; [done|]. split; [|apply NoDup_singleton].
          intros c Hc ->%list_elem_of_singleton. done.
        + split; [|rewrite length_app; cbn; lia]. intros c.
          rewrite elem_of_app, list_elem_of_singleton.
          split; (intros [?|?]; [by left|right; congruence]). }
    destruct (IH _ Hnodup) as (Hnodup' & Helem' & Hredraws'). cbn zeta in *.
    split; [done|]. split; [|lia]. intros c.
    rewrite Helem', Helem, elem_of_cons.
    split; [intros [[?|?]|?]|intros [?|[?|?]]]; auto.
Qed.

(** X14. A new [Group] holds each component it was given once, however
    often the component occurs among the arguments, and holds nothing else;
    [null] arguments are skipped, and one redraw is requested per component
    that was added. *)
Theorem group_holds_each_component_once (components : list (option Component)) :
  let g := Group.constructor components in
  NoDup (Group.components g)
  ∧ (∀ c, Group.has g c = true ↔ Some c ∈ components)
  ∧ Group.redraws g = length (Group.components g).
Proof.
  intros g. subst g. unfold Group.constructor, Group.components.
  destruct (append_foldl {| Group._components := []; Group.redraws := 0 |} components)
    as (Hnodup & Helem & Hredraws); [apply NoDup_nil_2|].
  cbn zeta in *. cbn [Group._components Group.redraws length] in *.
  split; [done|]. split; [|lia]. intros c. rewrite has_elem_of, Helem, elem_of_nil. tauto.
Qed.

(** X15. On a group that holds no component twice, [_remove] answers
    whether the group has the component, the group no longer has it
    afterwards, and has every other component exactly if it had it before;
    the group still holds no component twice and no redraw is requested. *)
Theorem remove_takes_component_out g c :
  NoDup (Group.components g) →
  let outcome := Group._remove g c in
  outcome.1 = Group.has g c
  ∧ Group.has outcome.2 c = false
  ∧ (∀ c', c' ≠ c → Group.has outcome.2 c' = Group.has g c')
  ∧ NoDup (Group.components outcome.2)
  ∧ Group.redraws outcome.2 = Group.redraws g.
Proof.
  intros Hnodup outcome. subst outcome. unfold Group.components in *.
  unfold Group._remove, Group.has at 1.
  destruct (Group.indexOf (Group._components g) c) as [i|] eqn:Hi; cbn [fst snd].
  - destruct (indexOf_delete _ _ _ Hi Hnodup) as [Hnodup' Helem].
    split; [done|]. split; [|split; [|done]].
    + apply has_false. cbn [Group._components]. rewrite Helem. by intros [_ ?].
    + intros c' Hc'. apply eq_true_iff_eq. rewrite !has_elem_of.
      cbn [Group._components]. rewrite Helem. tauto.
  - split; [done|]. split; [|done]. unfold Group.has. by rewrite Hi.
Qed.

(** X16. [append] of a component the group has, and of [null], changes
    nothing, so that appending twice is appending once; after [append] the
    group has the component.  Removing a component right after it was
    appended to a group that did not have it gives back the components the
    group had, in their order, with the one redraw of the [append]. *)
Theorem append_then_remove g c :
  (∀ component : option Component,
     Group.append (Group.append g component) component = Group.append g component)
  ∧ Group.append g None = g
  ∧ Group.has (Group.append g (Some c)) c = true
  ∧ (Group.has g c = true → Group.append g (Some c) = g)
  ∧ (Group.has g c = false →
     Group._remove (Group.append g (Some c)) c
     = (true, {| Group._components := Group._components g;
                 Group.redraws := S (Group.redraws g) |})).
Proof.
  assert (Group.has (Group.append g (Some c)) c = true) as Hhas.
  { cbn [Group.append]. destruct (Group.has g c) eqn:Hg; cbn [negb]; [done|].
    apply has_elem_of. cbn. rewrite elem_of_app, list_elem_of_singleton. by right. }
  split; [|split; [done|split; [done|split]]].
  - intros [c0|]; [|done]. cbn [Group.append].
    destruct (Group.has g c0) eqn:Hg; cbn [negb]; [by rewrite Hg|].
    assert (Group.has {| Group._components := Group._components g ++ [c0];
                         Group.redraws := S (Group.redraws g) |} c0 = true) as ->; [|done].
    apply has_elem_of. cbn. rewrite elem_of_app, list_elem_of_singleton. by right.
  - intros Hg. cbn [Group.append]. by rewrite Hg.
  - intros Hg. cbn [Group.append]. rewrite Hg. cbn [negb]. unfold Group._remove.
    cbn [Group._components Group.redraws].
    assert (∀ l : list Component, c ∉ l →
              Group.indexOf (l ++ [c]) c = Some (length l)) as Hindex.
    { induction l as [|x l IH]; cbn [Group.indexOf app length].
      - intros _. by rewrite decide_True.
      - intros [Hx Hl]%not_elem_of_cons. rewrite decide_False by done.
        by rewrite IH. }
    rewrite Hindex by by apply has_false.
    do 2 f_equal. clear.
    induction (Group._components g) as [|x l IH]; [done|]. cbn. f_equal. exact IH.
Qed.

Section Requests.
Variable requestedSpaceOf : Component → Q → Q → Group.SpaceRequest.

(** X17. A group asks for at least the width and the height each of its
    components asks for, and for no space at all when it has no component. *)
Theorem group_requests_cover_components g (offeredWidth offeredHeight : Q) :
  let request := Group.requestedSpace requestedSpaceOf g offeredWidth offeredHeight in
  (∀ c, Group.has g c = true →
     (Group.minWidth (requestedSpaceOf c offeredWidth offeredHeight)
      <= Group.minWidth request)%Q
     ∧ (Group.minHeight (requestedSpaceOf c offeredWidth offeredHeight)
        <= Group.minHeight request)%Q)
  ∧ (Group.components g = [] →
     Group.minWidth request = 0%Q ∧ Group.minHeight request = 0%Q).
Proof.
  intros request. subst request. unfold Group.requestedSpace, Group.components.
  cbn [Group.minWidth Group.minHeight]. split.
  - intros c Hc%has_elem_of.
    split; apply Utils_max_ge; rewrite <- list_fmap_compose;
      apply list_elem_of_fmap; by exists c.
  - by intros ->.
Qed.
End Requests.
End GroupMore.

(** ** [Components.DragBoxLayer] *)

Ltac compare_numbers :=
  repeat match goal with
         | |- context [le (Fin ?a) (Fin ?b)] =>
             let H := fresh "Hle" in
             destruct (le (Fin a) (Fin b)) eqn:H;
             [apply le_Fin in H | apply not_true_iff_false in H; rewrite le_Fin in H]
         end.

(** X18. On a resizable layer with a finite detection radius that is not
    negative, a point grabs an edge of the box exactly when it is in the band
    around the border of the box: within the radius outside the box, and not
    further than the radius inside it.  On a layer that is not resizable no
    point grabs an edge. *)
Theorem edges_grabbed_near_border (layer : DragBoxLayer.t) (l t r b px py rad : Q) :
  DragBoxLayer._detectionRadius layer = Fin rad →
  (0 <= rad)%Q → (l <= r)%Q → (t <= b)%Q →
  let edges :=
    DragBoxLayer._getResizingEdges layer
      (Bounds.mk (Point.mk (Fin l) (Fin t)) (Point.mk (Fin r) (Fin b)))
      (Point.mk (Fin px) (Fin py)) in
  DragBoxLayer.top edges || DragBoxLayer.bottom edges
  || DragBoxLayer.left edges || DragBoxLayer.right edges = true
  ↔ DragBoxLayer._resizable layer = true
    ∧ (l - rad <= px ∧ px <= r + rad)%Q
    ∧ (t - rad <= py ∧ py <= b + rad)%Q
    ∧ ¬ ((l + rad < px ∧ px < r - rad) ∧ (t + rad < py ∧ py < b - rad))%Q.
Proof.
  intros Hrad Hnonneg Hlr Htb edges. subst edges.
  unfold DragBoxLayer._getResizingEdges. rewrite Hrad.
  destruct (DragBoxLayer._resizable layer); cbn [negb]; cycle 1.
  { cbn. split; [done|]. by intros [? _]. }
  cbn [Bounds.topLeft Bounds.bottomRight Point.x Point.y sub add neg].
  compare_numbers;
    cbn [andb orb DragBoxLayer.top DragBoxLayer.bottom DragBoxLayer.left
         DragBoxLayer.right];
    compare_numbers; cbn [andb orb];
    (split;
     [intros Hgrabbed;
      first [discriminate Hgrabbed
            |split; [done|]; split; [split; lra|]; split; [split; lra|];
             intros [[? ?] [? ?]]; lra]
     |intros (_ & [? ?] & [? ?] & Hinside); try done;
      exfalso; try lra; apply Hinside; split; split; lra]).
Qed.

Section DragMore.
Variable storeBounds : Bounds.t → Bounds.t.
Implicit Types (st : DragBoxLayer.Dragging) (s e : Point.t).

(** X19. A drag that starts while the box is hidden, or on a layer that is
    not resizable, starts a new box: the box is shown, and after the drag
    has moved to [e] the bounds handed to the box are the corner the box
    stored for the start point and [e].  The two callbacks are called in
    this order with the bounds of the box at that time.  Ending such a drag
    where it started, at a point with finite coordinates, hides the box
    again; ending it at a point with another x coordinate leaves it
    shown. *)
Theorem drag_draws_new_box st s e :
  DragBoxLayer.boxVisible (DragBoxLayer.box st) = false
  ∨ DragBoxLayer._resizable (DragBoxLayer.layer (DragBoxLayer.box st)) = false →
  let started := DragBoxLayer.onDragStart storeBounds st s in
  let anchor := Bounds.topLeft (storeBounds (Bounds.mk s s)) in
  let dragged := DragBoxLayer.onDrag storeBounds started s e in
  DragBoxLayer.boxVisible (DragBoxLayer.box started) = true
  ∧ DragBoxLayer.boxBounds (DragBoxLayer.box started) = storeBounds (Bounds.mk s s)
  ∧ dragged.1 = Return ()
  ∧ DragBoxLayer.boxBounds (DragBoxLayer.box dragged.2) = storeBounds (Bounds.mk anchor e)
  ∧ DragBoxLayer.boxVisible (DragBoxLayer.box dragged.2) = true
  ∧ DragBoxLayer.called dragged.2
    = DragBoxLayer.called st
      ++ [(DragBoxLayer.OnDragStart, storeBounds (Bounds.mk s s));
          (DragBoxLayer.OnDrag, storeBounds (Bounds.mk anchor e))]
  ∧ (isFinite (Point.x s) = true → isFinite (Point.y s) = true →
     DragBoxLayer.boxVisible (DragBoxLayer.box (DragBoxLayer.onDragEnd started s s))
     = false)
  ∧ (seq (Point.x s) (Point.x e) = false →
     DragBoxLayer.boxVisible (DragBoxLayer.box (DragBoxLayer.onDragEnd dragged.2 s e))
     = true).
Proof.
  intros Hnew started anchor dragged.
  assert (started
          = let this := DragBoxLayer.set_boxVisible
                          (DragBoxLayer.set_bounds storeBounds (DragBoxLayer.box st)
                             (Bounds.mk s s)) true in
            {| DragBoxLayer.box := this;
               DragBoxLayer.shared :=
                 Some {| DragBoxLayer.resizingEdges :=
                           DragBoxLayer._getResizingEdges
                             (DragBoxLayer.layer (DragBoxLayer.box st))
                             (DragBoxLayer.boxBounds (DragBoxLayer.box st)) s;
                         DragBoxLayer.topLeft := anchor;
                         DragBoxLayer.bottomRight :=
                           Bounds.bottomRight (storeBounds (Bounds.mk s s));
                         DragBoxLayer.startedNewBox := true |};
               DragBoxLayer.called :=
                 DragBoxLayer.called st
                 ++ [(DragBoxLayer.OnDragStart, storeBounds (Bounds.mk s s))] |})
    as Hstarted.
  { subst started anchor. unfold DragBoxLayer.onDragStart. cbv zeta.
    assert (negb (DragBoxLayer.boxVisible (DragBoxLayer.box st))
            || negb (DragBoxLayer.top
                       (DragBoxLayer._getResizingEdges
                          (DragBoxLayer.layer (DragBoxLayer.box st))
                          (DragBoxLayer.boxBounds (DragBoxLayer.box st)) s))
               && negb (DragBoxLayer.bottom
                          (DragBoxLayer._getResizingEdges
                             (DragBoxLayer.layer (DragBoxLayer.box st))
                             (DragBoxLayer.boxBounds (DragBoxLayer.box st)) s))
               && negb (DragBoxLayer.left
                          (DragBoxLayer._getResizingEdges
                             (DragBoxLayer.layer (DragBoxLayer.box st))
                             (DragBoxLayer.boxBounds (DragBoxLayer.box st)) s))
               && negb (DragBoxLayer.right
                          (DragBoxLayer._getResizingEdges
                             (DragBoxLayer.layer (DragBoxLayer.box st))
                             (DragBoxLayer.boxBounds (DragBoxLayer.box st)) s))
            = true) as ->.
    { destruct Hnew as [->| Hfixed]; [done|].
      unfold DragBoxLayer._getResizingEdges. rewrite Hfixed. cbn.
      by rewrite orb_true_r. }
    cbn [DragBoxLayer.set_boxVisible DragBoxLayer.set_bounds DragBoxLayer.boxBounds].
    by destruct (storeBounds (Bounds.mk s s)) as [[? ?] [? ?]]. }
  subst dragged. rewrite Hstarted. cbn.
  split; [done|]. split; [done|]. split; [done|].
  assert (Point.mk (Point.x e) (Point.y e) = e) as -> by by destruct e.
  split; [done|]. split; [done|]. split; [by rewrite <- app_assoc|]. split.
  - intros Hx Hy. unfold DragBoxLayer.onDragEnd. cbn.
    assert (seq (Point.x s) (Point.x s) = true) as ->.
    { destruct (Point.x s); [|done..]. by apply seq_Fin. }
    assert (seq (Point.y s) (Point.y s) = true) as ->.
    { destruct (Point.y s); [|done..]. by apply seq_Fin. }
    done.
  - intros Hx. unfold DragBoxLayer.onDragEnd. cbn. by rewrite Hx.
Qed.

(** X20. While a drag goes on, the place of the last [onDrag] alone
    decides the box: after a drag to [e1] and then to [e2] the box and the
    variables of the callbacks are the ones a drag straight to [e2] gives.
    Before the first drag has started [onDrag] throws and changes nothing. *)
Theorem drag_last_position_wins st s e1 e2 :
  let direct := DragBoxLayer.onDrag storeBounds st s e2 in
  let first := DragBoxLayer.onDrag storeBounds st s e1 in
  let second := DragBoxLayer.onDrag storeBounds first.2 s e2 in
  match DragBoxLayer.shared st with
  | None => ∃ message, first = (Throw message, st)
  | Some _ =>
      first.1 = Return () ∧ second.1 = Return ()
      ∧ DragBoxLayer.box second.2 = DragBoxLayer.box direct.2
      ∧ DragBoxLayer.shared second.2 = DragBoxLayer.shared direct.2
  end.
Proof.
  intros direct first second. subst direct first second.
  unfold DragBoxLayer.onDrag.
  destruct (DragBoxLayer.shared st) as [[[edgeT edgeB edgeL edgeR] tl br new]|];
    [|by eexists].
  cbn [DragBoxLayer.startedNewBox DragBoxLayer.resizingEdges DragBoxLayer.topLeft
       DragBoxLayer.bottomRight DragBoxLayer.top DragBoxLayer.bottom DragBoxLayer.left
       DragBoxLayer.right].
  by destruct new, edgeT, edgeB, edgeL, edgeR.
Qed.

(** X21. A drag that starts on a grabbed edge of a visible box resizes the
    box: the start leaves the bounds of the box as they are, and the bounds
    handed to the box after the drag has moved to [e] differ from the
    corners the drag started with only in the coordinates of the grabbed
    edges, which are those of [e]; the bottom is moved rather than the top
    and the right side rather than the left when both are grabbed. *)
Theorem drag_resizes_grabbed_edges st s e :
  let this := DragBoxLayer.box st in
  let edges :=
    DragBoxLayer._getResizingEdges (DragBoxLayer.layer this)
      (DragBoxLayer.boxBounds this) s in
  DragBoxLayer.boxVisible this = true →
  DragBoxLayer.top edges || DragBoxLayer.bottom edges
  || DragBoxLayer.left edges || DragBoxLayer.right edges = true →
  let started := DragBoxLayer.onDragStart storeBounds st s in
  let dragged := DragBoxLayer.onDrag storeBounds started s e in
  let topLeft := Bounds.topLeft (DragBoxLayer.boxBounds this) in
  let bottomRight := Bounds.bottomRight (DragBoxLayer.boxBounds this) in
  DragBoxLayer.box started = this
  ∧ dragged.1 = Return ()
  ∧ DragBoxLayer.boxBounds (DragBoxLayer.box dragged.2)
    = storeBounds
        (Bounds.mk
           (Point.mk
              (if negb (DragBoxLayer.right edges) && DragBoxLayer.left edges
               then Point.x e else Point.x topLeft)
              (if negb (DragBoxLayer.bottom edges) && DragBoxLayer.top edges
               then Point.y e else Point.y topLeft))
           (Point.mk
              (if DragBoxLayer.right edges then Point.x e else Point.x bottomRight)
              (if DragBoxLayer.bottom edges then Point.y e else Point.y bottomRight))).
Proof.
  intros this edges Hvisible Hgrabbed started dragged topLeft bottomRight.
  subst dragged started. unfold DragBoxLayer.onDragStart. cbv zeta.
  fold this. fold edges. rewrite Hvisible. cbn [negb orb].
  assert (negb (DragBoxLayer.top edges) && negb (DragBoxLayer.bottom edges)
          && negb (DragBoxLayer.left edges) && negb (DragBoxLayer.right edges) = false)
    as ->.
  { by destruct (DragBoxLayer.top edges), (DragBoxLayer.bottom edges),
       (DragBoxLayer.left edges), (DragBoxLayer.right edges). }
  unfold DragBoxLayer.onDrag.
  cbn [DragBoxLayer.shared DragBoxLayer.startedNewBox DragBoxLayer.resizingEdges
       DragBoxLayer.topLeft DragBoxLayer.bottomRight DragBoxLayer.box].
  subst topLeft bottomRight. split.
  - unfold DragBoxLayer.set_boxVisible. destruct this as [? ? visible].
    cbn in Hvisible. by rewrite Hvisible.
  - clear Hgrabbed.
    destruct (DragBoxLayer.top edges), (DragBoxLayer.bottom edges),
      (DragBoxLayer.left edges), (DragBoxLayer.right edges);
      cbn [fst snd negb andb Point.x Point.y DragBoxLayer.boxBounds DragBoxLayer.box
           DragBoxLayer.set_bounds]; (split; reflexivity).
Qed.
End DragMore.

(** X22. A detection radius that is not below 0 is stored as given, also
    when it is not a number, and read back by the getter; the layer is
    rendered once and stays resizable or not as it was.  [resizable] reads
    back what was set and requests no render. *)
Theorem drag_box_setters_read_back (layer : DragBoxLayer.t) (r : number) (canResize : bool) :
  (lt r (Fin 0) = false →
   let outcome := DragBoxLayer.detectionRadius layer (Some r) in
   outcome.1 = Return (inr ())
   ∧ (DragBoxLayer.detectionRadius outcome.2 None).1 = Return (inl r)
   ∧ DragBoxLayer.renderRequests outcome.2 = S (DragBoxLayer.renderRequests layer)
   ∧ (DragBoxLayer.resizable outcome.2 None).1 = (DragBoxLayer.resizable layer None).1)
  ∧ (let outcome := DragBoxLayer.resizable layer (Some canResize) in
     outcome.1 = inr ()
     ∧ (DragBoxLayer.resizable outcome.2 None).1 = inl canResize
     ∧ DragBoxLayer.renderRequests outcome.2 = DragBoxLayer.renderRequests layer
     ∧ (DragBoxLayer.detectionRadius outcome.2 None).1
       = (DragBoxLayer.detectionRadius layer None).1).
Proof.
  split; [|done]. intros Hr outcome. subst outcome.
  unfold DragBoxLayer.detectionRadius. by rewrite Hr.
Qed.

(** ** [Plot.StackedArea]: a dataset key that is not registered *)

Section StackingMore.
Context {Datum Value : Type}.
Variable toString : Value → string.
Variable toNumber : Value → Q.
Variable isNull : Value → bool.
Implicit Types (p q : StackedArea.t Datum Value).

Lemma checkDataset_thrown (domainKeys : list string) (keyAccessor : Datum → Value)
    (keys : list string) (message : string) q :
  foldl (StackedArea.checkDataset toString isNull domainKeys keyAccessor)
    (Throw message, q) keys
  = (Throw message, q).
Proof. induction keys as [|k keys IH]; [done|]. exact IH. Qed.

Lemma existsb_lacksKeys (registry : gmap string (StackedArea.DatasetDrawerKey Datum))
    (keyAccessor : Datum → Value) (domainKeys : list string) (k : string) entry :
  registry !! k = Some entry →
  existsb
    (λ domainKey,
       bool_decide
         (domainKey ∉ (λ datum, toString (keyAccessor datum)) <$> StackedArea.dataset entry))
    domainKeys = true
  ↔ StackedArea.lacksKeys toString registry keyAccessor domainKeys k.
Proof.
  intros Hentry. unfold StackedArea.lacksKeys.
  rewrite Hentry, existsb_exists, Exists_exists.
  split; intros (domainKey & Hin & Hmiss); exists domainKey.
  - split; [by apply list_elem_of_In|].
    apply bool_decide_eq_true in Hmiss. apply Forall_forall. intros d Hd Heq.
    apply Hmiss. apply list_elem_of_fmap. by exists d.
  - split; [by apply list_elem_of_In|].
    apply bool_decide_eq_true. intros (d & Heq & Hd)%list_elem_of_fmap.
    rewrite Forall_forall in Hmiss. by apply (Hmiss d Hd).
Qed.

(** The loop over the dataset keys, wherever it stops: [checked] are the
    keys whose datasets were checked before. *)
Lemma check_prefix p (domainKeys : list string) (keyAccessor : Datum → Value)
    (keys : list string) q :
  StackedArea._key2DatasetDrawerKey q = StackedArea._key2DatasetDrawerKey p →
  ∃ outcome q' checked,
    foldl (StackedArea.checkDataset toString isNull domainKeys keyAccessor)
      (Return (), q) keys
    = (outcome, q')
    ∧ StackedArea._key2DatasetDrawerKey q' = StackedArea._key2DatasetDrawerKey q
    ∧ StackedArea.stackOffsets q' = StackedArea.stackOffsets q
    ∧ checked `prefix_of` keys
    ∧ StackedArea.console q'
      = StackedArea.console q
        ++ (StackedArea.warning
              <$> filter (StackedArea.lacksKeys toString
                            (StackedArea._key2DatasetDrawerKey p) keyAccessor domainKeys)
                    checked)
    ∧ ((∀ k, k ∈ keys →
          ∃ entry, StackedArea._key2DatasetDrawerKey p !! k = Some entry
                   ∧ Forall (λ datum, isNull (keyAccessor datum) = false)
                       (StackedArea.dataset entry)) →
       outcome = Return () ∧ checked = keys).
Proof.
  revert q. induction keys as [|k keys IH]; intros q Hmap.
  { exists (Return ()), q, []. rewrite filter_nil, app_nil_r. done. }
  cbn [foldl]. unfold StackedArea.checkDataset at 2. rewrite Hmap.
  destruct (StackedArea._key2DatasetDrawerKey p !! k) as [entry|] eqn:Hentry; cycle 1.
  { rewrite checkDataset_thrown. eexists _, q, []. split; [reflexivity|].
    split; [done|]. split; [done|]. split; [apply prefix_nil|].
    split; [by rewrite filter_nil, app_nil_r|].
    intros Hall. destruct (Hall k) as (entry & Hsome & _); [by left|]. congruence. }
  destruct (existsb (λ datum, isNull (keyAccessor datum)) (StackedArea.dataset entry))
    eqn:Hkeyed.
  { rewrite checkDataset_thrown. eexists _, q, []. split; [reflexivity|].
    split; [done|]. split; [done|]. split; [apply prefix_nil|].
    split; [by rewrite filter_nil, app_nil_r|].
    intros Hall. destruct (Hall k) as (entry' & Hsome & Hnone); [by left|].
    assert (entry' = entry) as -> by congruence.
    apply existsb_exists in Hkeyed as (d & Hd & Hnull).
    rewrite Forall_forall in Hnone. apply list_elem_of_In in Hd.
    specialize (Hnone d Hd). congruence. }
  pose proof (existsb_lacksKeys (StackedArea._key2DatasetDrawerKey p) keyAccessor
                domainKeys k entry Hentry) as Hlacks.
  destruct (existsb _ domainKeys) eqn:E.
  - destruct (IH (StackedArea.warn (StackedArea.warning k) q) Hmap)
      as (outcome & q' & checked & -> & Hmap' & Hoffsets & Hprefix & Hconsole & Hall).
    exists outcome, q', (k :: checked). split; [done|].
    split; [exact (eq_trans Hmap' Hmap)|]. split; [exact Hoffsets|].
    split; [by apply prefix_cons|]. split.
    + rewrite Hconsole, filter_cons. cbn [StackedArea.console StackedArea.warn].
      rewrite <- app_assoc. f_equal. rewrite decide_True; [done|]. by apply Hlacks.
    + intros Hkeys. destruct Hall as [-> ->]; [|done].
      intros k' Hk'. apply Hkeys. by right.
  - destruct (IH q Hmap)
      as (outcome & q' & checked & -> & Hmap' & Hoffsets & Hprefix & Hconsole & Hall).
    exists outcome, q', (k :: checked). split; [done|].
    split; [exact (eq_trans Hmap' Hmap)|]. split; [exact Hoffsets|].
    split; [by apply prefix_cons|]. split.
    + rewrite Hconsole, filter_cons. f_equal.
      rewrite decide_False; [done|]. intros Hl%Hlacks. congruence.
    + intros Hkeys. destruct Hall as [-> ->]; [|done].
      intros k' Hk'. apply Hkeys. by right.
Qed.

(** X23. When a dataset key of the plot is not registered,
    [_updateStackOffsets] throws: the stack offsets are those of before the
    call, and the warnings that have been written are those of the datasets
    that were checked before the call threw.  These are the datasets before
    that key when each of their data has a key; a datum without key makes
    the call throw at its dataset already.  Without a key accessor the call
    throws before any dataset is checked. *)
Theorem updateStackOffsets_unregistered p (before after : list string) (k : string) :
  StackedArea._datasetKeysInOrder p = before ++ k :: after →
  (∀ k', k' ∈ before → is_Some (StackedArea._key2DatasetDrawerKey p !! k')) →
  StackedArea._key2DatasetDrawerKey p !! k = None →
  ∃ message p' checked,
    StackedArea._updateStackOffsets toString toNumber isNull p = (Throw message, p')
    ∧ StackedArea.stackOffsets p' = StackedArea.stackOffsets p
    ∧ checked `prefix_of` before
    ∧ StackedArea.console p'
      = StackedArea.console p
        ++ (StackedArea.warning
              <$> filter (StackedArea.lacksDomainKeys toString p) checked)
    ∧ ((∀ key k' entry,
          StackedArea.keyProjection p = Some key → k' ∈ before →
          StackedArea._key2DatasetDrawerKey p !! k' = Some entry →
          Forall (λ datum, isNull (StackedArea.accessor key datum) = false)
            (StackedArea.dataset entry)) →
       checked = before).
Proof.
  intros Hkeys Hbefore Hk. unfold StackedArea._updateStackOffsets.
  destruct (StackedArea.keyProjection p) as [key|] eqn:Hkey; cycle 1.
  { eexists _, p, before. split; [reflexivity|]. split; [done|]. split; [done|].
    split; [|done].
    assert (∀ l, filter (StackedArea.lacksDomainKeys toString p) l = []) as ->.
    { induction l as [|k' l IH]; [done|]. rewrite filter_cons.
      destruct (decide _) as [Hlacks|_]; [|exact IH].
      unfold StackedArea.lacksDomainKeys in Hlacks. by rewrite Hkey in Hlacks. }
    by rewrite app_nil_r. }
  rewrite Hkeys, foldl_app. cbn [foldl].
  destruct (check_prefix p (StackedArea._getDomainKeys toString p)
              (StackedArea.accessor key) before p eq_refl)
    as (outcome & q & checked & Hfold & Hmap & Hoffsets & Hprefix & Hconsole & Hall).
  rewrite Hfold.
  assert (∃ message,
            foldl (StackedArea.checkDataset toString isNull
                     (StackedArea._getDomainKeys toString p) (StackedArea.accessor key))
              (StackedArea.checkDataset toString isNull
                 (StackedArea._getDomainKeys toString p) (StackedArea.accessor key)
                 (outcome, q) k) after
            = (Throw message, q)) as [message ->].
  { destruct outcome as [[]|message]; cbn [StackedArea.checkDataset].
    - rewrite Hmap, Hk, checkDataset_thrown. by eexists.
    - rewrite checkDataset_thrown. by eexists. }
  exists message, q, checked. split; [done|]. split; [done|]. split; [done|]. split.
  - rewrite Hconsole. do 2 f_equal. apply list_filter_iff. intros k'.
    unfold StackedArea.lacksDomainKeys. by rewrite Hkey.
  - intros Hkeyed. apply Hall. intros k' Hk'.
    destruct (Hbefore k' Hk') as [entry Hentry]. exists entry. split; [done|].
    by apply (Hkeyed key k' entry).
Qed.
End StackingMore.

(** ** [Plots.Bar]: the entities the queries look at *)

Section BarEntitiesMore.
Context {Datum : Type}.
Implicit Types (p : Bar.Plot Datum) (e : Bar.Entity Datum).

(** X24. Until the x and y projectors are set, the plot reports no entity,
    whatever the base class reports, so that [entityNearest] finds nothing
    and [entitiesAt] and [entitiesIn] are empty, and the bar width is 0.
    Once they are set, [entities] reports the entities of the base class one
    for one and in their order, each with its datum, index, dataset and
    rectangle: only positions are recomputed, so the queries find a bar by
    the rectangle the base class reports for it. *)
Theorem entities_keep_bars p (super_entities : list (Bar.Entity Datum)) :
  (Bar._projectorsReady p = false →
   Bar.entities p super_entities = []
   ∧ (∀ queryPoint, Bar.entityNearest p super_entities queryPoint = None)
   ∧ (∀ pt, Bar.entitiesAt p super_entities pt = [])
   ∧ (∀ args, Bar.entitiesIn p super_entities args = [])
   ∧ Bar._getBarPixelWidth p = 0%Q)
  ∧ (Bar._projectorsReady p = true →
     Forall2 (λ e e',
                Bar.datum e' = Bar.datum e ∧ Bar.index e' = Bar.index e
                ∧ Bar.dataset e' = Bar.dataset e ∧ Bar.selection e' = Bar.selection e)
       super_entities (Bar.entities p super_entities)).
Proof.
  split; intros Hready.
  - assert (Bar.entities p super_entities = []) as Hnone.
    { unfold Bar.entities. by rewrite Hready. }
    unfold Bar.entityNearest, Bar.entitiesAt, Bar.entitiesIn, Bar._entitiesIntersecting,
      Bar._getBarPixelWidth.
    rewrite Hnone, Hready. split; [done|]. split; [done|]. split; [done|].
    split; [|done]. by intros [bounds|[xRange yRange]].
  - unfold Bar.entities. rewrite Hready. cbn [negb].
    induction super_entities as [|e l IH]; constructor; [done|exact IH].
Qed.
End BarEntitiesMore.

(** ** The further properties at concrete plots *)

Lemma adjacent_bars_do_not_overlap_witness :
  let w := Bar._getBarPixelWidth Examples.scenario in
  (w <= (95 # 100) * Qabs ((50 * 2 + -50) - (50 * 1 + -50)))%Q
  ∧ (((50 * 1 + -50) + w / 2 <= (50 * 2 + -50) - w / 2)%Q
     ∨ ((50 * 2 + -50) + w / 2 <= (50 * 1 + -50) - w / 2)%Q).
Proof.
  apply (adjacent_bars_do_not_overlap Examples.scenario (λ v, 50 * v + -50)%Q 0 1%Q 2%Q);
    reflexivity.
Defined.

Lemma bars_stay_inside_plot_witness :
  let w := Bar._getBarPixelWidth Examples.inset in
  (0 < (25 * 1 + 0) - w / 2)%Q ∧ ((25 * 3 + 0) + w / 2 < 100)%Q.
Proof.
  split.
  - apply (bars_stay_inside_plot Examples.inset (λ v, 25 * v + 0)%Q (25 * 1 + 0)%Q
             eq_refl eq_refl).
    + by apply (list_elem_of_lookup_2 _ 0%nat).
    + by repeat constructor.
  - apply (bars_stay_inside_plot Examples.inset (λ v, 25 * v + 0)%Q (25 * 3 + 0)%Q
             eq_refl eq_refl).
    + by apply (list_elem_of_lookup_2 _ 2%nat).
    + by repeat constructor.
Defined.

Lemma bar_width_depends_on_value_set_witness :
  (Bar._getBarPixelWidth Examples.scenario == Bar._getBarPixelWidth Examples.shuffled)%Q.
Proof.
  apply (bar_width_depends_on_value_set Examples.scenario Examples.shuffled
           (λ v, 50 * v + -50)%Q eq_refl eq_refl eq_refl eq_refl).
  - intros a b Hab. by rewrite Hab.
  - reflexivity.
  - intros v.
    change (Bar.barAccessorValues Examples.scenario) with [1%Q; 2%Q; 3%Q].
    change (Bar.barAccessorValues Examples.shuffled) with [3%Q; 1%Q; 2%Q; 1%Q].
    rewrite !InA_cons, !InA_nil. tauto.
Defined.

Lemma pixelPoint_coordinates_witness :
  ∃ vx vy : Q,
    Bar._pixelPoint Examples.scenario (1%Q, Some 5%Q) 0 Examples.scenarioData
    = Point.mk (Fin vx) (Fin vy)
    ∧ (vx == 50 * 1 + -50)%Q
    ∧ (vy == Qmin ((-25 # 2) * 5 + (125 # 2)) (Bar.scaledBaseline Examples.scenario))%Q.
Proof.
  apply (pixelPoint_coordinates Examples.scenario (1%Q, Some 5%Q) 0 Examples.scenarioData
           ((-25 # 2) * 5 + (125 # 2))%Q (50 * 1 + -50)%Q
           (Bar._getBarPixelWidth Examples.scenario));
    reflexivity.
Defined.

Lemma baseline_line_touches_bars_witness :
  ∃ offset length : Q,
    Bar.projectorOf (Bar._generateAttrToProjector Examples.scenario) "y"
      (2%Q, Some (-3)%Q) 1 Examples.scenarioData = Fin offset
    ∧ Bar.projectorOf (Bar._generateAttrToProjector Examples.scenario) "height"
        (2%Q, Some (-3)%Q) 1 Examples.scenarioData = Fin length
    ∧ ((offset == Bar.scaledBaseline Examples.scenario)%Q
       ∨ (offset + length == Bar.scaledBaseline Examples.scenario)%Q).
Proof.
  apply (proj2 (baseline_line_touches_bars Examples.scenario) (2%Q, Some (-3)%Q) 1%nat
           Examples.scenarioData ((-25 # 2) * -3 + (125 # 2))%Q).
  reflexivity.
Defined.

Lemma reset_step_keeps_other_attributes_witness :
  ∃ reset main : Bar.DrawStep Examples.Datum,
    Bar._generateDrawSteps Examples.animated = [reset; main]
    ∧ Bar.attrToProjector reset !! "x" = Bar.attrToProjector main !! "x".
Proof.
  eexists _, _. split; [reflexivity|].
  by apply (reset_step_keeps_other_attributes Examples.animated).
Defined.

Lemma constructor_configures_witness :
  ∃ plot,
    Bar.constructor (λ _, Bar.render) Examples.scenario (Some "horizontal") = Return plot
    ∧ Bar._isVertical plot = false
    ∧ (1 ≤ Bar.renderRequests plot)%nat
    ∧ ∀ d i ds,
        Bar.projectorOf (Bar._generateAttrToProjector plot) "height" d i ds
        = Fin (Bar._getBarPixelWidth plot).
Proof.
  destruct (constructor_configures Examples.scenario (λ _, Bar.render)
              (Some "horizontal"))
    as (plot & Hplot & Hvertical & _ & Hrender & _ & _ & _ & Hwidth).
  - intros attr q. cbn. repeat (split; [reflexivity|]). lia.
  - by right; right.
  - exists plot. split; [exact Hplot|]. split; [exact Hvertical|].
    split; [exact Hrender|].
    intros d i ds. specialize (Hwidth d i ds). by rewrite Hvertical in Hwidth.
Defined.

Lemma label_placement_witness :
  ∃ label (ty offset : Q),
    (Bar.labelOf Examples.scenario Examples.labels Examples.scenarioData 0
       (1%Q, Some 5%Q)).1 = Some label
    ∧ Bar.translateY label = Fin ty
    ∧ (ty == ((-25 # 2) * 5 + (125 # 2)) + offset)%Q
    ∧ (0 <= offset)%Q ∧ (Qabs offset <= 5)%Q.
Proof.
  pose proof (label_placement Examples.scenario Examples.labels Examples.scenarioData 0
                (1%Q, Some 5%Q)
                ((50 * 1 + -50) - Bar._getBarPixelWidth Examples.scenario / 2)%Q
                ((-25 # 2) * 5 + (125 # 2))%Q
                (Bar._getBarPixelWidth Examples.scenario)
                (Qabs (Bar.scaledBaseline Examples.scenario
                       - ((-25 # 2) * 5 + (125 # 2))))%Q
                8%Q 10%Q eq_refl eq_refl eq_refl eq_refl eq_refl) as H.
  cbv zeta in H.
  destruct (Bar.labelOf Examples.scenario Examples.labels Examples.scenarioData 0
              (1%Q, Some 5%Q)).1 as [label|].
  - destruct H as (_ & _ & _ & tx & ty & offset & _ & Hty & Hplace & Hsign & Habs & _).
    exists label, ty, offset. split; [reflexivity|]. split; [exact Hty|].
    split; [exact (proj2 Hplace)|]. split; [exact Hsign|exact Habs].
  - exfalso. apply H. by split.
Defined.

Lemma paint_aligns_bars_witness :
  let r := (BarRenderer.barAlignment Examples.renderer "Center").2 in
  ∃ x : Q,
    BarRenderer.projectorOf (BarRenderer._paint_attrToProjector r) "x" (1%Q, Some 5%Q) 0
    = Fin x
    ∧ (x + 10 / 2 == 50 * 1 - 50)%Q.
Proof.
  intros r.
  destruct (paint_aligns_bars r (1%Q, Some 5%Q) 0 (50 * 1 - 50)%Q 10%Q eq_refl eq_refl)
    as (x & w & Hx & _ & Hw & Hcenter & _).
  exists x. split; [exact Hx|]. rewrite <- Hw. by apply Hcenter.
Defined.

Lemma barAlignment_accepts_witness :
  (BarRenderer.barAlignment Examples.renderer "Center").1 = Return ()
  ∧ BarRenderer._barAlignment (BarRenderer.barAlignment Examples.renderer "Center").2
    = "center".
Proof.
  assert ((BarRenderer.barAlignment Examples.renderer "Center").1 = Return ()) as Hreturn.
  { apply (proj2 (proj1 (barAlignment_accepts Examples.renderer "Center"))).
    by apply (list_elem_of_lookup_2 _ 1%nat). }
  split; [exact Hreturn|].
  exact (proj1 (proj1 (proj2 (barAlignment_accepts Examples.renderer "Center")) Hreturn)).
Defined.

Lemma remove_takes_component_out_witness :
  (Group._remove Examples.group "axis").1 = true
  ∧ Group.has (Group._remove Examples.group "axis").2 "axis" = false
  ∧ Group.has (Group._remove Examples.group "axis").2 "plot" = true.
Proof.
  destruct (remove_takes_component_out Examples.group "axis") as (Hresult & Hgone & Hkept & _).
  - apply NoDup_cons. split; [|apply NoDup_singleton].
    by intros H%list_elem_of_singleton.
  - split; [exact Hresult|]. split; [exact Hgone|]. by apply Hkept.
Defined.

Lemma append_then_remove_witness :
  Group._remove (Group.append Examples.group (Some "legend")) "legend"
  = (true, {| Group._components := ["axis"; "plot"]; Group.redraws := 3 |}).
Proof.
  by apply (proj2 (proj2 (proj2 (proj2 (append_then_remove Examples.group "legend"))))).
Defined.

Lemma group_requests_cover_components_witness :
  (Group.minWidth (Examples.halfWidth "plot" 100 50)
   <= Group.minWidth (Group.requestedSpace Examples.halfWidth Examples.group 100 50))%Q
  ∧ (Group.minHeight (Examples.halfWidth "plot" 100 50)
     <= Group.minHeight (Group.requestedSpace Examples.halfWidth Examples.group 100 50))%Q.
Proof.
  by apply (proj1 (group_requests_cover_components Examples.halfWidth Examples.group
                     100%Q 50%Q) "plot").
Defined.

Lemma edges_grabbed_near_border_witness :
  let edges :=
    DragBoxLayer._getResizingEdges Examples.resizableLayer Examples.boxBounds
      (Point.mk (Fin 11) (Fin 25)) in
  DragBoxLayer.top edges || DragBoxLayer.bottom edges
  || DragBoxLayer.left edges || DragBoxLayer.right edges = true.
Proof.
  apply (proj2 (edges_grabbed_near_border Examples.resizableLayer 10 10 50 40 11 25 3
                  eq_refl ltac:(done) ltac:(done) ltac:(done))).
  split; [reflexivity|]. split; [by split|]. split; [by split|].
  intros [[H _] _]. discriminate H.
Defined.

Lemma drag_draws_new_box_witness :
  let s := Point.mk (Fin 20) (Fin 20) in
  let e := Point.mk (Fin 60) (Fin 45) in
  let started := DragBoxLayer.onDragStart (λ bounds, bounds) Examples.hiddenBox s in
  DragBoxLayer.boxBounds
    (DragBoxLayer.box (DragBoxLayer.onDrag (λ bounds, bounds) started s e).2)
  = Bounds.mk s e
  ∧ DragBoxLayer.boxVisible (DragBoxLayer.box (DragBoxLayer.onDragEnd started s s)) = false.
Proof.
  intros s e started.
  destruct (drag_draws_new_box (λ bounds, bounds) Examples.hiddenBox s e (or_introl eq_refl))
    as (_ & _ & _ & Hbounds & _ & _ & Hclick & _).
  split; [exact Hbounds|]. by apply Hclick.
Defined.

Lemma drag_resizes_grabbed_edges_witness :
  let s := Point.mk (Fin 50) (Fin 25) in
  let e := Point.mk (Fin 70) (Fin 30) in
  let started := DragBoxLayer.onDragStart (λ bounds, bounds) Examples.shownBox s in
  DragBoxLayer.boxBounds
    (DragBoxLayer.box (DragBoxLayer.onDrag (λ bounds, bounds) started s e).2)
  = Bounds.mk (Point.mk (Fin 10) (Fin 10)) (Point.mk (Fin 70) (Fin 40)).
Proof.
  exact (proj2 (proj2 (drag_resizes_grabbed_edges (λ bounds, bounds) Examples.shownBox
                         (Point.mk (Fin 50) (Fin 25)) (Point.mk (Fin 70) (Fin 30))
                         eq_refl eq_refl))).
Defined.

Lemma drag_box_setters_read_back_witness :
  (DragBoxLayer.detectionRadius
     (DragBoxLayer.detectionRadius DragBoxLayer.constructor (Some NaN)).2 None).1
  = Return (inl NaN).
Proof.
  exact (proj1 (proj2 (proj1 (drag_box_setters_read_back DragBoxLayer.constructor NaN true)
                         eq_refl))).
Defined.

Lemma updateStackOffsets_unregistered_witness :
  ∃ message p',
    StackedArea._updateStackOffsets Examples.toString Examples.toNumber Examples.isNull
      Examples.unregistered
    = (Throw message, p')
    ∧ StackedArea.stackOffsets p' = StackedArea.stackOffsets Examples.unregistered
    ∧ StackedArea.console p'
      = StackedArea.console Examples.unregistered
        ++ (StackedArea.warning
              <$> filter (StackedArea.lacksDomainKeys Examples.toString Examples.unregistered)
                    ["_0"]).
Proof.
  destruct (updateStackOffsets_unregistered Examples.toString Examples.toNumber
              Examples.isNull Examples.unregistered ["_0"] ["_1"] "_2")
    as (message & p' & checked & Hthrow & Hoffsets & _ & Hconsole & Hchecked).
  - reflexivity.
  - intros k Hk. apply list_elem_of_singleton in Hk as ->. by eexists.
  - reflexivity.
  - exists message, p'. split; [exact Hthrow|]. split; [exact Hoffsets|].
    rewrite Hconsole, Hchecked; [reflexivity|].
    intros key k entry _ _ _. by apply Forall_true.
Defined.

Lemma entities_keep_bars_witness :
  Forall2 (λ e e' : Bar.Entity Examples.Datum,
             Bar.datum e' = Bar.datum e ∧ Bar.index e' = Bar.index e
             ∧ Bar.dataset e' = Bar.dataset e ∧ Bar.selection e' = Bar.selection e)
    [Examples.scenarioEntity] (Bar.entities Examples.scenario [Examples.scenarioEntity]).
Proof.
  by apply (proj2 (entities_keep_bars Examples.scenario [Examples.scenarioEntity])).
Defined.
